(** * The Hull-White trinomial lattice of [FinHullWhiteRateModel.py]

    A shallow embedding of [financepy/models/FinHullWhiteRateModel.py] over
    the real numbers: Python floats are read as elements of [R], Python
    integers as [Z], numpy arrays as lists indexed the numpy way (negative
    indices count from the end, anything else out of range raises), and
    every Python exception as a value of [result].  Methods of the class
    thread the instance explicitly. *)

From Stdlib Require Import Reals Lra Lia ZArith List String Bool.
Import ListNotations.

Open Scope Z_scope.
Open Scope R_scope.

(** ** Exceptions and the error monad *)

Inductive exn : Type :=
| FinError (msg : string)
| ZeroDivisionError
| ValueError
| IndexError
| AttributeError
| TypeError
| UnboundLocalError.

Inductive result (A : Type) : Type :=
| Ok (a : A)
| Raise (e : exn).

Arguments Ok {A} a.
Arguments Raise {A} e.

Definition bind {A B : Type} (c : result A) (k : A -> result B) : result B :=
  match c with
  | Ok a => k a
  | Raise e => Raise e
  end.

Notation "x <- c ;; k" := (bind c (fun x => k))
  (at level 61, c at next level, right associativity).
Notation "' pat <- c ;; k" := (bind c (fun x => match x with pat => k end))
  (at level 61, pat pattern, c at next level, right associativity).

Definition is_ok {A : Type} (c : result A) : Prop :=
  match c with Ok _ => True | Raise _ => False end.

(** ** Python and numpy primitives *)

Module Py.

(** [x / y] on floats. *)
Definition div (x y : R) : result R :=
  if Req_dec_T y 0 then Raise ZeroDivisionError else Ok (x / y).

(** [math.log]. *)
Definition log (x : R) : result R :=
  if Rlt_dec 0 x then Ok (ln x) else Raise ValueError.

(** [math.sqrt]. *)
Definition sqrt (x : R) : result R :=
  if Rle_dec 0 x then Ok (R_sqrt.sqrt x) else Raise ValueError.

(** [math.ceil]. *)
Definition ceil (x : R) : Z := Zceil x.

(** [int(x)] on a float: truncation towards zero. *)
Definition int (x : R) : Z :=
  if Rle_dec 0 x then Zfloor x else Zceil x.

(** [round(x, 0)]: to the nearest integer, ties to the even one. *)
Definition round (x : R) : Z :=
  let f := Zfloor x in
  let d := x - IZR f in
  if Rlt_dec d (1/2) then f
  else if Rlt_dec (1/2) d then (f + 1)%Z
  else if Z.even f then f else (f + 1)%Z.

(** [range(start, stop, -1)]. *)
Definition range_down (start stop : Z) : list Z :=
  map (fun i => (start - Z.of_nat i)%Z) (seq 0 (Z.to_nat (start - stop))).

(** [range(lo, hi)]. *)
Definition range (lo hi : Z) : list Z :=
  map (fun i => (lo + Z.of_nat i)%Z) (seq 0 (Z.to_nat (hi - lo))).

(** [for j in l: s = body(j, s)], stopping at the first exception. *)
Fixpoint for_each {A S : Type} (l : list A) (body : A -> S -> result S)
         (s : S) : result S :=
  match l with
  | [] => Ok s
  | j :: l' => s' <- body j s ;; for_each l' body s'
  end.

End Py.

Module Np.

Definition ndarray := list R.
Definition ndarray2 := list (list R).

(** [np.zeros(shape=(n))]. *)
Definition zeros (n : Z) : result ndarray :=
  if (n <? 0)%Z then Raise ValueError else Ok (repeat 0 (Z.to_nat n)).

(** [np.zeros(shape=(r, c))]. *)
Definition zeros2 (r c : Z) : result ndarray2 :=
  if ((r <? 0) || (c <? 0))%Z%bool then Raise ValueError
  else Ok (repeat (repeat 0 (Z.to_nat c)) (Z.to_nat r)).

(** The position an index denotes in an axis of length [len]. *)
Definition norm_index (len : nat) (i : Z) : result nat :=
  let n := Z.of_nat len in
  if ((0 <=? i) && (i <? n))%Z%bool then Ok (Z.to_nat i)
  else if ((- n <=? i) && (i <? 0))%Z%bool then Ok (Z.to_nat (i + n))
  else Raise IndexError.

Fixpoint update {A : Type} (v : list A) (k : nat) (x : A) : list A :=
  match v, k with
  | [], _ => []
  | _ :: v', O => x :: v'
  | y :: v', S k' => y :: update v' k' x
  end.

(** [v[i]]. *)
Definition getitem {A : Type} (v : list A) (i : Z) : result A :=
  k <- norm_index (List.length v) i ;;
  match nth_error v k with
  | Some x => Ok x
  | None => Raise IndexError
  end.

(** [v[i] = x]. *)
Definition setitem {A : Type} (v : list A) (i : Z) (x : A)
  : result (list A) :=
  k <- norm_index (List.length v) i ;;
  Ok (update v k x).

(** [M[i, j]]. *)
Definition getitem2 (M : ndarray2) (i j : Z) : result R :=
  row <- getitem M i ;;
  getitem row j.

(** [M[i, j] = x]. *)
Definition setitem2 (M : ndarray2) (i j : Z) (x : R) : result ndarray2 :=
  row <- getitem M i ;;
  row' <- setitem row j x ;;
  setitem M i row'.

(** [M[i, j] += x]. *)
Definition additem2 (M : ndarray2) (i j : Z) (x : R) : result ndarray2 :=
  old <- getitem2 M i j ;;
  setitem2 M i j (old + x).

(** [M.shape] of a two-dimensional array. *)
Definition shape (M : ndarray2) : Z * Z :=
  (Z.of_nat (List.length M), Z.of_nat (List.length (hd [] M))).

(** [np.linspace(start, stop, num)]. *)
Definition linspace (start stop : R) (num : Z) : result ndarray :=
  if (num <? 0)%Z then Raise ValueError
  else Ok (map (fun i => start + IZR i * ((stop - start) / IZR (num - 1)))
               (Py.range 0 num)).

End Np.

Import Np.

(** ** [buildTreeFast] *)

(** Body of the loop over [j] that fills [pu], [pm] and [pd]. *)
Definition prob_body (a dt : R) (jmax N : Z) (j : Z)
           (st : ndarray * ndarray * ndarray)
  : result (ndarray * ndarray * ndarray) :=
  let '(pu, pm, pd) := st in
  let ajdt := a * IZR j * dt in
  let jN := (j + N)%Z in
  if (j =? jmax)%Z then
    pu <- setitem pu jN (7.0/6.0 + 0.50*(ajdt*ajdt - 3.0*ajdt)) ;;
    pm <- setitem pm jN (-1.0/3.0 - ajdt*ajdt + 2.0*ajdt) ;;
    pd <- setitem pd jN (1.0/6.0 + 0.50*(ajdt*ajdt - ajdt)) ;;
    Ok (pu, pm, pd)
  else if (j =? - jmax)%Z then
    pu <- setitem pu jN (1.0/6.0 + 0.50*(ajdt*ajdt + ajdt)) ;;
    pm <- setitem pm jN (-1.0/3.0 - ajdt*ajdt - 2.0*ajdt) ;;
    pd <- setitem pd jN (7.0/6.0 + 0.50*(ajdt*ajdt + 3.0*ajdt)) ;;
    Ok (pu, pm, pd)
  else
    pu <- setitem pu jN (1.0/6.0 + 0.50*(ajdt*ajdt - ajdt)) ;;
    pm <- setitem pm jN (2.0/3.0 - ajdt*ajdt) ;;
    pd <- setitem pd jN (1.0/6.0 + 0.50*(ajdt*ajdt + ajdt)) ;;
    Ok (pu, pm, pd).

(** [sumQZ += Q[m, j+N] * exp(-rdt)]. *)
Definition sumQZ_body (Q : ndarray2) (m N : Z) (dR dt : R) (j : Z)
           (sumQZ : R) : result R :=
  let rdt := IZR j * dR * dt in
  q <- getitem2 Q m (j + N) ;;
  Ok (sumQZ + q * exp (- rdt)).

(** [rt[m, jN] = alpha[m] + j*dR]. *)
Definition rt_body (alpha : ndarray) (m N : Z) (dR : R) (j : Z)
           (rt : ndarray2) : result ndarray2 :=
  let jN := (j + N)%Z in
  al <- getitem alpha m ;;
  setitem2 rt m jN (al + IZR j * dR).

(** [Q[m+1, tgt] += Q[m, jN] * p[jN] * z]. *)
Definition add_mass (Q : ndarray2) (m jN tgt : Z) (p : ndarray) (z : R)
  : result ndarray2 :=
  q <- getitem2 Q m jN ;;
  p_j <- getitem p jN ;;
  additem2 Q (m+1) tgt (q * p_j * z).

(** One node of the Arrow-Debreu propagation (source lines 75 to 91). *)
Definition propagate_body (pu pm pd : ndarray) (rt : ndarray2) (dt : R)
           (m jmax jmin N : Z) (j : Z) (Q : ndarray2) : result ndarray2 :=
  let jN := (j + N)%Z in
  r <- getitem2 rt m jN ;;
  let rdt := r * dt in
  let z := exp (- rdt) in
  if (j =? jmax)%Z then
    Q <- add_mass Q m jN jN pu z ;;
    Q <- add_mass Q m jN (jN-1) pm z ;;
    add_mass Q m jN (jN-2) pd z
  else if (j =? jmin)%Z then
    Q <- add_mass Q m jN jN pd z ;;
    Q <- add_mass Q m jN (jN+1) pm z ;;
    add_mass Q m jN (jN+2) pu z
  else
    Q <- add_mass Q m jN (jN+1) pu z ;;
    Q <- add_mass Q m jN jN pm z ;;
    add_mass Q m jN (jN-1) pd z.

(** Body of the big loop over time steps (source lines 61 to 91). *)
Definition step_body (pu pm pd discountFactors : ndarray) (dR dt : R)
           (jmax jmin N : Z) (m : Z)
           (st : ndarray2 * ndarray * ndarray2)
  : result (ndarray2 * ndarray * ndarray2) :=
  let '(Q, alpha, rt) := st in
  let nm := Z.min m jmax in
  sumQZ <- Py.for_each (Py.range (- nm) (nm + 1))
                       (sumQZ_body Q m N dR dt) 0.0 ;;
  dfm <- getitem discountFactors (m + 1) ;;
  ratio <- Py.div sumQZ dfm ;;
  lr <- Py.log ratio ;;
  al <- Py.div lr dt ;;
  alpha <- setitem alpha m al ;;
  rt <- Py.for_each (Py.range (- nm) (nm + 1)) (rt_body alpha m N dR) rt ;;
  Q <- Py.for_each (Py.range (- nm) (nm + 1))
                   (propagate_body pu pm pd rt dt m jmax jmin N) Q ;;
  Ok (Q, alpha, rt).

Definition buildTreeFast (a sigma : R) (treeTimes : ndarray)
           (numTimeSteps : Z) (discountFactors : ndarray)
  : result (ndarray2 * ndarray * ndarray * ndarray * ndarray2 * R) :=
  treeMaturity <- getitem treeTimes (-1) ;;
  dt <- Py.div treeMaturity (IZR (numTimeSteps + 1)) ;;
  s <- Py.sqrt (3.0 * dt) ;;
  let dR := sigma * s in
  x <- Py.div 0.1835 (a * dt) ;;
  let jmax := Py.ceil x in
  let jmin := (- jmax)%Z in
  let N := jmax in
  pu <- zeros (2*jmax+1) ;;
  pm <- zeros (2*jmax+1) ;;
  pd <- zeros (2*jmax+1) ;;
  rt <- zeros2 (numTimeSteps+2) (2*jmax+1) ;;
  '(pu, pm, pd) <- Py.for_each (Py.range (- jmax) (jmax + 1))
                               (prob_body a dt jmax N) (pu, pm, pd) ;;
  Q <- zeros2 (numTimeSteps+2) (2*N+1) ;;
  alpha <- zeros (numTimeSteps+1) ;;
  Q <- setitem2 Q 0 N 1.0 ;;
  '(Q, alpha, rt) <- Py.for_each (Py.range 0 (numTimeSteps + 1))
        (step_body pu pm pd discountFactors dR dt jmax jmin N)
        (Q, alpha, rt) ;;
  Ok (Q, pu, pm, pd, rt, dt).

(** ** The class [FinHullWhiteRateModel] and its collaborators *)

Definition Rltb (x y : R) : bool := if Rlt_dec x y then true else false.
Definition Rleb (x y : R) : bool := if Rle_dec x y then true else false.

(** Reading an attribute that may be unset, or set to [None]. *)
Definition attr {A : Type} (o : option A) : result A :=
  match o with
  | Some x => Ok x
  | None => Raise AttributeError
  end.

(** A discount curve: the two arrays handed to [uinterpolate] and the
    method [df]. *)
Record FinDiscountCurve : Type := {
  _times : ndarray;
  _values : ndarray;
  df : R -> R
}.

Record FinHullWhiteRateModel : Type := {
  _a : R;
  _sigma : R;
  _Q : option ndarray2;
  _r : option ndarray2;
  _treeTimes : option ndarray;
  _pu : option ndarray;
  _pm : option ndarray;
  _pd : option ndarray;
  _discountCurve : option FinDiscountCurve;
  _rt : option ndarray2;
  _dt : option R;
  _bondValues : option ndarray2;
  _optionValues : option ndarray2
}.

(** The fields that make up the lattice. *)
Definition lattice_fields (self : FinHullWhiteRateModel) :=
  (_Q self, _rt self, _pu self, _pm self, _pd self, _dt self,
   _treeTimes self, _discountCurve self).

(** [__init__]. *)
Definition init (a sigma : R) : result FinHullWhiteRateModel :=
  if Rlt_dec sigma 0.0 then
    Raise (FinError "Negative volatility not allowed.")
  else if Rlt_dec a 0.0 then
    Raise (FinError "Mean reversion speed parameter should be >= 0.")
  else
    Ok {| _a := a; _sigma := sigma;
          _Q := None; _r := None; _treeTimes := None;
          _pu := None; _pm := None; _pd := None;
          _discountCurve := None;
          _rt := None; _dt := None;
          _bondValues := None; _optionValues := None |}.

(** [P]: the forward discount factor seen at time [t]. *)
Definition P (self : FinHullWhiteRateModel) (t T Rt delta pt ptd pT : R)
  : result R :=
  let sigma := _sigma self in
  let a := _a self in
  BtT <- Py.div (1.0 - exp (- _a self * (T - t))) (_a self) ;;
  BtDelta <- Py.div (1.0 - exp (- _a self * delta)) (_a self) ;;
  x1 <- Py.div pT pt ;;
  l1 <- Py.log x1 ;;
  ratio <- Py.div BtT BtDelta ;;
  x2 <- Py.div ptd pt ;;
  l2 <- Py.log x2 ;;
  let term1 := l1 - ratio * l2 in
  term2 <- Py.div ((sigma ^ 2) * (1.0 - exp (- 2.0 * a * t)) * BtT
                   * (BtT - BtDelta)) (4.0 * a) ;;
  let logAhat := term1 - term2 in
  ratio' <- Py.div BtT BtDelta ;;
  let BhattT := ratio' * delta in
  Ok (exp (logAhat - BhattT * Rt)).

Section Collaborators.

(** What the module imports and [src/] does not hold: dates and their
    difference in days, the number of days in a year, the standard
    normal distribution function, and the curve interpolation with its
    flat-forward method tag. *)
Variable FinDate : Type.
Variable date_sub : FinDate -> FinDate -> R.
Variable gDaysInYear : R.
Variable N : R -> R.
Variable uinterpolate : R -> ndarray -> ndarray -> Z -> R.
Variable FLAT_FORWARDS : Z.

(** A bond, as far as the pricers look at it; [calculateFlowDates d] is
    the list [bond._flowDates] holds after [bond.calculateFlowDates(d)]. *)
Record FinBond : Type := {
  _maturityDate : FinDate;
  _coupon : R;
  _frequency : R;
  calculateFlowDates : FinDate -> list FinDate
}.

(** A method: the value it returns or the exception it raises, and the
    instance it leaves behind. *)
Definition method (A : Type) : Type :=
  FinHullWhiteRateModel -> result A * FinHullWhiteRateModel.

(** A method whose body assigns to no attribute of [self]. *)
Definition reading {A : Type} (f : FinHullWhiteRateModel -> result A)
  : method A :=
  fun self => (f self, self).

(** [(d1 - d0) / gDaysInYear]. *)
Definition year_frac (d1 d0 : FinDate) : result R :=
  Py.div (date_sub d1 d0) gDaysInYear.

(** The checks every option pricer starts with. *)
Definition check_expiry (texp tmat : R) : result unit :=
  if Rlt_dec tmat texp then
    Raise (FinError "Option expiry after bond matures.")
  else if Rlt_dec texp 0.0 then
    Raise (FinError "Option expiry time negative.")
  else Ok tt.

(** The checks of the tree pricers on the built tree; returns
    [self._treeTimes]. *)
Definition check_tree (self : FinHullWhiteRateModel) (texp : R)
  : result ndarray :=
  match _treeTimes self with
  | None => Raise (FinError "Tree has not been constructed.")
  | Some treeTimes =>
      tlast <- getitem treeTimes (-1) ;;
      if Rlt_dec tlast texp then
        Raise (FinError "Tree expiry must be >= option expiry date.")
      else Ok treeTimes
  end.

(** Subscripting an attribute that may still be [None]. *)
Definition subscriptable {A : Type} (o : option A) : result A :=
  match o with
  | Some x => Ok x
  | None => Raise TypeError
  end.

(** The value of a local variable that may not have been bound yet. *)
Definition local {A : Type} (o : option A) : result A :=
  match o with
  | Some x => Ok x
  | None => Raise UnboundLocalError
  end.

(** [flowTimes] of [europeanBondOption]. *)
Definition flow_times (settlementDate : FinDate) (flowDates : list FinDate)
  : result (list R) :=
  Py.for_each (tl flowDates)
    (fun flowDate acc =>
       t <- year_frac flowDate settlementDate ;;
       Ok (acc ++ [t]))
    [].

(** Inner loop of [europeanBondOption] over the flow times. *)
Definition ebo_flow_body (self : FinHullWhiteRateModel)
           (curve : FinDiscountCurve) (bond : FinBond)
           (texp rt dt ptexp ptdelta : R) (tflow : R)
           (st : R * option R) : result (R * option R) :=
  let '(pv, _) := st in
  let ptflow := df curve tflow in
  zcb <- P self texp tflow rt dt ptexp ptdelta ptflow ;;
  c <- Py.div (_coupon bond) (_frequency bond) ;;
  Ok (pv + c * zcb, Some zcb).

(** Loop of [europeanBondOption] over the nodes of the expiry step. *)
Definition ebo_node_body (self : FinHullWhiteRateModel)
           (curve : FinDiscountCurve) (bond : FinBond)
           (flowTimes : list R)
           (expiryStep : Z) (texp dt ptexp ptdelta strikePrice face : R)
           (k : Z) (st : R * R * option R) : result (R * R * option R) :=
  let '(callPrice, putPrice, zcb) := st in
  Q <- attr (_Q self) ;;
  q <- getitem2 Q expiryStep k ;;
  rtA <- attr (_rt self) ;;
  rt <- getitem2 rtA expiryStep k ;;
  '(pv, zcb) <- Py.for_each flowTimes
      (ebo_flow_body self curve bond texp rt dt ptexp ptdelta)
      (0.0, zcb) ;;
  z <- local zcb ;;
  let pv := pv + z in
  let putPayoff := Rmax (strikePrice - pv * face) 0.0 in
  let callPayoff := Rmax (pv * face - strikePrice) 0.0 in
  Ok (callPrice + q * callPayoff, putPrice + q * putPayoff, zcb).

Definition europeanBondOption_body (self : FinHullWhiteRateModel)
           (settlementDate expiryDate : FinDate) (strikePrice face : R)
           (bond : FinBond) : result (R * R) :=
  texp <- year_frac expiryDate settlementDate ;;
  tmat <- year_frac (_maturityDate bond) settlementDate ;;
  _ <- check_expiry texp tmat ;;
  _ <- check_tree self texp ;;
  let flowDates := calculateFlowDates bond expiryDate in
  flowTimes <- flow_times settlementDate flowDates ;;
  dt <- attr (_dt self) ;;
  let tdelta := texp + dt in
  curve <- attr (_discountCurve self) ;;
  let ptexp := df curve texp in
  let ptdelta := df curve tdelta in
  Q <- attr (_Q self) ;;
  let '(numTimeSteps, numNodes) := shape Q in
  x <- Py.div texp dt ;;
  let expiryStep := Py.int (x + 0.50) in
  '(callPrice, putPrice, _) <- Py.for_each (Py.range 0 numNodes)
      (ebo_node_body self curve bond flowTimes expiryStep
                     texp dt ptexp ptdelta strikePrice face)
      (0.0, 0.0, None) ;;
  Ok (callPrice, putPrice).

Definition europeanBondOption (settlementDate expiryDate : FinDate)
           (strikePrice face : R) (bond : FinBond) : method (R * R) :=
  reading (fun self =>
    europeanBondOption_body self settlementDate expiryDate
                            strikePrice face bond).

Definition europeanOptionOnZeroCouponBond_Anal_body
           (self : FinHullWhiteRateModel)
           (settlementDate expiryDate maturityDate : FinDate)
           (strikePrice face : R) (discountCurve : FinDiscountCurve)
  : result (R * R) :=
  texp <- year_frac expiryDate settlementDate ;;
  tmat <- year_frac maturityDate settlementDate ;;
  _ <- check_expiry texp tmat ;;
  let ptexp := df discountCurve texp in
  let ptmat := df discountCurve tmat in
  let sigma := _sigma self in
  let a := _a self in
  sa <- Py.div sigma a ;;
  let sigmap := sa * (1.0 - exp (- a * (tmat - texp))) in
  y <- Py.div ((1.0 - exp (- 2.0 * a * texp)) / 2.0) a ;;
  s <- Py.sqrt y ;;
  let sigmap := sigmap * s in
  x <- Py.div (face * ptmat) (strikePrice * ptexp) ;;
  l <- Py.log x ;;
  h0 <- Py.div l sigmap ;;
  let h := h0 + sigmap / 2.0 in
  let callPrice :=
    face * ptmat * N h - strikePrice * ptexp * N (h - sigmap) in
  let putPrice :=
    strikePrice * ptexp * N (- h + sigmap) - face * ptmat * N (- h) in
  Ok (callPrice, putPrice).

Definition europeanOptionOnZeroCouponBond_Anal
           (settlementDate expiryDate maturityDate : FinDate)
           (strikePrice face : R) (discountCurve : FinDiscountCurve)
  : method (R * R) :=
  reading (fun self =>
    europeanOptionOnZeroCouponBond_Anal_body self settlementDate
      expiryDate maturityDate strikePrice face discountCurve).

(** Loop of [europeanOptionOnZeroCouponBond_Tree] over the nodes. *)
Definition zcb_node_body (self : FinHullWhiteRateModel)
           (expiryStep : Z)
           (texp tmat dt ptexp ptdelta ptmat strikePrice face : R)
           (k : Z) (st : R * R) : result (R * R) :=
  let '(callPrice, putPrice) := st in
  Q <- attr (_Q self) ;;
  q <- getitem2 Q expiryStep k ;;
  rtA <- attr (_rt self) ;;
  rt <- getitem2 rtA expiryStep k ;;
  zcb <- P self texp tmat rt dt ptexp ptdelta ptmat ;;
  let putPayoff := Rmax (strikePrice - zcb * face) 0.0 in
  let callPayoff := Rmax (zcb * face - strikePrice) 0.0 in
  Ok (callPrice + q * callPayoff, putPrice + q * putPayoff).

Definition europeanOptionOnZeroCouponBond_Tree_body
           (self : FinHullWhiteRateModel)
           (settlementDate expiryDate maturityDate : FinDate)
           (strikePrice face : R) : result (R * R) :=
  texp <- year_frac expiryDate settlementDate ;;
  tmat <- year_frac maturityDate settlementDate ;;
  _ <- check_expiry texp tmat ;;
  _ <- check_tree self texp ;;
  dt <- attr (_dt self) ;;
  let tdelta := texp + dt in
  curve <- attr (_discountCurve self) ;;
  let ptexp := df curve texp in
  let ptdelta := df curve tdelta in
  let ptmat := df curve tmat in
  Q <- attr (_Q self) ;;
  let '(numTimeSteps, numNodes) := shape Q in
  x <- Py.div texp dt ;;
  let expiryStep := Py.int (x + 0.50) in
  Py.for_each (Py.range 0 numNodes)
    (zcb_node_body self expiryStep texp tmat dt ptexp ptdelta ptmat
                   strikePrice face)
    (0.0, 0.0).

Definition europeanOptionOnZeroCouponBond_Tree
           (settlementDate expiryDate maturityDate : FinDate)
           (strikePrice face : R) : method (R * R) :=
  reading (fun self =>
    europeanOptionOnZeroCouponBond_Tree_body self settlementDate
      expiryDate maturityDate strikePrice face).

(** *** [bondOption] *)

(** [couponTimes] and [couponFlows]. *)
Definition coupon_schedule (settlementDate : FinDate) (cpn : R)
           (flowDates : list FinDate) : result (list R * list R) :=
  Py.for_each (tl flowDates)
    (fun flowDate '(couponTimes, couponFlows) =>
       flowTime <- year_frac flowDate settlementDate ;;
       Ok (couponTimes ++ [flowTime], couponFlows ++ [cpn]))
    ([0.0], [0.0]).

(** The loop that snaps the coupons up to expiry onto tree times. *)
Definition treeFlows_body (self : FinHullWhiteRateModel)
           (couponTimes couponFlows dfTimes dfValues : ndarray)
           (interp : Z) (texp dt : R) (i : Z) (treeFlows : ndarray)
  : result ndarray :=
  flowTime <- getitem couponTimes i ;;
  if Rle_dec flowTime texp then
    x <- Py.div flowTime dt ;;
    let n := Py.round x in
    treeTimes <- subscriptable (_treeTimes self) ;;
    treeTime <- getitem treeTimes n ;;
    let df_flow := uinterpolate flowTime dfTimes dfValues interp in
    let df_tree := uinterpolate treeTime dfTimes dfValues interp in
    old <- getitem treeFlows n ;;
    cf <- getitem couponFlows i ;;
    y <- Py.div (cf * 1.0 * df_flow) df_tree ;;
    setitem treeFlows n (old + y)
  else Ok treeFlows.

(** The loop over [nextCpn], left by [break] at the first coupon period
    that holds [treeTime]. *)
Fixpoint accrued_scan (couponTimes : ndarray) (treeTime cpn face : R)
         (m : Z) (l : list Z) (accrued : ndarray) : result ndarray :=
  match l with
  | [] => Ok accrued
  | nextCpn :: l' =>
      prevTime <- getitem couponTimes (nextCpn - 1) ;;
      nextTime <- getitem couponTimes nextCpn ;;
      if (Rltb prevTime treeTime && Rltb treeTime nextTime)%bool then
        let accdPeriod := treeTime - prevTime in
        let period := nextTime - prevTime in
        accd <- Py.div (accdPeriod * cpn * face) period ;;
        setitem accrued m accd
      else accrued_scan couponTimes treeTime cpn face m l' accrued
  end.

Definition accrued_body (self : FinHullWhiteRateModel)
           (couponTimes : ndarray) (numCoupons : Z) (cpn face : R)
           (m : Z) (accrued : ndarray) : result ndarray :=
  treeTimes <- subscriptable (_treeTimes self) ;;
  treeTime <- getitem treeTimes m ;;
  accrued_scan couponTimes treeTime cpn face m (Py.range 1 numCoupons)
               accrued.

(** The bond price at a node of the expiry step: loop over the coupons. *)
Definition expiry_flow_body (self : FinHullWhiteRateModel)
           (couponTimes dfTimes dfValues : ndarray) (interp : Z)
           (expiryStep : Z) (texp rt dt ptexp ptdelta cpn face : R)
           (i : Z) (st : R * option R) : result (R * option R) :=
  let '(bondPrice, zcb) := st in
  tflow <- getitem couponTimes i ;;
  treeTimes <- subscriptable (_treeTimes self) ;;
  te <- getitem treeTimes expiryStep ;;
  if Rlt_dec te tflow then
    let ptflow := uinterpolate tflow dfTimes dfValues interp in
    z <- P self texp tflow rt dt ptexp ptdelta ptflow ;;
    Ok (bondPrice + cpn * face * z, Some z)
  else Ok (bondPrice, zcb).

Definition expiry_bond_body (self : FinHullWhiteRateModel)
           (couponTimes dfTimes dfValues : ndarray) (interp : Z)
           (numCoupons expiryStep N : Z)
           (texp dt ptexp ptdelta cpn face flow : R)
           (k : Z) (st : ndarray2 * option R)
  : result (ndarray2 * option R) :=
  let '(bondValues, zcb) := st in
  let kN := (k + N)%Z in
  rtA <- attr (_rt self) ;;
  rt <- getitem2 rtA expiryStep kN ;;
  '(bondPrice, zcb) <- Py.for_each (Py.range 0 numCoupons)
      (expiry_flow_body self couponTimes dfTimes dfValues interp
                        expiryStep texp rt dt ptexp ptdelta cpn face)
      (0.0, zcb) ;;
  z <- local zcb ;;
  let bondPrice := bondPrice + face * z in
  bondValues <- setitem2 bondValues expiryStep kN (bondPrice + flow) ;;
  Ok (bondValues, zcb).

(** Exercise at expiry. *)
Definition expiry_option_body (bondValues : ndarray2) (accrued : ndarray)
           (expiryStep N : Z) (strikePrice : R)
           (k : Z) (optionValues : ndarray2) : result ndarray2 :=
  let kN := (k + N)%Z in
  bv <- getitem2 bondValues expiryStep kN ;;
  ac <- getitem accrued expiryStep ;;
  let cleanPrice := bv - ac in
  setitem2 optionValues expiryStep kN (Rmax (cleanPrice - strikePrice) 0.0).

(** The value rolled back to node [(m, k)] from the grid [V] of the next
    step: the [if] / [elif] / [else] of source lines 410 to 427, which
    lines 431 to 448 repeat for the option values. *)
Definition rollback (V : ndarray2) (m k kN jmax : Z) (pu pm pd df : R)
  : result R :=
  if (k =? jmax)%Z then
    vu <- getitem2 V (m+1) kN ;;
    vm <- getitem2 V (m+1) (kN-1) ;;
    vd <- getitem2 V (m+1) (kN-2) ;;
    Ok ((pu*vu + pm*vm + pd*vd) * df)
  else if (k =? jmax)%Z then
    vu <- getitem2 V (m+1) (kN+2) ;;
    vm <- getitem2 V (m+1) (kN+1) ;;
    vd <- getitem2 V (m+1) kN ;;
    Ok ((pu*vu + pm*vm + pd*vd) * df)
  else
    vu <- getitem2 V (m+1) (kN+1) ;;
    vm <- getitem2 V (m+1) kN ;;
    vd <- getitem2 V (m+1) (kN-1) ;;
    Ok ((pu*vu + pm*vm + pd*vd) * df).

(** One node of the backward induction (source lines 402 to 454). *)
Definition rollback_node_body (self : FinHullWhiteRateModel)
           (accrued : ndarray) (m jmax N : Z) (dt flow strikePrice : R)
           (americanExercise : bool)
           (k : Z) (st : ndarray2 * ndarray2)
  : result (ndarray2 * ndarray2) :=
  let '(bondValues, optionValues) := st in
  let kN := (k + N)%Z in
  rtA <- attr (_rt self) ;;
  rt <- getitem2 rtA m kN ;;
  let df := exp (- rt * dt) in
  puA <- attr (_pu self) ;;
  pu <- getitem puA kN ;;
  pmA <- attr (_pm self) ;;
  pm <- getitem pmA kN ;;
  pdA <- attr (_pd self) ;;
  pd <- getitem pdA kN ;;
  v <- rollback bondValues m k kN jmax pu pm pd df ;;
  bondValues <- setitem2 bondValues m kN v ;;
  bondValues <- additem2 bondValues m kN flow ;;
  v <- rollback optionValues m k kN jmax pu pm pd df ;;
  optionValues <- setitem2 optionValues m kN v ;;
  if americanExercise then
    bv <- getitem2 bondValues m kN ;;
    ac <- getitem accrued m ;;
    let cleanPrice := bv - ac in
    let exercise := Rmax (cleanPrice - strikePrice) 0 in
    hold <- getitem2 optionValues m kN ;;
    optionValues <- setitem2 optionValues m kN (Rmax exercise hold) ;;
    Ok (bondValues, optionValues)
  else Ok (bondValues, optionValues).

(** One time step of the backward induction. *)
Definition rollback_step_body (self : FinHullWhiteRateModel)
           (treeFlows accrued : ndarray) (jmax N : Z)
           (dt face strikePrice : R) (americanExercise : bool)
           (m : Z) (st : ndarray2 * ndarray2)
  : result (ndarray2 * ndarray2) :=
  let nm := Z.min m jmax in
  tf <- getitem treeFlows m ;;
  let flow := tf * face in
  Py.for_each (Py.range (- nm) (nm + 1))
    (rollback_node_body self accrued m jmax N dt flow strikePrice
                        americanExercise)
    st.

(** Everything [bondOption] computes before it assigns to [self]: the
    two value grids and the offset [N] of the central node. *)
Definition bondOption_grids (self : FinHullWhiteRateModel)
           (settlementDate expiryDate : FinDate) (strikePrice face : R)
           (bond : FinBond) (americanExercise : bool)
  : result (ndarray2 * ndarray2 * Z) :=
  let interp := FLAT_FORWARDS in
  texp <- year_frac expiryDate settlementDate ;;
  tmat <- year_frac (_maturityDate bond) settlementDate ;;
  _ <- check_expiry texp tmat ;;
  curve <- attr (_discountCurve self) ;;
  let dfTimes := _times curve in
  let dfValues := _values curve in
  Q <- attr (_Q self) ;;
  let '(numTimeSteps, numNodes) := shape Q in
  dt <- attr (_dt self) ;;
  x <- Py.div 0.1835 (_a self * dt) ;;
  let jmax := Py.ceil x in
  let N := jmax in
  xe <- Py.div texp dt ;;
  let expiryStep := Py.int (xe + 0.50) in
  xm <- Py.div tmat dt ;;
  let maturityStep := Py.int (xm + 0.50) in
  let flowDates := calculateFlowDates bond settlementDate in
  cpn <- Py.div (_coupon bond) (_frequency bond) ;;
  '(couponTimes, couponFlows) <-
      coupon_schedule settlementDate cpn flowDates ;;
  let numCoupons := Z.of_nat (List.length couponTimes) in
  if existsb (fun t => Rltb t 0.0) couponTimes then
    Raise (FinError "No coupon times can be before the value date.")
  else if existsb (fun t => Rltb tmat t) couponTimes then
    Raise (FinError "No coupon times can be after the maturity date.")
  else
  treeFlows <- zeros numTimeSteps ;;
  treeFlows <- Py.for_each (Py.range 0 numCoupons)
      (treeFlows_body self couponTimes couponFlows dfTimes dfValues
                      interp texp dt)
      treeFlows ;;
  accrued <- zeros numTimeSteps ;;
  accrued <- Py.for_each (Py.range 0 (expiryStep + 1))
      (accrued_body self couponTimes numCoupons cpn face)
      accrued ;;
  optionValues <- zeros2 numTimeSteps numNodes ;;
  bondValues <- zeros2 numTimeSteps numNodes ;;
  let ptexp := uinterpolate texp dfTimes dfValues interp in
  let ptdelta := uinterpolate (texp + dt) dfTimes dfValues interp in
  tf <- getitem treeFlows expiryStep ;;
  let flow := tf * face in
  let nm := Z.min expiryStep jmax in
  '(bondValues, _) <- Py.for_each (Py.range (- nm) (nm + 1))
      (expiry_bond_body self couponTimes dfTimes dfValues interp
         numCoupons expiryStep N texp dt ptexp ptdelta cpn face flow)
      (bondValues, None) ;;
  let nm := Z.min expiryStep jmax in
  optionValues <- Py.for_each (Py.range (- nm) (nm + 1))
      (expiry_option_body bondValues accrued expiryStep N strikePrice)
      optionValues ;;
  '(bondValues, optionValues) <-
      Py.for_each (Py.range_down (expiryStep - 1) (-1))
        (rollback_step_body self treeFlows accrued jmax N dt face
                            strikePrice americanExercise)
        (bondValues, optionValues) ;;
  Ok (optionValues, bondValues, N).

Definition bondOption (settlementDate expiryDate : FinDate)
           (strikePrice face : R) (bond : FinBond)
           (americanExercise : bool) : method (R * R) :=
  fun self =>
    match bondOption_grids self settlementDate expiryDate strikePrice
                           face bond americanExercise with
    | Raise e => (Raise e, self)
    | Ok (optionValues, bondValues, N) =>
        let self' :=
          {| _a := _a self; _sigma := _sigma self;
             _Q := _Q self; _r := _r self;
             _treeTimes := _treeTimes self;
             _pu := _pu self; _pm := _pm self; _pd := _pd self;
             _discountCurve := _discountCurve self;
             _rt := _rt self; _dt := _dt self;
             _bondValues := Some bondValues;
             _optionValues := Some optionValues |} in
        (ov <- getitem2 optionValues 0 N ;;
         bv <- getitem2 bondValues 0 N ;;
         Ok (ov, bv),
         self')
    end.

(** *** [df_Tree] *)

(** What [df_Tree] returns: the bare float [1.0] at time zero, a pair
    otherwise. *)
Inductive df_Tree_value : Type :=
| DfOne (v : R)
| DfPair (p zeroRate : R).

Definition df_Tree_body (self : FinHullWhiteRateModel) (tmat : R)
  : result df_Tree_value :=
  if Req_dec_T tmat 0.0 then Ok (DfOne 1.0)
  else
    Q <- attr (_Q self) ;;
    let '(numTimeSteps, numNodes) := shape Q in
    dt <- attr (_dt self) ;;
    fn1 <- Py.div tmat dt ;;
    x <- Py.div tmat dt ;;
    let fn2 := IZR (Py.int x) in
    if Rlt_dec 1e-6 (Rabs (fn1 - fn2)) then
      Raise (FinError "Time not on tree time grid")
    else
      y <- Py.div tmat dt ;;
      let timeStep := (Py.int y + 1)%Z in
      p <- Py.for_each (Py.range 0 numNodes)
            (fun i p => ad <- getitem2 Q timeStep i ;; Ok (p + ad))
            0.0 ;;
      l <- Py.log p ;;
      zeroRate <- Py.div (- l) tmat ;;
      Ok (DfPair p zeroRate).

Definition df_Tree (tmat : R) : method df_Tree_value :=
  reading (fun self => df_Tree_body self tmat).

(** *** [buildTree] *)

(** [discountFactors], and the [treeTimes] it is read off. *)
Definition buildTree_inputs (startDate endDate : FinDate)
           (numTimeSteps : Z) (discountCurve : FinDiscountCurve)
  : result (ndarray * ndarray) :=
  maturity <- year_frac endDate startDate ;;
  treeMaturity <-
    Py.div (maturity * IZR (numTimeSteps + 1)) (IZR numTimeSteps) ;;
  treeTimes <- linspace 0.0 treeMaturity (numTimeSteps + 2) ;;
  discountFactors <- zeros (numTimeSteps + 2) ;;
  discountFactors <- setitem discountFactors 0 1.0 ;;
  discountFactors <- Py.for_each (Py.range 1 (numTimeSteps + 2))
      (fun i discountFactors =>
         t <- getitem treeTimes i ;;
         setitem discountFactors i (df discountCurve t))
      discountFactors ;;
  Ok (treeTimes, discountFactors).

Definition buildTree (startDate endDate : FinDate) (numTimeSteps : Z)
           (discountCurve : FinDiscountCurve) : method unit :=
  fun self =>
    match
      ('(treeTimes, discountFactors) <-
          buildTree_inputs startDate endDate numTimeSteps discountCurve ;;
       tree <- buildTreeFast (_a self) (_sigma self) treeTimes
                             numTimeSteps discountFactors ;;
       Ok (treeTimes, tree))
    with
    | Raise e => (Raise e, self)
    | Ok (treeTimes, (Q, pu, pm, pd, rt, dt)) =>
        (Ok tt,
         {| _a := _a self; _sigma := _sigma self;
            _Q := Some Q; _r := _r self;
            _treeTimes := Some treeTimes;
            _pu := Some pu; _pm := Some pm; _pd := Some pd;
            _discountCurve := Some discountCurve;
            _rt := Some rt; _dt := Some dt;
            _bondValues := _bondValues self;
            _optionValues := _optionValues self |})
    end.

End Collaborators.

(** * Facts about the primitives *)

Lemma bind_Ok {A B : Type} (c : result A) (k : A -> result B) (b : B) :
  bind c k = Ok b -> exists a, c = Ok a /\ k a = Ok b.
Proof.
  destruct c as [a|e]; simpl; intros H; [eauto | discriminate].
Qed.

(** Splits a hypothesis [x <- c ;; k = Ok b] into its two halves. *)
Tactic Notation "bind_inv" hyp(H) :=
  let a := fresh "a" in
  let Ha := fresh "H" a in
  apply bind_Ok in H; destruct H as (a & Ha & H).

Tactic Notation "bind_inv" hyp(H) "as" ident(a) ident(Ha) :=
  apply bind_Ok in H; destruct H as (a & Ha & H).

Lemma in_range (lo hi j : Z) :
  In j (Py.range lo hi) <-> (lo <= j < hi)%Z.
Proof.
  unfold Py.range. rewrite in_map_iff. split.
  - intros (i & <- & Hi). apply in_seq in Hi. lia.
  - intros Hj. exists (Z.to_nat (j - lo)). split; [lia|].
    apply in_seq. lia.
Qed.

Lemma range_empty (lo hi : Z) : (hi <= lo)%Z -> Py.range lo hi = [].
Proof.
  intros H. unfold Py.range. replace (Z.to_nat (hi - lo)) with O by lia.
  reflexivity.
Qed.

Lemma range_snoc (lo hi : Z) :
  (lo <= hi)%Z -> Py.range lo (hi + 1) = Py.range lo hi ++ [hi].
Proof.
  intros H. unfold Py.range.
  replace (Z.to_nat (hi + 1 - lo)) with (Z.to_nat (hi - lo) + 1)%nat by lia.
  rewrite seq_app, map_app. simpl. f_equal. f_equal. lia.
Qed.

Lemma range_cons (lo hi : Z) :
  (lo < hi)%Z -> Py.range lo hi = lo :: Py.range (lo + 1) hi.
Proof.
  intros H. unfold Py.range.
  replace (Z.to_nat (hi - lo)) with (S (Z.to_nat (hi - (lo + 1)))) by lia.
  simpl. f_equal; [lia|].
  rewrite <- seq_shift, map_map. apply map_ext. intros i. lia.
Qed.

Section ForEach.

Context {A S : Type}.
Variable body : A -> S -> result S.
Variable Inv : list A -> S -> Prop.

(** Loop invariants: [Inv d s] speaks of the state [s] reached once the
    items [d] have been handled. *)
Lemma for_each_inv (l : list A) :
  forall (done : list A) (s s' : S),
    Inv done s ->
    (forall d j rest s0 s1,
        done ++ l = d ++ j :: rest ->
        Inv d s0 -> body j s0 = Ok s1 -> Inv (d ++ [j]) s1) ->
    Py.for_each l body s = Ok s' ->
    Inv (done ++ l) s'.
Proof.
  induction l as [|j l IH]; intros done s s' H0 Hstep Hrun.
  - simpl in Hrun. injection Hrun as <-. now rewrite app_nil_r.
  - simpl in Hrun. bind_inv Hrun.
    replace (done ++ j :: l) with ((done ++ [j]) ++ l)
      by (rewrite <- app_assoc; reflexivity).
    apply IH with (s := a); [ | | exact Hrun].
    + exact (Hstep done j l s a eq_refl H0 Ha).
    + intros d j' rest s0 s1 E. apply (Hstep d j' rest).
      rewrite <- E, <- app_assoc. reflexivity.
Qed.

End ForEach.

Lemma for_each_app {A S : Type} (body : A -> S -> result S) (l1 l2 : list A)
      (s : S) :
  Py.for_each (l1 ++ l2) body s =
  (s1 <- Py.for_each l1 body s ;; Py.for_each l2 body s1).
Proof.
  revert s. induction l1 as [|j l1 IH]; intros s; simpl; [reflexivity|].
  destruct (body j s); simpl; auto.
Qed.

(** ** Indexing *)

Lemma norm_index_lt (len : nat) (i : Z) (k : nat) :
  norm_index len i = Ok k -> (k < len)%nat.
Proof.
  unfold norm_index.
  destruct ((0 <=? i) && (i <? Z.of_nat len))%Z%bool eqn:E1.
  - intros [= <-]. apply andb_prop in E1. lia.
  - destruct ((- Z.of_nat len <=? i) && (i <? 0))%Z%bool eqn:E2;
      [|discriminate].
    intros [= <-]. apply andb_prop in E2. lia.
Qed.

Lemma norm_index_nonneg (len : nat) (i : Z) (k : nat) :
  (0 <= i)%Z -> norm_index len i = Ok k ->
  k = Z.to_nat i /\ (i < Z.of_nat len)%Z.
Proof.
  intros Hi. unfold norm_index.
  destruct ((0 <=? i) && (i <? Z.of_nat len))%Z%bool eqn:E1.
  - intros [= <-]. apply andb_prop in E1. lia.
  - destruct ((- Z.of_nat len <=? i) && (i <? 0))%Z%bool eqn:E2;
      [|discriminate].
    apply andb_prop in E2. lia.
Qed.

Lemma norm_index_in (len : nat) (i : Z) :
  (0 <= i < Z.of_nat len)%Z -> norm_index len i = Ok (Z.to_nat i).
Proof.
  intros Hi. unfold norm_index.
  replace ((0 <=? i) && (i <? Z.of_nat len))%Z%bool with true; [reflexivity|].
  symmetry. apply andb_true_intro. split; lia.
Qed.

(** A negative index counts from the end. *)
Lemma norm_index_neg (len : nat) (i : Z) :
  (- Z.of_nat len <= i < 0)%Z ->
  norm_index len i = Ok (Z.to_nat (i + Z.of_nat len)).
Proof.
  intros Hi. unfold norm_index.
  replace ((0 <=? i) && (i <? Z.of_nat len))%Z%bool with false.
  - replace ((- Z.of_nat len <=? i) && (i <? 0))%Z%bool with true;
      [reflexivity|].
    symmetry. apply andb_true_intro. split; lia.
  - symmetry. apply andb_false_intro1. lia.
Qed.

Lemma length_update {A : Type} (v : list A) (k : nat) (x : A) :
  List.length (update v k x) = List.length v.
Proof.
  revert k. induction v as [|y v IH]; intros [|k]; simpl; auto.
Qed.

Lemma nth_error_update_eq {A : Type} (v : list A) (k : nat) (x : A) :
  (k < List.length v)%nat -> nth_error (update v k x) k = Some x.
Proof.
  revert k. induction v as [|y v IH]; intros [|k] H; simpl in *;
    try lia; auto.
  apply IH. lia.
Qed.

Lemma nth_error_update_neq {A : Type} (v : list A) (k k' : nat) (x : A) :
  k <> k' -> nth_error (update v k x) k' = nth_error v k'.
Proof.
  revert k k'. induction v as [|y v IH]; intros [|k] [|k'] H; simpl;
    try congruence; auto.
Qed.

Lemma getitem_Ok {A : Type} (v : list A) (i : Z) (x : A) :
  getitem v i = Ok x ->
  exists k, norm_index (List.length v) i = Ok k /\ nth_error v k = Some x.
Proof.
  unfold getitem. intros H. bind_inv H. exists a. split; [assumption|].
  destruct (nth_error v a); [congruence | discriminate].
Qed.

Lemma getitem_nonneg {A : Type} (v : list A) (i : Z) (x : A) :
  (0 <= i)%Z -> getitem v i = Ok x ->
  nth_error v (Z.to_nat i) = Some x /\ (i < Z.of_nat (List.length v))%Z.
Proof.
  intros Hi H. apply getitem_Ok in H. destruct H as (k & Hk & Hx).
  apply norm_index_nonneg in Hk; [|assumption]. destruct Hk as [-> Hlt].
  auto.
Qed.

Lemma getitem_in {A : Type} (v : list A) (i : Z) (x : A) :
  (0 <= i)%Z -> nth_error v (Z.to_nat i) = Some x -> getitem v i = Ok x.
Proof.
  intros Hi H. unfold getitem.
  assert (Hlt : (Z.to_nat i < List.length v)%nat)
    by (apply nth_error_Some; congruence).
  rewrite norm_index_in by lia. simpl. now rewrite H.
Qed.

Lemma setitem_Ok {A : Type} (v v' : list A) (i : Z) (x : A) :
  setitem v i x = Ok v' ->
  exists k, norm_index (List.length v) i = Ok k /\ v' = update v k x.
Proof.
  unfold setitem. intros H. bind_inv H. exists a. split; congruence.
Qed.

Lemma setitem_nonneg {A : Type} (v v' : list A) (i : Z) (x : A) :
  (0 <= i)%Z -> setitem v i x = Ok v' ->
  v' = update v (Z.to_nat i) x /\ (i < Z.of_nat (List.length v))%Z.
Proof.
  intros Hi H. apply setitem_Ok in H. destruct H as (k & Hk & ->).
  apply norm_index_nonneg in Hk; [|assumption]. destruct Hk as [-> Hlt].
  auto.
Qed.

Lemma setitem_in {A : Type} (v : list A) (i : Z) (x : A) :
  (0 <= i < Z.of_nat (List.length v))%Z ->
  setitem v i x = Ok (update v (Z.to_nat i) x).
Proof.
  intros Hi. unfold setitem. now rewrite norm_index_in.
Qed.

Lemma setitem_length {A : Type} (v v' : list A) (i : Z) (x : A) :
  setitem v i x = Ok v' -> List.length v' = List.length v.
Proof.
  intros H. apply setitem_Ok in H. destruct H as (k & _ & ->).
  apply length_update.
Qed.

(** Reading a cell after a write, for indices that are not negative. *)
Lemma getitem_setitem {A : Type} (v v' : list A) (i i' : Z) (x : A) :
  (0 <= i)%Z -> (0 <= i')%Z -> setitem v i x = Ok v' ->
  getitem v' i' = if (i' =? i)%Z then Ok x else getitem v i'.
Proof.
  intros Hi Hi' H. apply setitem_nonneg in H; [|assumption].
  destruct H as [-> Hlt].
  destruct (Z.eqb_spec i' i) as [->|Hne].
  - apply getitem_in; [assumption|]. apply nth_error_update_eq. lia.
  - unfold getitem. rewrite length_update.
    destruct (norm_index (List.length v) i') as [k|e] eqn:Ek; simpl; auto.
    apply norm_index_nonneg in Ek; [|assumption]. destruct Ek as [-> _].
    rewrite nth_error_update_neq by lia. reflexivity.
Qed.

(** ** Arithmetic that may raise *)

Lemma div_Ok (x y z : R) : Py.div x y = Ok z -> y <> 0 /\ z = x / y.
Proof.
  unfold Py.div. destruct (Req_dec_T y 0); [discriminate|].
  intros [= <-]. auto.
Qed.

Lemma div_nonzero (x y : R) : y <> 0 -> Py.div x y = Ok (x / y).
Proof.
  intros H. unfold Py.div. destruct (Req_dec_T y 0); [contradiction|].
  reflexivity.
Qed.

Lemma log_Ok (x z : R) : Py.log x = Ok z -> 0 < x /\ z = ln x.
Proof.
  unfold Py.log. destruct (Rlt_dec 0 x); [|discriminate].
  intros [= <-]. auto.
Qed.

Lemma log_pos (x : R) : 0 < x -> Py.log x = Ok (ln x).
Proof.
  intros H. unfold Py.log. destruct (Rlt_dec 0 x); [|contradiction].
  reflexivity.
Qed.

Lemma sqrt_Ok (x z : R) : Py.sqrt x = Ok z -> 0 <= x /\ z = sqrt x.
Proof.
  unfold Py.sqrt. destruct (Rle_dec 0 x); [|discriminate].
  intros [= <-]. auto.
Qed.

Lemma sqrt_nonneg (x : R) : 0 <= x -> Py.sqrt x = Ok (sqrt x).
Proof.
  intros H. unfold Py.sqrt. destruct (Rle_dec 0 x); [|contradiction].
  reflexivity.
Qed.

Lemma zeros_Ok (n : Z) (v : ndarray) :
  zeros n = Ok v -> (0 <= n)%Z /\ v = repeat 0 (Z.to_nat n).
Proof.
  unfold zeros. destruct (Z.ltb_spec n 0); [discriminate|].
  intros [= <-]. auto.
Qed.

Lemma zeros2_Ok (r c : Z) (M : ndarray2) :
  zeros2 r c = Ok M ->
  (0 <= r)%Z /\ (0 <= c)%Z /\
  M = repeat (repeat 0 (Z.to_nat c)) (Z.to_nat r).
Proof.
  unfold zeros2.
  destruct (Z.ltb_spec r 0); [discriminate|].
  destruct (Z.ltb_spec c 0); [discriminate|].
  simpl. intros [= <-]. auto.
Qed.

(** [jmax] is at least one as soon as [a * dt] is positive. *)
Lemma jmax_pos (a dt : R) :
  0 < a * dt -> (1 <= Py.ceil (0.1835 / (a * dt)))%Z.
Proof.
  intros H. unfold Py.ceil.
  assert (Hx : 0 < 0.1835 / (a * dt)).
  { apply Rdiv_lt_0_compat; lra. }
  destruct (Zceil_bound (0.1835 / (a * dt))) as [_ Hub].
  assert (Hz : 0 < IZR (Zceil (0.1835 / (a * dt)))) by lra.
  apply lt_IZR in Hz. lia.
Qed.

(** * The transition probabilities *)

(** The three probabilities stored at offset [i] exist and sum to one. *)
Definition probs_sum_to_one (pu pm pd : ndarray) (i : Z) : Prop :=
  exists u m d,
    getitem pu i = Ok u /\ getitem pm i = Ok m /\ getitem pd i = Ok d /\
    u + m + d = 1.

Lemma prob_body_spec (a dt : R) (jmax N j : Z) (pu pm pd pu' pm' pd' : ndarray) :
  (0 <= j + N)%Z ->
  prob_body a dt jmax N j (pu, pm, pd) = Ok (pu', pm', pd') ->
  probs_sum_to_one pu' pm' pd' (j + N) /\
  (forall i, (0 <= i)%Z -> i <> (j + N)%Z ->
     getitem pu' i = getitem pu i /\ getitem pm' i = getitem pm i /\
     getitem pd' i = getitem pd i).
Proof.
  intros HjN H. unfold prob_body in H.
  destruct (j =? jmax)%Z; [|destruct (j =? - jmax)%Z];
    bind_inv H as u Hu; bind_inv H as m Hm; bind_inv H as w Hw;
    injection H as <- <- <-;
    (split;
     [ do 3 eexists;
       rewrite (getitem_setitem _ _ _ _ _ HjN HjN Hu),
               (getitem_setitem _ _ _ _ _ HjN HjN Hm),
               (getitem_setitem _ _ _ _ _ HjN HjN Hw), Z.eqb_refl;
       repeat split; lra
     | intros i Hi Hne;
       rewrite (getitem_setitem _ _ _ _ _ HjN Hi Hu),
               (getitem_setitem _ _ _ _ _ HjN Hi Hm),
               (getitem_setitem _ _ _ _ _ HjN Hi Hw);
       destruct (Z.eqb_spec i (j + N)); [contradiction|auto] ]).
Qed.

Lemma prob_loop_spec (a dt : R) (jmax : Z) (pu0 pm0 pd0 pu pm pd : ndarray) :
  Py.for_each (Py.range (- jmax) (jmax + 1)) (prob_body a dt jmax jmax)
              (pu0, pm0, pd0) = Ok (pu, pm, pd) ->
  forall j, (- jmax <= j <= jmax)%Z -> probs_sum_to_one pu pm pd (j + jmax).
Proof.
  intros H j Hj.
  pose (Inv := fun (d : list Z) (st : ndarray * ndarray * ndarray) =>
                 let '(u, m, w) := st in
                 forall j, In j d -> (- jmax <= j)%Z ->
                           probs_sum_to_one u m w (j + jmax)).
  assert (HI : Inv ([] ++ Py.range (- jmax) (jmax + 1)) (pu, pm, pd)).
  { apply for_each_inv
      with (body := prob_body a dt jmax jmax) (s := (pu0, pm0, pd0));
      [ simpl; intros ? [] | | exact H ].
    intros d j' rest [[u0 m0] w0] [[u1 m1] w1] E HInv Hb. simpl in E.
    assert (Hj' : (- jmax <= j' < jmax + 1)%Z).
    { apply in_range. rewrite E. apply in_or_app. right. now left. }
    apply prob_body_spec in Hb; [|lia]. destruct Hb as [Hnew Hold].
    simpl. intros i Hi Hlo. apply in_app_or in Hi.
    destruct (Z.eq_dec i j') as [->|Hne]; [exact Hnew|].
    destruct Hi as [Hi|[Hi|[]]]; [|congruence].
    destruct (HInv i Hi Hlo) as (x & y & z & Hx & Hy & Hz & Hsum).
    destruct (Hold (i + jmax)%Z) as (E1 & E2 & E3); [lia|lia|].
    exists x, y, z. rewrite E1, E2, E3. auto. }
  simpl in HI. apply HI; [|lia]. apply in_range. lia.
Qed.

(** What a successful run of [buildTreeFast] went through. *)
Lemma buildTreeFast_Ok (a sigma : R) (treeTimes : ndarray) (n : Z)
      (dfs : ndarray) Q pu pm pd rt dt :
  buildTreeFast a sigma treeTimes n dfs = Ok (Q, pu, pm, pd, rt, dt) ->
  exists treeMaturity Q0 alpha,
    getitem treeTimes (-1) = Ok treeMaturity /\
    IZR (n + 1) <> 0 /\ dt = treeMaturity / IZR (n + 1) /\
    0 <= 3.0 * dt /\ a * dt <> 0 /\
    (0 <= n + 2)%Z /\ (0 <= n + 1)%Z /\
    (0 <= 2 * Py.ceil (0.1835 / (a * dt)) + 1)%Z /\
    Py.for_each
      (Py.range (- Py.ceil (0.1835 / (a * dt)))
                (Py.ceil (0.1835 / (a * dt)) + 1))
      (prob_body a dt (Py.ceil (0.1835 / (a * dt)))
                 (Py.ceil (0.1835 / (a * dt))))
      (repeat 0 (Z.to_nat (2 * Py.ceil (0.1835 / (a * dt)) + 1)),
       repeat 0 (Z.to_nat (2 * Py.ceil (0.1835 / (a * dt)) + 1)),
       repeat 0 (Z.to_nat (2 * Py.ceil (0.1835 / (a * dt)) + 1)))
    = Ok (pu, pm, pd) /\
    setitem2 (repeat (repeat 0
                        (Z.to_nat (2 * Py.ceil (0.1835 / (a * dt)) + 1)))
                     (Z.to_nat (n + 2)))
             0 (Py.ceil (0.1835 / (a * dt))) 1.0 = Ok Q0 /\
    Py.for_each (Py.range 0 (n + 1))
      (step_body pu pm pd dfs (sigma * sqrt (3.0 * dt)) dt
                 (Py.ceil (0.1835 / (a * dt)))
                 (- Py.ceil (0.1835 / (a * dt)))
                 (Py.ceil (0.1835 / (a * dt))))
      (Q0, repeat 0 (Z.to_nat (n + 1)),
       repeat (repeat 0 (Z.to_nat (2 * Py.ceil (0.1835 / (a * dt)) + 1)))
              (Z.to_nat (n + 2)))
    = Ok (Q, alpha, rt).
Proof.
  intros H. unfold buildTreeFast in H.
  bind_inv H as treeMaturity HtM.
  bind_inv H as dt0 Hdt. apply div_Ok in Hdt. destruct Hdt as [Hn1 ->].
  bind_inv H as s Hs. apply sqrt_Ok in Hs. destruct Hs as [Hs0 ->].
  bind_inv H as x Hx. apply div_Ok in Hx. destruct Hx as [Hadt ->].
  bind_inv H as pu0 Hpu0. apply zeros_Ok in Hpu0. destruct Hpu0 as [Hw ->].
  bind_inv H as pm0 Hpm0. apply zeros_Ok in Hpm0. destruct Hpm0 as [_ ->].
  bind_inv H as pd0 Hpd0. apply zeros_Ok in Hpd0. destruct Hpd0 as [_ ->].
  bind_inv H as rt0 Hrt0. apply zeros2_Ok in Hrt0.
  destruct Hrt0 as (Hn2 & _ & ->).
  bind_inv H as ps Hps. destruct ps as [[pu1 pm1] pd1].
  bind_inv H as Q00 HQ00. apply zeros2_Ok in HQ00.
  destruct HQ00 as (_ & _ & ->).
  bind_inv H as al0 Hal0. apply zeros_Ok in Hal0. destruct Hal0 as [Hn1' ->].
  bind_inv H as Q0 HQ0.
  bind_inv H as fin Hfin. destruct fin as [[Q1 alpha] rt1].
  injection H as <- <- <- <- <- <-.
  exists treeMaturity, Q0, alpha.
  repeat split; try assumption; reflexivity.
Qed.

(** A built tree has a positive time step when [a] is positive. *)
Lemma buildTreeFast_dt_pos (a sigma : R) (treeTimes : ndarray) (n : Z)
      (dfs : ndarray) Q pu pm pd rt dt :
  0 < a ->
  buildTreeFast a sigma treeTimes n dfs = Ok (Q, pu, pm, pd, rt, dt) ->
  0 < dt /\ (1 <= Py.ceil (0.1835 / (a * dt)))%Z.
Proof.
  intros Ha H. apply buildTreeFast_Ok in H.
  destruct H as (tM & Q0 & alpha & _ & _ & _ & Hs & Hadt & _).
  assert (Hdt : 0 < dt).
  { destruct (Rtotal_order dt 0) as [Hlt|[->|Hgt]];
      [lra | exfalso; apply Hadt; ring | assumption]. }
  split; [assumption|]. apply jmax_pos. now apply Rmult_lt_0_compat.
Qed.

(** C3.  In a lattice built with [a > 0] (the time step [dt] is then
    positive as well), the three transition probabilities stored for every
    spatial index [j] between [-jmax] and [jmax], at array offset
    [j + jmax], sum to one exactly over the reals; this covers the top
    boundary, the bottom boundary and the interior formulas. *)
Theorem probabilities_sum_to_one
        (a sigma : R) (treeTimes : ndarray) (n : Z) (dfs : ndarray)
        Q pu pm pd rt dt :
  0 < a ->
  buildTreeFast a sigma treeTimes n dfs = Ok (Q, pu, pm, pd, rt, dt) ->
  0 < dt /\
  forall j : Z,
    (- Py.ceil (0.1835 / (a * dt)) <= j <= Py.ceil (0.1835 / (a * dt)))%Z ->
    exists u m d,
      getitem pu (j + Py.ceil (0.1835 / (a * dt))) = Ok u /\
      getitem pm (j + Py.ceil (0.1835 / (a * dt))) = Ok m /\
      getitem pd (j + Py.ceil (0.1835 / (a * dt))) = Ok d /\
      u + m + d = 1.
Proof.
  intros Ha H.
  destruct (buildTreeFast_dt_pos _ _ _ _ _ _ _ _ _ _ _ Ha H) as [Hdt _].
  split; [assumption|].
  apply buildTreeFast_Ok in H.
  destruct H as (tM & Q0 & alpha & _ & _ & _ & _ & _ & _ & _ & _ & Hp & _).
  intros j Hj. exact (prob_loop_spec _ _ _ _ _ _ _ _ _ Hp j Hj).
Qed.

(** * Rows, cells and sums *)

(** Total readings of an array, for stating facts about its contents. *)
Definition row (M : ndarray2) (i : Z) : ndarray := nth (Z.to_nat i) M [].
Definition item (v : ndarray) (c : Z) : R := nth (Z.to_nat c) v 0.
Definition cell (M : ndarray2) (i c : Z) : R := item (row M i) c.

(** The sum of an array. *)
Definition Rsum (v : ndarray) : R := fold_right Rplus 0 v.

(** The sum of [f j] over the indices [j] of a list. *)
Definition Zsum (l : list Z) (f : Z -> R) : R :=
  fold_right (fun j acc => f j + acc) 0 l.

Lemma Zsum_app (l1 l2 : list Z) (f : Z -> R) :
  Zsum (l1 ++ l2) f = Zsum l1 f + Zsum l2 f.
Proof.
  induction l1 as [|j l1 IH]; simpl; [lra|]. rewrite IH. lra.
Qed.

Lemma Zsum_ext (l : list Z) (f g : Z -> R) :
  (forall j, In j l -> f j = g j) -> Zsum l f = Zsum l g.
Proof.
  induction l as [|j l IH]; intros H; simpl; [reflexivity|].
  rewrite H by now left. rewrite IH; [reflexivity|].
  intros i Hi. apply H. now right.
Qed.

Lemma Zsum_zero (l : list Z) (f : Z -> R) :
  (forall j, In j l -> f j = 0) -> Zsum l f = 0.
Proof.
  induction l as [|j l IH]; intros H; simpl; [reflexivity|].
  rewrite H by now left. rewrite IH; [lra|].
  intros i Hi. apply H. now right.
Qed.

Lemma Zsum_scal (l : list Z) (f : Z -> R) (c : R) :
  Zsum l (fun j => c * f j) = c * Zsum l f.
Proof.
  induction l as [|j l IH]; simpl; [lra|]. rewrite IH. lra.
Qed.

Lemma map_seq_from {B : Type} (f : nat -> B) (a b : nat) :
  map f (seq a b) = map (fun i => f (i + a)%nat) (seq 0 b).
Proof.
  revert a. induction b as [|b IH]; intros a; simpl; [reflexivity|].
  f_equal. rewrite IH, <- (seq_shift b 0), map_map. apply map_ext.
  intros i. f_equal. lia.
Qed.

Lemma range_split (lo mid hi : Z) :
  (lo <= mid <= hi)%Z ->
  Py.range lo hi = Py.range lo mid ++ Py.range mid hi.
Proof.
  intros H. unfold Py.range.
  replace (Z.to_nat (hi - lo))
    with (Z.to_nat (mid - lo) + Z.to_nat (hi - mid))%nat by lia.
  rewrite seq_app, map_app. f_equal. simpl.
  rewrite map_seq_from. apply map_ext. intros i. lia.
Qed.

Lemma nth_update {A : Type} (v : list A) (k k' : nat) (x d : A) :
  nth k' (update v k x) d =
  if (Nat.eqb k' k && Nat.ltb k (List.length v))%bool then x else nth k' v d.
Proof.
  revert k k'. induction v as [|y v IH]; intros k k'.
  - simpl. rewrite andb_false_r. now destruct k, k'.
  - destruct k as [|k], k' as [|k']; simpl; auto.
Qed.

Lemma nth_error_nth_eq {A : Type} (v : list A) (k : nat) (x d : A) :
  nth_error v k = Some x -> nth k v d = x.
Proof. intros H. now apply nth_error_nth. Qed.

Lemma Rsum_update (v : ndarray) (k : nat) (x : R) :
  (k < List.length v)%nat ->
  Rsum (update v k (nth k v 0 + x)) = Rsum v + x.
Proof.
  revert k. induction v as [|y v IH]; intros [|k] H; simpl in *; try lia.
  - lra.
  - rewrite IH by lia. lra.
Qed.

Lemma Rsum_repeat_zero (n : nat) : Rsum (repeat 0 n) = 0.
Proof. induction n as [|n IH]; simpl; [reflexivity|]. rewrite IH. lra. Qed.

Lemma nth_repeat_zero (n k : nat) : nth k (repeat 0 n) 0 = 0.
Proof.
  revert k. induction n as [|n IH]; intros [|k]; simpl; auto.
Qed.

Lemma Rsum_seq (v : ndarray) :
  Rsum v = fold_right (fun i acc => nth i v 0 + acc) 0
                      (seq 0 (List.length v)).
Proof.
  induction v as [|y v IH]; [reflexivity|].
  simpl. f_equal. rewrite IH, <- seq_shift.
  generalize (seq 0 (List.length v)). intros l.
  induction l as [|i l IHl]; simpl; [reflexivity|]. now rewrite IHl.
Qed.

(** The sum of an array is the sum of its items. *)
Lemma Rsum_Zsum (v : ndarray) :
  Rsum v = Zsum (Py.range 0 (Z.of_nat (List.length v))) (item v).
Proof.
  rewrite Rsum_seq. unfold Py.range.
  replace (Z.to_nat (Z.of_nat (List.length v) - 0)) with (List.length v)
    by lia.
  generalize (seq 0 (List.length v)). intros l.
  induction l as [|i l IHl]; [reflexivity|].
  cbn [map Zsum fold_right]. fold (Zsum (map (fun i => (0 + Z.of_nat i)%Z) l) (item v)).
  rewrite IHl. f_equal. unfold item. f_equal. lia.
Qed.

(** An array that vanishes outside of [lo .. hi] sums over [lo .. hi]. *)
Lemma Rsum_support (v : ndarray) (lo hi : Z) :
  (0 <= lo)%Z -> (lo <= hi + 1)%Z -> (hi < Z.of_nat (List.length v))%Z ->
  (forall c, (0 <= c)%Z -> (c < lo \/ hi < c)%Z -> item v c = 0) ->
  Rsum v = Zsum (Py.range lo (hi + 1)) (item v).
Proof.
  intros Hlo Hmid Hhi H0. rewrite Rsum_Zsum.
  rewrite (range_split 0 lo) by lia.
  rewrite (range_split lo (hi + 1)) by lia.
  rewrite !Zsum_app.
  rewrite (Zsum_zero (Py.range 0 lo)), (Zsum_zero (Py.range (hi + 1) _));
    [lra | | ]; intros c Hc; apply in_range in Hc; apply H0; lia.
Qed.

(** ** Two-dimensional writes *)

Lemma getitem_item (v : ndarray) (c : Z) (x : R) :
  (0 <= c)%Z -> getitem v c = Ok x ->
  item v c = x /\ (c < Z.of_nat (List.length v))%Z.
Proof.
  intros Hc H. apply getitem_nonneg in H; [|assumption].
  destruct H as [H Hlt]. split; [|assumption].
  unfold item. now apply nth_error_nth_eq.
Qed.

Lemma getitem_row (M : ndarray2) (i : Z) (r : ndarray) :
  (0 <= i)%Z -> getitem M i = Ok r ->
  row M i = r /\ (i < Z.of_nat (List.length M))%Z.
Proof.
  intros Hc H. apply getitem_nonneg in H; [|assumption].
  destruct H as [H Hlt]. split; [|assumption].
  unfold row. now apply nth_error_nth_eq.
Qed.

Lemma getitem2_cell (M : ndarray2) (i c : Z) (x : R) :
  (0 <= i)%Z -> (0 <= c)%Z -> getitem2 M i c = Ok x ->
  cell M i c = x /\ (i < Z.of_nat (List.length M))%Z /\
  (c < Z.of_nat (List.length (row M i)))%Z.
Proof.
  intros Hi Hc H. unfold getitem2 in H. bind_inv H as r Hr.
  apply getitem_row in Hr; [|assumption]. destruct Hr as [<- Hlt].
  apply getitem_item in H; [|assumption]. unfold cell. tauto.
Qed.

Lemma getitem_inrange {A : Type} (v : list A) (i : Z) (d : A) :
  (0 <= i < Z.of_nat (List.length v))%Z ->
  getitem v i = Ok (nth (Z.to_nat i) v d).
Proof.
  intros H. apply getitem_in; [lia|]. apply nth_error_nth'. lia.
Qed.

Lemma getitem2_inrange (M : ndarray2) (i c : Z) :
  (0 <= i < Z.of_nat (List.length M))%Z ->
  (0 <= c < Z.of_nat (List.length (row M i)))%Z ->
  getitem2 M i c = Ok (cell M i c).
Proof.
  intros Hi Hc. unfold getitem2.
  rewrite (getitem_inrange M i []) by assumption. simpl.
  apply getitem_inrange. exact Hc.
Qed.

Lemma setitem2_spec (M M' : ndarray2) (i c : Z) (x : R) :
  (0 <= i)%Z -> (0 <= c)%Z -> setitem2 M i c x = Ok M' ->
  (i < Z.of_nat (List.length M))%Z /\
  (c < Z.of_nat (List.length (row M i)))%Z /\
  M' = update M (Z.to_nat i) (update (row M i) (Z.to_nat c) x).
Proof.
  intros Hi Hc H. unfold setitem2 in H.
  bind_inv H as r Hr. apply getitem_row in Hr; [|assumption].
  destruct Hr as [<- Hlt].
  bind_inv H as r' Hr'. apply setitem_nonneg in Hr'; [|assumption].
  destruct Hr' as [-> Hlt'].
  apply setitem_nonneg in H; [|assumption]. destruct H as [-> _]. auto.
Qed.

Lemma setitem2_inrange (M : ndarray2) (i c : Z) (x : R) :
  (0 <= i < Z.of_nat (List.length M))%Z ->
  (0 <= c < Z.of_nat (List.length (row M i)))%Z ->
  setitem2 M i c x =
  Ok (update M (Z.to_nat i) (update (row M i) (Z.to_nat c) x)).
Proof.
  intros Hi Hc. unfold setitem2.
  rewrite (getitem_inrange M i []) by assumption. simpl.
  fold (row M i). rewrite setitem_in by assumption. simpl.
  apply setitem_in. assumption.
Qed.

Lemma additem2_spec (M M' : ndarray2) (i c : Z) (x : R) :
  (0 <= i)%Z -> (0 <= c)%Z -> additem2 M i c x = Ok M' ->
  (i < Z.of_nat (List.length M))%Z /\
  (c < Z.of_nat (List.length (row M i)))%Z /\
  M' = update M (Z.to_nat i)
              (update (row M i) (Z.to_nat c) (cell M i c + x)).
Proof.
  intros Hi Hc H. unfold additem2 in H. bind_inv H as old Hold.
  apply getitem2_cell in Hold; [|assumption|assumption].
  destruct Hold as (<- & _ & _). now apply setitem2_spec.
Qed.

(** Rows and cells of an array one cell of which was rewritten. *)
Section Update2.

Variables (M : ndarray2) (i c : Z) (x : R).
Hypothesis Hi : (0 <= i < Z.of_nat (List.length M))%Z.
Hypothesis Hc : (0 <= c < Z.of_nat (List.length (row M i)))%Z.

Let M' := update M (Z.to_nat i) (update (row M i) (Z.to_nat c) x).

Lemma update2_length : List.length M' = List.length M.
Proof. apply length_update. Qed.

Lemma update2_row_same :
  row M' i = update (row M i) (Z.to_nat c) x.
Proof.
  unfold row, M'. rewrite nth_update, Nat.eqb_refl.
  replace (Z.to_nat i <? List.length M)%nat with true; [reflexivity|].
  symmetry. apply Nat.ltb_lt. lia.
Qed.

Lemma update2_row_other (i' : Z) :
  (0 <= i')%Z -> i' <> i -> row M' i' = row M i'.
Proof.
  intros Hi' Hne. unfold row, M'. rewrite nth_update.
  replace (Z.to_nat i' =? Z.to_nat i)%nat with false; [reflexivity|].
  symmetry. apply Nat.eqb_neq. lia.
Qed.

Lemma update2_row_length (i' : Z) :
  (0 <= i')%Z -> List.length (row M' i') = List.length (row M i').
Proof.
  intros Hi'. destruct (Z.eq_dec i' i) as [->|Hne].
  - rewrite update2_row_same. apply length_update.
  - now rewrite update2_row_other.
Qed.

Lemma update2_cell (i' c' : Z) :
  (0 <= i')%Z -> (0 <= c')%Z ->
  cell M' i' c' =
  if ((i' =? i) && (c' =? c))%Z%bool then x else cell M i' c'.
Proof.
  intros Hi' Hc'. unfold cell.
  destruct (Z.eqb_spec i' i) as [->|Hne]; simpl.
  - rewrite update2_row_same. unfold item. rewrite nth_update.
    replace (Z.to_nat c <? List.length (row M i))%nat with true
      by (symmetry; apply Nat.ltb_lt; lia).
    rewrite andb_true_r.
    destruct (Z.eqb_spec c' c) as [->|Hne].
    + now rewrite Nat.eqb_refl.
    + replace (Z.to_nat c' =? Z.to_nat c)%nat with false; [reflexivity|].
      symmetry. apply Nat.eqb_neq. lia.
  - now rewrite update2_row_other.
Qed.

End Update2.

(** * The Arrow-Debreu propagation *)

(** [Q'] is [Q] with [x] added to the cell [(i, c)]. *)
Record added (Q Q' : ndarray2) (i c : Z) (x : R) : Prop := {
  added_rows : List.length Q' = List.length Q;
  added_width : forall i', (0 <= i')%Z ->
      List.length (row Q' i') = List.length (row Q i');
  added_other : forall i', (0 <= i')%Z -> i' <> i -> row Q' i' = row Q i';
  added_sum : Rsum (row Q' i) = Rsum (row Q i) + x;
  added_cell : forall i' c', (0 <= i')%Z -> (0 <= c')%Z ->
      cell Q' i' c' =
      cell Q i' c' + (if ((i' =? i) && (c' =? c))%Z%bool then x else 0);
  added_in_rows : (i < Z.of_nat (List.length Q))%Z;
  added_in_width : (c < Z.of_nat (List.length (row Q i)))%Z
}.

Lemma additem2_added (Q Q' : ndarray2) (i c : Z) (x : R) :
  (0 <= i)%Z -> (0 <= c)%Z -> additem2 Q i c x = Ok Q' -> added Q Q' i c x.
Proof.
  intros Hi Hc H. apply additem2_spec in H; [|assumption|assumption].
  destruct H as (Hr & Hw & ->).
  assert (Hi' : (0 <= i < Z.of_nat (List.length Q))%Z) by lia.
  assert (Hc' : (0 <= c < Z.of_nat (List.length (row Q i)))%Z) by lia.
  constructor; try assumption.
  - apply update2_length.
  - intros i' H'. now apply update2_row_length.
  - intros i' H' Hne. now apply update2_row_other.
  - rewrite update2_row_same by assumption. unfold cell, item.
    apply Rsum_update. lia.
  - intros i' c' H1 H2. rewrite update2_cell by assumption.
    destruct ((i' =? i) && (c' =? c))%Z%bool eqn:E; [|lra].
    apply andb_prop in E. destruct E as [E1 E2].
    apply Z.eqb_eq in E1, E2. subst. lra.
Qed.

Lemma add_mass_added (Q Q' : ndarray2) (m jN tgt : Z) (p : ndarray) (z : R) :
  (0 <= m)%Z -> (0 <= jN)%Z -> (0 <= tgt)%Z ->
  add_mass Q m jN tgt p z = Ok Q' ->
  exists p_j, getitem p jN = Ok p_j /\
              added Q Q' (m + 1) tgt (cell Q m jN * p_j * z).
Proof.
  intros Hm HjN Ht H. unfold add_mass in H.
  bind_inv H as q Hq. apply getitem2_cell in Hq; [|assumption|assumption].
  destruct Hq as (<- & _).
  bind_inv H as p_j Hp. exists p_j. split; [assumption|].
  apply additem2_added; [lia | assumption | assumption].
Qed.

(** Three masses sent from node [(m, jN)] to the targets [t1], [t2] and
    [t3] of the next step, weighted by the entries of [p1], [p2], [p3]. *)
Record sent (Q Q' : ndarray2) (m jN t1 t2 t3 : Z) (a1 a2 a3 z : R)
  : Prop := {
  sent_rows : List.length Q' = List.length Q;
  sent_width : forall i, (0 <= i)%Z ->
      List.length (row Q' i) = List.length (row Q i);
  sent_other : forall i, (0 <= i)%Z -> i <> (m + 1)%Z -> row Q' i = row Q i;
  sent_sum : Rsum (row Q' (m + 1)) =
             Rsum (row Q (m + 1)) + cell Q m jN * (a1 + a2 + a3) * z;
  sent_cell : forall i c, (0 <= i)%Z -> (0 <= c)%Z ->
      cell Q' i c =
      cell Q i c +
      (if (i =? m + 1)%Z then
         (if (c =? t1)%Z then cell Q m jN * a1 * z else 0) +
         (if (c =? t2)%Z then cell Q m jN * a2 * z else 0) +
         (if (c =? t3)%Z then cell Q m jN * a3 * z else 0)
       else 0);
  sent_in_width : (t1 < Z.of_nat (List.length (row Q (m + 1))))%Z /\
                  (t2 < Z.of_nat (List.length (row Q (m + 1))))%Z /\
                  (t3 < Z.of_nat (List.length (row Q (m + 1))))%Z
}.

Lemma add_mass3_sent (Q Q' : ndarray2) (m jN t1 t2 t3 : Z)
      (p1 p2 p3 : ndarray) (z : R) :
  (0 <= m)%Z -> (0 <= jN)%Z -> (0 <= t1)%Z -> (0 <= t2)%Z -> (0 <= t3)%Z ->
  (Q1 <- add_mass Q m jN t1 p1 z ;;
   Q2 <- add_mass Q1 m jN t2 p2 z ;;
   add_mass Q2 m jN t3 p3 z) = Ok Q' ->
  exists a1 a2 a3,
    getitem p1 jN = Ok a1 /\ getitem p2 jN = Ok a2 /\ getitem p3 jN = Ok a3 /\
    sent Q Q' m jN t1 t2 t3 a1 a2 a3 z.
Proof.
  intros Hm HjN H1 H2 H3 H.
  bind_inv H as Q1 HQ1. bind_inv H as Q2 HQ2.
  apply add_mass_added in HQ1; try assumption.
  destruct HQ1 as (a1 & Hp1 & A1).
  apply add_mass_added in HQ2; try assumption.
  destruct HQ2 as (a2 & Hp2 & A2).
  apply add_mass_added in H; try assumption.
  destruct H as (a3 & Hp3 & A3).
  assert (E1 : cell Q1 m jN = cell Q m jN).
  { unfold cell. rewrite (added_other _ _ _ _ _ A1) by lia. reflexivity. }
  assert (E2 : cell Q2 m jN = cell Q m jN).
  { rewrite <- E1. unfold cell.
    rewrite (added_other _ _ _ _ _ A2) by lia. reflexivity. }
  rewrite E2 in A3. rewrite E1 in A2.
  exists a1, a2, a3. repeat split; try assumption.
  - rewrite (added_rows _ _ _ _ _ A3), (added_rows _ _ _ _ _ A2).
    apply (added_rows _ _ _ _ _ A1).
  - intros i Hi.
    rewrite (added_width _ _ _ _ _ A3), (added_width _ _ _ _ _ A2)
      by assumption.
    now apply (added_width _ _ _ _ _ A1).
  - intros i Hi Hne.
    rewrite (added_other _ _ _ _ _ A3), (added_other _ _ _ _ _ A2)
      by assumption.
    now apply (added_other _ _ _ _ _ A1).
  - rewrite (added_sum _ _ _ _ _ A3), (added_sum _ _ _ _ _ A2),
      (added_sum _ _ _ _ _ A1). lra.
  - intros i c Hi Hc.
    rewrite (added_cell _ _ _ _ _ A3), (added_cell _ _ _ _ _ A2),
      (added_cell _ _ _ _ _ A1) by assumption.
    destruct (i =? m + 1)%Z; simpl; lra.
  - apply (added_in_width _ _ _ _ _ A1).
  - rewrite <- (added_width _ _ _ _ _ A1) by lia.
    apply (added_in_width _ _ _ _ _ A2).
  - rewrite <- (added_width _ _ _ _ _ A1), <- (added_width _ _ _ _ _ A2)
      by lia.
    apply (added_in_width _ _ _ _ _ A3).
Qed.

(** The branching pattern as the specification words it: the spatial
    indices reached with probabilities [pu], [pm] and [pd], in this order,
    from the node of spatial index [j]. *)
Definition branch_targets (jmax j : Z) : Z * Z * Z :=
  if (j =? jmax)%Z then (j, j - 1, j - 2)%Z
  else if (j =? - jmax)%Z then (j + 2, j + 1, j)%Z
  else (j + 1, j, j - 1)%Z.

Lemma sent_swap (Q Q' : ndarray2) (m jN t1 t2 t3 : Z) (a1 a2 a3 z : R) :
  sent Q Q' m jN t1 t2 t3 a1 a2 a3 z -> sent Q Q' m jN t3 t2 t1 a3 a2 a1 z.
Proof.
  intros [H1 H2 H3 H4 H5 (H6 & H7 & H8)]. constructor; auto.
  - rewrite H4. lra.
  - intros i c Hi Hc. rewrite H5 by assumption.
    destruct (i =? m + 1)%Z; lra.
Qed.

Lemma propagate_body_sent (pu pm pd : ndarray) (rt : ndarray2) (dt : R)
      (m jmax j : Z) (Q Q' : ndarray2) :
  (0 <= m)%Z -> (1 <= jmax)%Z -> (- jmax <= j <= jmax)%Z ->
  propagate_body pu pm pd rt dt m jmax (- jmax) jmax j Q = Ok Q' ->
  exists r u mm d,
    getitem2 rt m (j + jmax) = Ok r /\
    getitem pu (j + jmax) = Ok u /\
    getitem pm (j + jmax) = Ok mm /\
    getitem pd (j + jmax) = Ok d /\
    let '(tu, tm, td) := branch_targets jmax j in
    sent Q Q' m (j + jmax) (tu + jmax) (tm + jmax) (td + jmax)
         u mm d (exp (- (r * dt))).
Proof.
  intros Hm Hjmax Hj H. unfold propagate_body in H.
  bind_inv H as r Hr. exists r. unfold branch_targets.
  destruct (Z.eqb_spec j jmax) as [E|E];
    [|destruct (Z.eqb_spec j (- jmax)) as [E'|E']].
  - apply add_mass3_sent in H; try lia.
    destruct H as (a1 & a2 & a3 & H1 & H2 & H3 & HS).
    exists a1, a2, a3. do 4 (split; [assumption|]).
    replace (j + jmax - 1)%Z with (j - 1 + jmax)%Z in HS by lia.
    replace (j + jmax - 2)%Z with (j - 2 + jmax)%Z in HS by lia.
    exact HS.
  - apply add_mass3_sent in H; try lia.
    destruct H as (a1 & a2 & a3 & H1 & H2 & H3 & HS).
    exists a3, a2, a1. do 4 (split; [assumption|]).
    apply sent_swap.
    replace (j + jmax + 1)%Z with (j + 1 + jmax)%Z in HS by lia.
    replace (j + jmax + 2)%Z with (j + 2 + jmax)%Z in HS by lia.
    exact HS.
  - apply add_mass3_sent in H; try lia.
    destruct H as (a1 & a2 & a3 & H1 & H2 & H3 & HS).
    exists a1, a2, a3. do 4 (split; [assumption|]).
    replace (j + jmax + 1)%Z with (j + 1 + jmax)%Z in HS by lia.
    replace (j + jmax - 1)%Z with (j - 1 + jmax)%Z in HS by lia.
    exact HS.
Qed.

(** * Calibration of the drift *)

Lemma sumQZ_loop (Q : ndarray2) (m N : Z) (dR dt : R) (l : list Z) :
  forall acc s,
    (0 <= m)%Z -> (forall j, In j l -> (0 <= j + N)%Z) ->
    Py.for_each l (sumQZ_body Q m N dR dt) acc = Ok s ->
    s = acc + Zsum l (fun j => cell Q m (j + N) * exp (- (IZR j * dR * dt))).
Proof.
  induction l as [|j l IH]; intros acc s Hm Hl H.
  - simpl in H. injection H as <-. simpl. lra.
  - simpl in H. bind_inv H as acc' Hb. unfold sumQZ_body in Hb.
    bind_inv Hb as q Hq. injection Hb as <-.
    apply getitem2_cell in Hq; [| assumption | apply Hl; now left].
    destruct Hq as (<- & _).
    apply IH in H; [| assumption | intros i Hi; apply Hl; now right].
    rewrite H. simpl. lra.
Qed.

Lemma setitem2_cell (M M' : ndarray2) (i c : Z) (x : R) :
  (0 <= i)%Z -> (0 <= c)%Z -> setitem2 M i c x = Ok M' ->
  (forall i' c', (0 <= i')%Z -> (0 <= c')%Z ->
     cell M' i' c' =
     if ((i' =? i) && (c' =? c))%Z%bool then x else cell M i' c') /\
  (forall i', (0 <= i')%Z -> i' <> i -> row M' i' = row M i').
Proof.
  intros Hi Hc H. apply setitem2_spec in H; [|assumption|assumption].
  destruct H as (Hr & Hw & ->). split.
  - intros i' c' H1 H2. apply update2_cell; lia.
  - intros i' H1 H2. apply update2_row_other; lia.
Qed.

Lemma rt_loop (alpha : ndarray) (m N : Z) (dR al : R) (l : list Z)
      (rt rt' : ndarray2) :
  (0 <= m)%Z -> (forall j, In j l -> (0 <= j + N)%Z) ->
  getitem alpha m = Ok al ->
  Py.for_each l (rt_body alpha m N dR) rt = Ok rt' ->
  (forall j, In j l -> cell rt' m (j + N) = al + IZR j * dR) /\
  (forall i, (0 <= i)%Z -> i <> m -> row rt' i = row rt i).
Proof.
  intros Hm Hl Hal H.
  pose (Inv := fun (d : list Z) (rc : ndarray2) =>
                 (forall j, In j d -> (0 <= j + N)%Z ->
                            cell rc m (j + N) = al + IZR j * dR) /\
                 (forall i, (0 <= i)%Z -> i <> m -> row rc i = row rt i)).
  assert (HI : Inv ([] ++ l) rt').
  { apply for_each_inv with (body := rt_body alpha m N dR) (s := rt);
      [ split; [intros ? [] | reflexivity] | | exact H ].
    intros d j rest r0 r1 E [HIc HIr] Hb. simpl in E.
    assert (HjN : (0 <= j + N)%Z).
    { apply Hl. rewrite E. apply in_or_app. right. now left. }
    unfold rt_body in Hb. rewrite Hal in Hb. simpl in Hb.
    apply setitem2_cell in Hb; [|assumption|assumption].
    destruct Hb as [Hc Hr]. split.
    - intros j' Hj' Hj'N. rewrite Hc by assumption.
      rewrite Z.eqb_refl. simpl.
      destruct (Z.eqb_spec (j' + N) (j + N)) as [E'|E'].
      + replace j' with j by lia. reflexivity.
      + apply in_app_or in Hj'. destruct Hj' as [Hj'|[->|[]]];
          [now apply HIc | lia].
    - intros i Hi Hne. rewrite Hr by assumption. now apply HIr. }
  destruct HI as [HIc HIr]. split; [|exact HIr].
  intros j Hj. apply HIc; [exact Hj | now apply Hl].
Qed.

Section Propagate.

Variables (pu pm pd : ndarray) (rt : ndarray2) (dt : R) (m jmax : Z).
Hypothesis Hm : (0 <= m)%Z.
Hypothesis Hjmax : (1 <= jmax)%Z.
Hypothesis Hprobs : forall j, (- jmax <= j <= jmax)%Z ->
    probs_sum_to_one pu pm pd (j + jmax).

(** The mass that leaves node [j] of step [m]. *)
Let out (Q : ndarray2) (j : Z) : R :=
  cell Q m (j + jmax) * exp (- (cell rt m (j + jmax) * dt)).

Lemma propagate_loop (Q Q' : ndarray2) :
  Py.for_each (Py.range (- Z.min m jmax) (Z.min m jmax + 1))
              (propagate_body pu pm pd rt dt m jmax (- jmax) jmax) Q
  = Ok Q' ->
  List.length Q' = List.length Q /\
  (forall i, (0 <= i)%Z -> List.length (row Q' i) = List.length (row Q i)) /\
  (forall i, (0 <= i)%Z -> i <> (m + 1)%Z -> row Q' i = row Q i) /\
  Rsum (row Q' (m + 1)) =
    Rsum (row Q (m + 1)) +
    Zsum (Py.range (- Z.min m jmax) (Z.min m jmax + 1)) (out Q) /\
  (forall c, (0 <= c)%Z ->
     (c < jmax - Z.min (m + 1) jmax \/ jmax + Z.min (m + 1) jmax < c)%Z ->
     cell Q' (m + 1) c = cell Q (m + 1) c).
Proof.
  intros H.
  pose (Inv := fun (d : list Z) (Qc : ndarray2) =>
    List.length Qc = List.length Q /\
    (forall i, (0 <= i)%Z ->
               List.length (row Qc i) = List.length (row Q i)) /\
    (forall i, (0 <= i)%Z -> i <> (m + 1)%Z -> row Qc i = row Q i) /\
    Rsum (row Qc (m + 1)) = Rsum (row Q (m + 1)) + Zsum d (out Q) /\
    (forall c, (0 <= c)%Z ->
       (c < jmax - Z.min (m + 1) jmax \/ jmax + Z.min (m + 1) jmax < c)%Z ->
       cell Qc (m + 1) c = cell Q (m + 1) c)).
  enough (HI : Inv ([] ++ Py.range (- Z.min m jmax) (Z.min m jmax + 1)) Q')
    by exact HI.
  apply for_each_inv
    with (body := propagate_body pu pm pd rt dt m jmax (- jmax) jmax)
         (s := Q); [ | | exact H ].
  { repeat split; auto. simpl. lra. }
  intros d j rest Q0 Q1 E (I1 & I2 & I3 & I4 & I5) Hb. simpl in E.
  assert (Hj : (- Z.min m jmax <= j < Z.min m jmax + 1)%Z).
  { apply in_range. rewrite E. apply in_or_app. right. now left. }
  apply propagate_body_sent in Hb; [ | assumption | assumption | lia ].
  destruct Hb as (r & u & mm & w & Hr & Hu & Hmm & Hw & HS).
  destruct (Hprobs j) as (u' & m' & w' & Hu' & Hm' & Hw' & Hsum); [lia|].
  assert (u' = u) by congruence. assert (m' = mm) by congruence.
  assert (w' = w) by congruence. subst u' m' w'.
  apply getitem2_cell in Hr; [ | assumption | lia ]. destruct Hr as [Hr _].
  assert (Hq : cell Q0 m (j + jmax) = cell Q m (j + jmax)).
  { unfold cell. rewrite I3 by lia. reflexivity. }
  destruct (branch_targets jmax j) as [[tu tm] td] eqn:Etg.
  assert (Htg : (jmax - Z.min (m + 1) jmax <= tu + jmax
                   <= jmax + Z.min (m + 1) jmax)%Z /\
                (jmax - Z.min (m + 1) jmax <= tm + jmax
                   <= jmax + Z.min (m + 1) jmax)%Z /\
                (jmax - Z.min (m + 1) jmax <= td + jmax
                   <= jmax + Z.min (m + 1) jmax)%Z).
  { unfold branch_targets in Etg.
    destruct (Z.eqb_spec j jmax) as [E1|E1];
      [|destruct (Z.eqb_spec j (- jmax)) as [E2|E2]];
      injection Etg as <- <- <-; lia. }
  destruct HS as [S1 S2 S3 S4 S5 S6]. repeat split.
  - congruence.
  - intros i Hi. rewrite S2 by assumption. now apply I2.
  - intros i Hi Hne. rewrite S3 by assumption. now apply I3.
  - rewrite S4, I4, Zsum_app. simpl. unfold out at 3.
    rewrite Hq, Hr. replace (u + mm + w) with 1 by lra. lra.
  - intros c Hc Hout. rewrite S5 by lia. rewrite Z.eqb_refl.
    destruct (Z.eqb_spec c (tu + jmax)); [lia|].
    destruct (Z.eqb_spec c (tm + jmax)); [lia|].
    destruct (Z.eqb_spec c (td + jmax)); [lia|].
    rewrite I5 by assumption. lra.
Qed.

End Propagate.

(** The spatial indices occupied at step [m]. *)
Definition occupied (m jmax : Z) : list Z :=
  Py.range (- Z.min m jmax) (Z.min m jmax + 1).

(** What holds of [Q] and [rt] when the big loop is about to run step [m],
    and, with [m = numTimeSteps + 1], once it has ended. *)
Record tree_inv (dfs : ndarray) (dt : R) (jmax n m : Z)
       (Q rt : ndarray2) : Prop := {
  T_rows : List.length Q = Z.to_nat (n + 2);
  T_width : forall i, (0 <= i < n + 2)%Z ->
      List.length (row Q i) = Z.to_nat (2 * jmax + 1);
  T_sum0 : Rsum (row Q 0) = 1;
  T_sum : forall i, (1 <= i <= m)%Z -> getitem dfs i = Ok (Rsum (row Q i));
  T_support : forall i c, (0 <= i <= m)%Z -> (0 <= c)%Z ->
      (c < jmax - Z.min i jmax \/ jmax + Z.min i jmax < c)%Z ->
      cell Q i c = 0;
  T_zero : forall i, (m < i < n + 2)%Z ->
      row Q i = repeat 0 (Z.to_nat (2 * jmax + 1));
  T_weighted : forall i, (0 <= i < m)%Z ->
      getitem dfs (i + 1) =
      Ok (Zsum (occupied i jmax)
               (fun j => cell Q i (j + jmax)
                         * exp (- (cell rt i (j + jmax) * dt))))
}.

Lemma exp_drift (s dfm dt : R) :
  dfm <> 0 -> 0 < s / dfm -> dt <> 0 ->
  exp (- (ln (s / dfm) / dt * dt)) * s = dfm.
Proof.
  intros Hd Hr Hdt.
  replace (- (ln (s / dfm) / dt * dt)) with (- ln (s / dfm))
    by (field; assumption).
  rewrite exp_Ropp, exp_ln by assumption.
  assert (Hs : s <> 0).
  { intros ->. unfold Rdiv in Hr. rewrite Rmult_0_l in Hr. lra. }
  field. split; assumption.
Qed.

Lemma step_body_inv (pu pm pd dfs : ndarray) (dR dt : R) (jmax n m : Z)
      (Q alpha rt Q' alpha' rt' : _) :
  (0 <= m <= n)%Z -> (1 <= jmax)%Z ->
  (forall j, (- jmax <= j <= jmax)%Z -> probs_sum_to_one pu pm pd (j + jmax)) ->
  tree_inv dfs dt jmax n m Q rt ->
  step_body pu pm pd dfs dR dt jmax (- jmax) jmax m (Q, alpha, rt)
  = Ok (Q', alpha', rt') ->
  tree_inv dfs dt jmax n (m + 1) Q' rt'.
Proof.
  intros Hm Hjmax Hprobs [I1 I2 I3 I4 I5 I6 I7] H.
  unfold step_body in H.
  assert (Hocc : forall j, In j (occupied m jmax) -> (0 <= j + jmax)%Z).
  { intros j Hj. apply in_range in Hj. lia. }
  fold (occupied m jmax) in H.
  bind_inv H as s Hs. apply sumQZ_loop in Hs; [ | lia | exact Hocc ].
  bind_inv H as dfm Hdfm.
  bind_inv H as ratio Hratio. apply div_Ok in Hratio.
  destruct Hratio as [Hdfm0 ->].
  bind_inv H as lr Hlr. apply log_Ok in Hlr. destruct Hlr as [Hpos ->].
  bind_inv H as al Hal. apply div_Ok in Hal. destruct Hal as [Hdt ->].
  bind_inv H as alpha1 Halpha.
  assert (Hget : getitem alpha1 m = Ok (ln (s / dfm) / dt)).
  { rewrite (getitem_setitem _ _ _ _ _ (proj1 Hm) (proj1 Hm) Halpha).
    now rewrite Z.eqb_refl. }
  bind_inv H as rt1 Hrt.
  apply (rt_loop _ _ _ _ _ _ _ _ (proj1 Hm) Hocc Hget) in Hrt.
  destruct Hrt as [Hrtc Hrtr].
  bind_inv H as Q1 HQ. injection H as <- <- <-.
  apply propagate_loop in HQ; [ | lia | assumption | assumption ].
  destruct HQ as (P1 & P2 & P3 & P4 & P5).
  fold (occupied m jmax) in P4.
  assert (Hout :
    Zsum (occupied m jmax)
         (fun j => cell Q m (j + jmax)
                   * exp (- (cell rt1 m (j + jmax) * dt))) = dfm).
  { rewrite (Zsum_ext _ _
      (fun j => exp (- (ln (s / dfm) / dt * dt))
                * (cell Q m (j + jmax) * exp (- (IZR j * dR * dt))))).
    - rewrite Zsum_scal.
      replace (Zsum _ _) with s by (rewrite Hs; lra).
      now apply exp_drift.
    - intros j Hj. rewrite (Hrtc j Hj).
      replace (- ((ln (s / dfm) / dt + IZR j * dR) * dt))
        with (- (ln (s / dfm) / dt * dt) + - (IZR j * dR * dt)) by ring.
      rewrite exp_plus. ring. }
  assert (Hnew : Rsum (row Q1 (m + 1)) = dfm).
  { rewrite P4, I6 by lia. rewrite Rsum_repeat_zero, Hout. lra. }
  constructor.
  - congruence.
  - intros i Hi. rewrite P2 by lia. now apply I2.
  - rewrite P3 by lia. exact I3.
  - intros i Hi. destruct (Z.eq_dec i (m + 1)) as [->|Hne].
    + now rewrite Hnew.
    + rewrite P3 by lia. apply I4. lia.
  - intros i c Hi Hc Hout'. destruct (Z.eq_dec i (m + 1)) as [->|Hne].
    + rewrite P5 by assumption. unfold cell, item.
      rewrite I6 by lia. apply nth_repeat_zero.
    + unfold cell. rewrite P3 by lia. apply I5; [lia | assumption | assumption].
  - intros i Hi. rewrite P3 by lia. apply I6. lia.
  - intros i Hi. destruct (Z.eq_dec i m) as [->|Hne].
    + rewrite Hdfm. f_equal. rewrite <- Hout. apply Zsum_ext.
      intros j Hj. unfold cell. rewrite P3 by lia. reflexivity.
    + rewrite I7 by lia. f_equal. apply Zsum_ext.
      intros j Hj. unfold cell. rewrite P3, Hrtr by lia. reflexivity.
Qed.

Lemma range_nth_prefix (lo hi j : Z) (d rest : list Z) :
  Py.range lo hi = d ++ j :: rest -> j = (lo + Z.of_nat (List.length d))%Z.
Proof.
  intros E.
  assert (H : nth_error (Py.range lo hi) (List.length d) = Some j).
  { rewrite E, nth_error_app2, Nat.sub_diag by lia. reflexivity. }
  unfold Py.range in H. rewrite nth_error_map in H.
  destruct (nth_error (seq 0 (Z.to_nat (hi - lo))) (List.length d))
    as [i|] eqn:Ei; [|discriminate].
  injection H as <-.
  assert (Hlt : (List.length d < List.length (seq 0 (Z.to_nat (hi - lo))))%nat)
    by (apply nth_error_Some; congruence).
  rewrite length_seq in Hlt.
  apply (nth_error_nth _ _ O) in Ei. rewrite seq_nth in Ei by assumption.
  f_equal. f_equal. lia.
Qed.

Lemma range_length (lo hi : Z) :
  List.length (Py.range lo hi) = Z.to_nat (hi - lo).
Proof. unfold Py.range. now rewrite length_map, length_seq. Qed.

Lemma Zsum_map (g : Z -> Z) (l : list Z) (f : Z -> R) :
  Zsum (map g l) f = Zsum l (fun j => f (g j)).
Proof.
  induction l as [|j l IH]; simpl; [reflexivity|]. now rewrite IH.
Qed.

Lemma range_shift (lo hi k : Z) :
  Py.range (lo + k) (hi + k) = map (fun j => (j + k)%Z) (Py.range lo hi).
Proof.
  unfold Py.range. rewrite map_map.
  replace (hi + k - (lo + k))%Z with (hi - lo)%Z by lia.
  apply map_ext. intros i. lia.
Qed.

Lemma nth_repeat_lt {A : Type} (x d : A) (n k : nat) :
  (k < n)%nat -> nth k (repeat x n) d = x.
Proof.
  revert k. induction n as [|n IH]; intros [|k] H; simpl; try lia; auto.
  apply IH. lia.
Qed.

Lemma row_zeros (r c : nat) (i : Z) :
  (0 <= i < Z.of_nat r)%Z -> row (repeat (repeat 0 c) r) i = repeat 0 c.
Proof. intros H. unfold row. apply nth_repeat_lt. lia. Qed.

(** The invariant holds when the big loop starts. *)
Lemma tree_inv_init (dfs : ndarray) (dt : R) (jmax n : Z)
      (Q0 rt0 : ndarray2) :
  (0 <= jmax)%Z ->
  setitem2 (repeat (repeat 0 (Z.to_nat (2 * jmax + 1))) (Z.to_nat (n + 2)))
           0 jmax 1.0 = Ok Q0 ->
  tree_inv dfs dt jmax n 0 Q0 rt0.
Proof.
  intros Hjmax H.
  apply setitem2_spec in H; [ | lia | assumption ].
  destruct H as (Hr & Hw & ->). rewrite repeat_length in Hr.
  rewrite row_zeros in * by lia. rewrite repeat_length in Hw.
  set (Z0 := repeat (repeat 0 (Z.to_nat (2 * jmax + 1))) (Z.to_nat (n + 2))).
  assert (Hi0 : (0 <= 0 < Z.of_nat (List.length Z0))%Z)
    by (unfold Z0; rewrite repeat_length; lia).
  assert (Hc0 : (0 <= jmax < Z.of_nat (List.length (row Z0 0)))%Z).
  { unfold Z0. rewrite row_zeros by lia. rewrite repeat_length. lia. }
  assert (Hrow0 : row Z0 0 = repeat 0 (Z.to_nat (2 * jmax + 1)))
    by (unfold Z0; apply row_zeros; lia).
  rewrite <- Hrow0.
  constructor.
  - rewrite update2_length. unfold Z0. apply repeat_length.
  - intros i Hi. rewrite update2_row_length by lia.
    unfold Z0. rewrite row_zeros by lia. apply repeat_length.
  - rewrite update2_row_same by assumption.
    replace 1.0 with (nth (Z.to_nat jmax) (row Z0 0) 0 + 1).
    + rewrite Rsum_update by lia. rewrite Hrow0, Rsum_repeat_zero. lra.
    + rewrite Hrow0, nth_repeat_zero. lra.
  - intros i Hi. lia.
  - intros i c Hi Hc Hout. replace i with 0%Z by lia.
    rewrite update2_cell by lia. simpl.
    destruct (Z.eqb_spec c jmax); [lia|].
    unfold cell, item. rewrite Hrow0. apply nth_repeat_zero.
  - intros i Hi. rewrite update2_row_other by lia.
    unfold Z0. apply row_zeros. lia.
  - intros i Hi. lia.
Qed.

(** The invariant holds when the big loop has ended. *)
Lemma tree_loop (pu pm pd dfs : ndarray) (dR dt : R) (jmax n : Z)
      (Q0 alpha0 rt0 Q alpha rt : _) :
  (0 <= n + 1)%Z -> (1 <= jmax)%Z ->
  (forall j, (- jmax <= j <= jmax)%Z -> probs_sum_to_one pu pm pd (j + jmax)) ->
  tree_inv dfs dt jmax n 0 Q0 rt0 ->
  Py.for_each (Py.range 0 (n + 1))
              (step_body pu pm pd dfs dR dt jmax (- jmax) jmax)
              (Q0, alpha0, rt0) = Ok (Q, alpha, rt) ->
  tree_inv dfs dt jmax n (n + 1) Q rt.
Proof.
  intros Hn Hjmax Hprobs H0 H.
  pose (Inv := fun (d : list Z) (st : ndarray2 * ndarray * ndarray2) =>
                 let '(Qc, _, rc) := st in
                 tree_inv dfs dt jmax n (Z.of_nat (List.length d)) Qc rc).
  assert (HI : Inv ([] ++ Py.range 0 (n + 1)) (Q, alpha, rt)).
  { apply for_each_inv
      with (body := step_body pu pm pd dfs dR dt jmax (- jmax) jmax)
           (s := (Q0, alpha0, rt0)); [ exact H0 | | exact H ].
    intros d j rest [[Qa ala] rta] [[Qb alb] rtb] E HInv Hb.
    simpl in E. simpl in HInv.
    assert (Ej := range_nth_prefix _ _ _ _ _ E).
    assert (Hj : (0 <= j < n + 1)%Z).
    { apply in_range. rewrite E. apply in_or_app. right. now left. }
    simpl. rewrite length_app. simpl.
    replace (Z.of_nat (List.length d + 1)) with (j + 1)%Z by lia.
    apply (step_body_inv pu pm pd dfs dR dt jmax n j Qa ala rta Qb alb rtb);
      try assumption; [lia|].
    replace j with (Z.of_nat (List.length d)) by lia. exact HInv. }
  simpl in HI. rewrite range_length in HI.
  replace (Z.of_nat (Z.to_nat (n + 1 - 0))) with (n + 1)%Z in HI by lia.
  exact HI.
Qed.

(** A lattice built by [buildTreeFast] satisfies the invariant at the last
    step. *)
Lemma buildTreeFast_calibrated (a sigma : R) (treeTimes : ndarray) (n : Z)
      (dfs : ndarray) Q pu pm pd rt dt :
  0 < a ->
  buildTreeFast a sigma treeTimes n dfs = Ok (Q, pu, pm, pd, rt, dt) ->
  tree_inv dfs dt (Py.ceil (0.1835 / (a * dt))) n (n + 1) Q rt.
Proof.
  intros Ha H.
  destruct (buildTreeFast_dt_pos _ _ _ _ _ _ _ _ _ _ _ Ha H) as [Hdt Hjmax].
  apply buildTreeFast_Ok in H.
  destruct H as (tM & Q0 & alpha & _ & _ & _ & _ & _ & _ & Hn1 & _
                 & Hp & HQ0 & Hloop).
  eapply tree_loop; [ exact Hn1 | exact Hjmax | | | exact Hloop ].
  - intros j Hj. eapply prob_loop_spec; [exact Hp | exact Hj].
  - apply tree_inv_init; [lia | exact HQ0].
Qed.

(** The occupied cells of a row carry the whole sum of the row. *)
Lemma occupied_sum_row (dfs : ndarray) (dt : R) (jmax n m0 m : Z)
      (Q rt : ndarray2) :
  (1 <= jmax)%Z -> (0 <= m <= m0)%Z -> (m < n + 2)%Z ->
  tree_inv dfs dt jmax n m0 Q rt ->
  Zsum (occupied m jmax) (fun j => cell Q m (j + jmax)) = Rsum (row Q m).
Proof.
  intros Hjmax Hm Hn I.
  rewrite (Rsum_support (row Q m) (jmax - Z.min m jmax)
                        (jmax + Z.min m jmax)).
  - unfold occupied.
    replace (jmax - Z.min m jmax)%Z with (- Z.min m jmax + jmax)%Z by lia.
    replace (jmax + Z.min m jmax + 1)%Z
      with (Z.min m jmax + 1 + jmax)%Z by lia.
    rewrite range_shift, Zsum_map. reflexivity.
  - lia.
  - lia.
  - rewrite (T_width _ _ _ _ _ _ _ I) by lia. lia.
  - intros c Hc Hout. apply (T_support _ _ _ _ _ _ _ I); [lia | assumption |].
    lia.
Qed.

(** ** The propagation over the whole lattice *)

(** The mass that node [j] of step [m] sends to node [k] of step [m+1]:
    [Q[m, j] * p * exp(-rt[m, j] * dt)] with [p] the probability of the
    branch of [j] that ends in [k], summed over the branches that do. *)
Definition mass_sent (pu pm pd : ndarray) (rt Q : ndarray2) (dt : R)
           (jmax m j k : Z) : R :=
  let '(tu, tm, td) := branch_targets jmax j in
  let q := cell Q m (j + jmax) in
  let z := exp (- (cell rt m (j + jmax) * dt)) in
  (if (k =? tu)%Z then q * item pu (j + jmax) * z else 0) +
  (if (k =? tm)%Z then q * item pm (j + jmax) * z else 0) +
  (if (k =? td)%Z then q * item pd (j + jmax) * z else 0).

Lemma mass_sent_rows (pu pm pd : ndarray) (rt rt' Q Q' : ndarray2) (dt : R)
      (jmax m j k : Z) :
  row Q' m = row Q m -> row rt' m = row rt m ->
  mass_sent pu pm pd rt' Q' dt jmax m j k
  = mass_sent pu pm pd rt Q dt jmax m j k.
Proof.
  intros HQ Hrt. unfold mass_sent, cell. now rewrite HQ, Hrt.
Qed.

Lemma eqb_add_r (k t c : Z) : ((k + c =? t + c) = (k =? t))%Z.
Proof.
  destruct (Z.eqb_spec (k + c) (t + c)), (Z.eqb_spec k t); (reflexivity || lia).
Qed.

(** The targets of an occupied node are occupied at the next step, and
    they are three different nodes. *)
Lemma branch_targets_occupied (jmax m j : Z) :
  (0 <= m)%Z -> (1 <= jmax)%Z -> In j (occupied m jmax) ->
  let '(tu, tm, td) := branch_targets jmax j in
  In tu (occupied (m + 1) jmax) /\ In tm (occupied (m + 1) jmax) /\
  In td (occupied (m + 1) jmax) /\ tu <> tm /\ tm <> td /\ tu <> td.
Proof.
  intros Hm Hjmax Hj. apply in_range in Hj. unfold branch_targets, occupied.
  destruct (Z.eqb_spec j jmax) as [E|E];
    [|destruct (Z.eqb_spec j (- jmax)) as [E'|E']];
    rewrite !in_range; lia.
Qed.

(** The loop over the nodes of step [m] (source lines 75 to 91). *)
Lemma propagate_loop_cells (pu pm pd : ndarray) (rt : ndarray2) (dt : R)
      (m jmax : Z) (Q Q' : ndarray2) :
  (0 <= m)%Z -> (1 <= jmax)%Z ->
  Py.for_each (occupied m jmax)
              (propagate_body pu pm pd rt dt m jmax (- jmax) jmax) Q
  = Ok Q' ->
  (forall i, (0 <= i)%Z -> i <> (m + 1)%Z -> row Q' i = row Q i) /\
  forall k, (- jmax <= k <= jmax)%Z ->
    cell Q' (m + 1) (k + jmax) =
    cell Q (m + 1) (k + jmax) +
    Zsum (occupied m jmax) (fun j => mass_sent pu pm pd rt Q dt jmax m j k).
Proof.
  intros Hm Hjmax H.
  pose (Inv := fun (d : list Z) (Qc : ndarray2) =>
    (forall i, (0 <= i)%Z -> i <> (m + 1)%Z -> row Qc i = row Q i) /\
    forall k, (- jmax <= k <= jmax)%Z ->
      cell Qc (m + 1) (k + jmax) =
      cell Q (m + 1) (k + jmax) +
      Zsum d (fun j => mass_sent pu pm pd rt Q dt jmax m j k)).
  enough (HI : Inv ([] ++ occupied m jmax) Q') by exact HI.
  apply for_each_inv
    with (body := propagate_body pu pm pd rt dt m jmax (- jmax) jmax)
         (s := Q); [ | | exact H ].
  { split; [reflexivity|]. intros k Hk. simpl. lra. }
  intros d j rest Q0 Q1 E (I1 & I2) Hb. simpl in E.
  assert (Hj : (- Z.min m jmax <= j < Z.min m jmax + 1)%Z).
  { apply in_range. fold (occupied m jmax). rewrite E.
    apply in_or_app. right. now left. }
  apply propagate_body_sent in Hb; [ | assumption | assumption | lia ].
  destruct Hb as (r & u & mm & w & Hr & Hu & Hmm & Hw & HS).
  apply getitem2_cell in Hr; [ | assumption | lia ]. destruct Hr as [Hr _].
  apply getitem_item in Hu; [ | lia ]. destruct Hu as [Hu _].
  apply getitem_item in Hmm; [ | lia ]. destruct Hmm as [Hmm _].
  apply getitem_item in Hw; [ | lia ]. destruct Hw as [Hw _].
  assert (Hq : cell Q0 m (j + jmax) = cell Q m (j + jmax)).
  { unfold cell. rewrite I1 by lia. reflexivity. }
  unfold mass_sent.
  destruct (branch_targets jmax j) as [[tu tm] td] eqn:Etg.
  destruct HS as [S1 S2 S3 S4 S5 S6]. split.
  - intros i Hi Hne. rewrite S3 by assumption. now apply I1.
  - intros k Hk. rewrite S5 by lia. rewrite Z.eqb_refl, !eqb_add_r.
    rewrite I2 by assumption. rewrite Zsum_app. simpl.
    unfold mass_sent. rewrite Etg. rewrite Hq, Hr, Hu, Hmm, Hw. lra.
Qed.

Lemma setitem2_dims (M M' : ndarray2) (i c : Z) (x : R) :
  (0 <= i)%Z -> (0 <= c)%Z -> setitem2 M i c x = Ok M' ->
  List.length M' = List.length M /\
  forall i', (0 <= i')%Z -> List.length (row M' i') = List.length (row M i').
Proof.
  intros Hi Hc H. apply setitem2_spec in H; [|assumption|assumption].
  destruct H as (Hr & Hw & ->). split.
  - apply update2_length.
  - intros i' Hi'. apply update2_row_length; lia.
Qed.

Lemma rt_loop_dims (alpha : ndarray) (m N : Z) (dR : R) (l : list Z)
      (rt rt' : ndarray2) :
  (0 <= m)%Z -> (forall j, In j l -> (0 <= j + N)%Z) ->
  Py.for_each l (rt_body alpha m N dR) rt = Ok rt' ->
  List.length rt' = List.length rt /\
  forall i, (0 <= i)%Z -> List.length (row rt' i) = List.length (row rt i).
Proof.
  intros Hm Hl H.
  pose (Inv := fun (d : list Z) (rc : ndarray2) =>
                 List.length rc = List.length rt /\
                 forall i, (0 <= i)%Z ->
                   List.length (row rc i) = List.length (row rt i)).
  enough (HI : Inv ([] ++ l) rt') by exact HI.
  apply for_each_inv with (body := rt_body alpha m N dR) (s := rt);
    [ split; auto | | exact H ].
  intros d j rest r0 r1 E [I1 I2] Hb. simpl in E.
  assert (HjN : (0 <= j + N)%Z).
  { apply Hl. rewrite E. apply in_or_app. right. now left. }
  unfold rt_body in Hb. bind_inv Hb as al Hal.
  apply setitem2_dims in Hb; [|assumption|assumption].
  destruct Hb as [D1 D2]. split; [congruence|].
  intros i Hi. rewrite D2 by assumption. now apply I2.
Qed.

(** One pass of the big loop (source lines 61 to 91): what it does to the
    rows of [Q] and [rt]. *)
Lemma step_body_cells (pu pm pd dfs : ndarray) (dR dt : R) (jmax m : Z)
      (Q alpha rt Q' alpha' rt' : _) :
  (0 <= m)%Z -> (1 <= jmax)%Z ->
  step_body pu pm pd dfs dR dt jmax (- jmax) jmax m (Q, alpha, rt)
  = Ok (Q', alpha', rt') ->
  (forall i, (0 <= i)%Z -> i <> (m + 1)%Z -> row Q' i = row Q i) /\
  (forall i, (0 <= i)%Z -> i <> m -> row rt' i = row rt i) /\
  List.length rt' = List.length rt /\
  (forall i, (0 <= i)%Z -> List.length (row rt' i) = List.length (row rt i)) /\
  forall k, (- jmax <= k <= jmax)%Z ->
    cell Q' (m + 1) (k + jmax) =
    cell Q (m + 1) (k + jmax) +
    Zsum (occupied m jmax)
         (fun j => mass_sent pu pm pd rt' Q' dt jmax m j k).
Proof.
  intros Hm Hjmax H. unfold step_body in H.
  assert (Hocc : forall j, In j (occupied m jmax) -> (0 <= j + jmax)%Z).
  { intros j Hj. apply in_range in Hj. lia. }
  fold (occupied m jmax) in H.
  bind_inv H as s Hs. bind_inv H as dfm Hdfm. bind_inv H as ratio Hratio.
  bind_inv H as lr Hlr. bind_inv H as al Hal. bind_inv H as alpha1 Halpha.
  assert (Hget : getitem alpha1 m = Ok al).
  { rewrite (getitem_setitem _ _ _ _ _ Hm Hm Halpha).
    now rewrite Z.eqb_refl. }
  bind_inv H as rt1 Hrt. bind_inv H as Q1 HQ. injection H as <- <- <-.
  pose proof (rt_loop_dims _ _ _ _ _ _ _ Hm Hocc Hrt) as [D1 D2].
  apply (rt_loop _ _ _ _ _ _ _ _ Hm Hocc Hget) in Hrt.
  destruct Hrt as [_ Hr].
  apply propagate_loop_cells in HQ; [ | assumption | assumption ].
  destruct HQ as [P1 P2].
  repeat split; try assumption.
  intros k Hk. rewrite P2 by assumption. f_equal.
  apply Zsum_ext. intros j Hj. symmetry. apply mass_sent_rows; [|reflexivity].
  apply P1; lia.
Qed.

(** What holds of [Q] and [rt] when the big loop is about to run step [m]:
    every row of [Q] filled so far is made of the masses its predecessor
    sent along the branches. *)
Record branch_inv (pu pm pd : ndarray) (dt : R) (jmax n m : Z)
       (Q rt : ndarray2) : Prop := {
  B_rows : List.length rt = Z.to_nat (n + 2);
  B_width : forall i, (0 <= i < n + 2)%Z ->
      List.length (row rt i) = Z.to_nat (2 * jmax + 1);
  B_cells : forall i k, (0 <= i < m)%Z -> (- jmax <= k <= jmax)%Z ->
      cell Q (i + 1) (k + jmax) =
      Zsum (occupied i jmax)
           (fun j => mass_sent pu pm pd rt Q dt jmax i j k)
}.

Lemma step_body_branch (pu pm pd dfs : ndarray) (dR dt : R) (jmax n m : Z)
      (Q alpha rt Q' alpha' rt' : _) :
  (0 <= m <= n)%Z -> (1 <= jmax)%Z ->
  tree_inv dfs dt jmax n m Q rt ->
  branch_inv pu pm pd dt jmax n m Q rt ->
  step_body pu pm pd dfs dR dt jmax (- jmax) jmax m (Q, alpha, rt)
  = Ok (Q', alpha', rt') ->
  branch_inv pu pm pd dt jmax n (m + 1) Q' rt'.
Proof.
  intros Hm Hjmax T [B1 B2 B3] H.
  apply step_body_cells in H; [ | lia | assumption ].
  destruct H as (HQ & Hrt & D1 & D2 & Hnew).
  constructor.
  - congruence.
  - intros i Hi. rewrite D2 by lia. now apply B2.
  - intros i k Hi Hk. destruct (Z.eq_dec i m) as [->|Hne].
    + rewrite Hnew by assumption.
      unfold cell at 1. rewrite (T_zero _ _ _ _ _ _ _ T) by lia.
      unfold item. rewrite nth_repeat_zero. lra.
    + unfold cell at 1. rewrite HQ by lia. fold (cell Q (i + 1) (k + jmax)).
      rewrite B3 by lia. apply Zsum_ext. intros j Hj. symmetry.
      apply mass_sent_rows; [apply HQ | apply Hrt]; lia.
Qed.

Lemma branch_loop (pu pm pd dfs : ndarray) (dR dt : R) (jmax n : Z)
      (Q0 alpha0 rt0 Q alpha rt : _) :
  (0 <= n + 1)%Z -> (1 <= jmax)%Z ->
  (forall j, (- jmax <= j <= jmax)%Z -> probs_sum_to_one pu pm pd (j + jmax)) ->
  tree_inv dfs dt jmax n 0 Q0 rt0 ->
  branch_inv pu pm pd dt jmax n 0 Q0 rt0 ->
  Py.for_each (Py.range 0 (n + 1))
              (step_body pu pm pd dfs dR dt jmax (- jmax) jmax)
              (Q0, alpha0, rt0) = Ok (Q, alpha, rt) ->
  branch_inv pu pm pd dt jmax n (n + 1) Q rt.
Proof.
  intros Hn Hjmax Hprobs T0 B0 H.
  pose (Inv := fun (d : list Z) (st : ndarray2 * ndarray * ndarray2) =>
                 let '(Qc, _, rc) := st in
                 tree_inv dfs dt jmax n (Z.of_nat (List.length d)) Qc rc /\
                 branch_inv pu pm pd dt jmax n (Z.of_nat (List.length d))
                            Qc rc).
  assert (HI : Inv ([] ++ Py.range 0 (n + 1)) (Q, alpha, rt)).
  { apply for_each_inv
      with (body := step_body pu pm pd dfs dR dt jmax (- jmax) jmax)
           (s := (Q0, alpha0, rt0)); [ split; assumption | | exact H ].
    intros d j rest [[Qa ala] rta] [[Qb alb] rtb] E HInv Hb.
    simpl in E. simpl in HInv.
    assert (Ej := range_nth_prefix _ _ _ _ _ E).
    assert (Hj : (0 <= j < n + 1)%Z).
    { apply in_range. rewrite E. apply in_or_app. right. now left. }
    simpl. rewrite length_app. simpl.
    replace (Z.of_nat (List.length d + 1)) with (j + 1)%Z by lia.
    replace (Z.of_nat (List.length d)) with j in HInv by lia.
    destruct HInv as [T B]. split.
    - apply (step_body_inv pu pm pd dfs dR dt jmax n j Qa ala rta Qb alb rtb);
        try assumption. lia.
    - apply (step_body_branch pu pm pd dfs dR dt jmax n j
                              Qa ala rta Qb alb rtb);
        try assumption. lia. }
  simpl in HI. rewrite range_length in HI.
  replace (Z.of_nat (Z.to_nat (n + 1 - 0))) with (n + 1)%Z in HI by lia.
  exact (proj2 HI).
Qed.

Lemma buildTreeFast_branching (a sigma : R) (treeTimes : ndarray) (n : Z)
      (dfs : ndarray) Q pu pm pd rt dt :
  0 < a ->
  buildTreeFast a sigma treeTimes n dfs = Ok (Q, pu, pm, pd, rt, dt) ->
  branch_inv pu pm pd dt (Py.ceil (0.1835 / (a * dt))) n (n + 1) Q rt.
Proof.
  intros Ha H.
  destruct (buildTreeFast_dt_pos _ _ _ _ _ _ _ _ _ _ _ Ha H) as [Hdt Hjmax].
  apply buildTreeFast_Ok in H.
  destruct H as (tM & Q0 & alpha & _ & _ & _ & _ & _ & Hn2 & Hn1 & _
                 & Hp & HQ0 & Hloop).
  eapply branch_loop; [ exact Hn1 | exact Hjmax | | | | exact Hloop ].
  - intros j Hj. eapply prob_loop_spec; [exact Hp | exact Hj].
  - apply tree_inv_init; [lia | exact HQ0].
  - constructor.
    + apply repeat_length.
    + intros i Hi. rewrite row_zeros by lia. apply repeat_length.
    + intros i k Hi. lia.
Qed.

(** C4.  In the lattice that [buildTreeFast] returns (for [a > 0]) the
    Arrow-Debreu prices are those of the propagation along the boundary
    branching pattern.  Row [0] of [Q] holds [1] at the central node and
    [0] elsewhere.  At every step [m] from [0] to [numTimeSteps], every
    occupied node [j] (that is [|j| <= min(m, jmax)]) is read within the
    arrays and has three different targets [(tu, tm, td)], all occupied
    at step [m+1]: [(j, j-1, j-2)] for the top node [j = jmax],
    [(j+2, j+1, j)] for the bottom node [j = -jmax] (so [j], [j+1],
    [j+2] are reached with [pd], [pm], [pu]), and [(j+1, j, j-1)] for an
    interior node.  The entry [Q[m+1, k]] of every node [k] is the sum,
    over the occupied nodes [j] of step [m], of the masses
    [Q[m, j] * pu[j] * exp(-rt[m, j] * dt)] of those with [tu = k],
    [Q[m, j] * pm[j] * exp(-rt[m, j] * dt)] of those with [tm = k] and
    [Q[m, j] * pd[j] * exp(-rt[m, j] * dt)] of those with [td = k], and
    of nothing else. *)
Theorem propagation_branching
        (a sigma : R) (treeTimes : ndarray) (n : Z) (dfs : ndarray)
        Q pu pm pd rt dt :
  0 < a ->
  buildTreeFast a sigma treeTimes n dfs = Ok (Q, pu, pm, pd, rt, dt) ->
  let jmax := Py.ceil (0.1835 / (a * dt)) in
  (forall k, (- jmax <= k <= jmax)%Z ->
     getitem2 Q 0 (k + jmax) = Ok (if (k =? 0)%Z then 1 else 0)) /\
  forall m, (0 <= m <= n)%Z ->
    (forall j, In j (occupied m jmax) ->
       getitem2 Q m (j + jmax) = Ok (cell Q m (j + jmax)) /\
       getitem2 rt m (j + jmax) = Ok (cell rt m (j + jmax)) /\
       getitem pu (j + jmax) = Ok (item pu (j + jmax)) /\
       getitem pm (j + jmax) = Ok (item pm (j + jmax)) /\
       getitem pd (j + jmax) = Ok (item pd (j + jmax)) /\
       let '(tu, tm, td) := branch_targets jmax j in
       In tu (occupied (m + 1) jmax) /\ In tm (occupied (m + 1) jmax) /\
       In td (occupied (m + 1) jmax) /\ tu <> tm /\ tm <> td /\ tu <> td) /\
    (forall k, (- jmax <= k <= jmax)%Z ->
       getitem2 Q (m + 1) (k + jmax) =
       Ok (Zsum (occupied m jmax)
                (fun j => mass_sent pu pm pd rt Q dt jmax m j k))).
Proof.
  intros Ha H jmax.
  destruct (buildTreeFast_dt_pos _ _ _ _ _ _ _ _ _ _ _ Ha H) as [Hdt Hjmax].
  fold jmax in Hjmax.
  assert (T := buildTreeFast_calibrated _ _ _ _ _ _ _ _ _ _ _ Ha H).
  assert (B := buildTreeFast_branching _ _ _ _ _ _ _ _ _ _ _ Ha H).
  fold jmax in T, B.
  assert (Hn : (0 <= n + 1)%Z).
  { apply buildTreeFast_Ok in H.
    destruct H as (tM & Q0 & alpha & _ & _ & _ & _ & _ & _ & Hn1 & _).
    exact Hn1. }
  assert (Hprobs : forall j, (- jmax <= j <= jmax)%Z ->
                             probs_sum_to_one pu pm pd (j + jmax)).
  { apply buildTreeFast_Ok in H.
    destruct H as (tM & Q0 & alpha & _ & _ & _ & _ & _ & _ & _ & _ & Hp & _).
    intros j Hj. exact (prob_loop_spec _ _ _ _ _ _ _ _ _ Hp j Hj). }
  assert (HQ : forall i c, (0 <= i < n + 2)%Z -> (0 <= c <= 2 * jmax)%Z ->
                           getitem2 Q i c = Ok (cell Q i c)).
  { intros i c Hi Hc. apply getitem2_inrange.
    - rewrite (T_rows _ _ _ _ _ _ _ T). lia.
    - rewrite (T_width _ _ _ _ _ _ _ T) by lia. lia. }
  split.
  - intros k Hk. rewrite HQ by lia. f_equal.
    destruct (Z.eqb_spec k 0) as [->|Hne].
    + assert (S := occupied_sum_row dfs dt jmax n (n + 1) 0 Q rt Hjmax
                     ltac:(lia) ltac:(lia) T).
      rewrite (T_sum0 _ _ _ _ _ _ _ T) in S.
      unfold occupied in S. rewrite Z.min_l in S by lia.
      rewrite range_cons, range_empty in S by lia.
      unfold Zsum in S. cbn [fold_right] in S.
      replace (- 0 + jmax)%Z with (0 + jmax)%Z in S by lia. lra.
    + apply (T_support _ _ _ _ _ _ _ T); lia.
  - intros m Hm. split.
    + intros j Hj. assert (Hj' := Hj). apply in_range in Hj'.
      split; [apply HQ; lia|].
      split.
      { apply getitem2_inrange.
        - rewrite (B_rows _ _ _ _ _ _ _ _ _ B). lia.
        - rewrite (B_width _ _ _ _ _ _ _ _ _ B) by lia. lia. }
      destruct (Hprobs j) as (u & mm & w & Hu & Hmm & Hw & _); [lia|].
      rewrite Hu, Hmm, Hw.
      apply getitem_item in Hu; [ | lia ]. destruct Hu as [-> _].
      apply getitem_item in Hmm; [ | lia ]. destruct Hmm as [-> _].
      apply getitem_item in Hw; [ | lia ]. destruct Hw as [-> _].
      do 3 (split; [reflexivity|]).
      apply branch_targets_occupied; [lia | assumption | assumption].
    + intros k Hk. rewrite HQ by lia. f_equal.
      apply (B_cells _ _ _ _ _ _ _ _ _ B); lia.
Qed.

Arguments buildTree {FinDate}.
Arguments buildTree_inputs {FinDate}.
Arguments bondOption {FinDate}.
Arguments bondOption_grids {FinDate}.
Arguments europeanBondOption {FinDate}.
Arguments europeanBondOption_body {FinDate}.
Arguments europeanOptionOnZeroCouponBond_Anal {FinDate}.
Arguments europeanOptionOnZeroCouponBond_Anal_body {FinDate}.
Arguments europeanOptionOnZeroCouponBond_Tree {FinDate}.
Arguments europeanOptionOnZeroCouponBond_Tree_body {FinDate}.
Arguments year_frac {FinDate}.
Arguments _maturityDate {FinDate}.
Arguments _coupon {FinDate}.
Arguments _frequency {FinDate}.
Arguments calculateFlowDates {FinDate}.

Section BuildTree.

Variable FinDate : Type.
Variable date_sub : FinDate -> FinDate -> R.
Variable gDaysInYear : R.

Lemma discountFactors_loop (curve : FinDiscountCurve) (treeTimes : ndarray)
      (l : list Z) (dfs0 dfs : ndarray) :
  (forall i, In i l -> (0 <= i)%Z) ->
  Py.for_each l
    (fun i discountFactors =>
       t <- getitem treeTimes i ;;
       setitem discountFactors i (df curve t))
    dfs0 = Ok dfs ->
  forall i, In i l ->
    exists t, getitem treeTimes i = Ok t /\ getitem dfs i = Ok (df curve t).
Proof.
  intros Hl H.
  pose (Inv := fun (d : list Z) (v : ndarray) =>
                 forall i, In i d -> (0 <= i)%Z ->
                   exists t, getitem treeTimes i = Ok t /\
                             getitem v i = Ok (df curve t)).
  assert (HI : Inv ([] ++ l) dfs).
  { eapply for_each_inv with (s := dfs0); [ intros ? [] | | exact H ].
    intros d j rest v0 v1 E HInv Hb. simpl in E.
    assert (Hj : (0 <= j)%Z).
    { apply Hl. rewrite E. apply in_or_app. right. now left. }
    simpl in Hb. bind_inv Hb as t Ht.
    intros i Hi Hi0.
    rewrite (getitem_setitem _ _ _ _ _ Hj Hi0 Hb).
    destruct (Z.eqb_spec i j) as [->|Hne]; [eauto|].
    apply in_app_or in Hi. destruct Hi as [Hi|[->|[]]]; [|congruence].
    now apply HInv. }
  intros i Hi. apply HI; [exact Hi | now apply Hl].
Qed.

Lemma buildTree_inputs_spec (startDate endDate : FinDate) (n : Z)
      (curve : FinDiscountCurve) (treeTimes dfs : ndarray) :
  buildTree_inputs date_sub gDaysInYear startDate endDate n curve
  = Ok (treeTimes, dfs) ->
  (exists t0, getitem treeTimes 0 = Ok t0 /\ t0 = 0) /\
  forall i, (1 <= i < n + 2)%Z ->
    exists t, getitem treeTimes i = Ok t /\ getitem dfs i = Ok (df curve t).
Proof.
  intros H. unfold buildTree_inputs in H.
  bind_inv H as maturity Hmat. bind_inv H as treeMaturity HtM.
  bind_inv H as tt0 Htt. bind_inv H as d0 Hd0. bind_inv H as d1 Hd1.
  bind_inv H as d2 Hd2. injection H as <- <-.
  apply zeros_Ok in Hd0. destruct Hd0 as [Hn ->].
  assert (Hn' : (0 < n + 2)%Z).
  { apply setitem_nonneg in Hd1; [|lia]. destruct Hd1 as [_ Hlt].
    rewrite repeat_length in Hlt. lia. }
  split.
  - unfold linspace in Htt. destruct (Z.ltb_spec (n + 2) 0); [lia|].
    injection Htt as <-. rewrite range_cons by lia. simpl map.
    eexists. split; [apply getitem_in; [lia | reflexivity]|].
    simpl. lra.
  - intros i Hi.
    apply (discountFactors_loop curve tt0 (Py.range 1 (n + 2)) d1 d2).
    + intros k Hk. apply in_range in Hk. lia.
    + exact Hd2.
    + apply in_range. lia.
Qed.

(** C1.  In a lattice built by [buildTree] with [a > 0] from a discount
    curve (whose discount factor at time zero is one), at every time
    step [m] from [0] to [numTimeSteps + 1] the Arrow-Debreu prices
    [Q[m, j]] summed over the occupied spatial indices [j] give the
    curve's discount factor at [treeTimes[m]]; and at every step [m] up
    to [numTimeSteps] the calibrated rates make the sum over [j] of
    [Q[m, j] * exp(-r[m, j] * dt)] the discount factor at
    [treeTimes[m+1]].  Both hold exactly over the reals. *)
Theorem arrow_debreu_sums_match_curve
        (startDate endDate : FinDate) (n : Z) (curve : FinDiscountCurve)
        (self self' : FinHullWhiteRateModel) :
  0 < _a self ->
  df curve 0 = 1 ->
  buildTree date_sub gDaysInYear startDate endDate n curve self
  = (Ok tt, self') ->
  exists Q rt treeTimes dt,
    _Q self' = Some Q /\ _rt self' = Some rt /\
    _treeTimes self' = Some treeTimes /\ _dt self' = Some dt /\
    _discountCurve self' = Some curve /\ _a self' = _a self /\
    let jmax := Py.ceil (0.1835 / (_a self * dt)) in
    (forall m, (0 <= m <= n + 1)%Z ->
       exists t, getitem treeTimes m = Ok t /\
         Zsum (occupied m jmax) (fun j => cell Q m (j + jmax))
         = df curve t) /\
    (forall m, (0 <= m <= n)%Z ->
       exists t, getitem treeTimes (m + 1) = Ok t /\
         Zsum (occupied m jmax)
              (fun j => cell Q m (j + jmax)
                        * exp (- (cell rt m (j + jmax) * dt)))
         = df curve t).
Proof.
  intros Ha Hdf0 H. unfold buildTree in H.
  destruct (buildTree_inputs date_sub gDaysInYear startDate endDate n curve)
    as [[treeTimes dfs]|e] eqn:Ein; [|discriminate].
  simpl in H.
  destruct (buildTreeFast (_a self) (_sigma self) treeTimes n dfs)
    as [[[[[[Q pu] pm] pd] rt] dt]|e] eqn:Etree; [|discriminate].
  simpl in H. injection H as <-.
  exists Q, rt, treeTimes, dt. simpl. repeat (split; [reflexivity|]).
  destruct (buildTreeFast_dt_pos _ _ _ _ _ _ _ _ _ _ _ Ha Etree)
    as [Hdt Hjmax].
  assert (I := buildTreeFast_calibrated _ _ _ _ _ _ _ _ _ _ _ Ha Etree).
  apply buildTree_inputs_spec in Ein. destruct Ein as [(t0 & Ht0 & E0) Hin].
  split.
  - intros m Hm.
    rewrite (occupied_sum_row dfs dt _ n (n + 1) m Q rt) by
        (try assumption; lia).
    destruct (Z.eq_dec m 0) as [->|Hne].
    + exists t0. split; [assumption|].
      rewrite (T_sum0 _ _ _ _ _ _ _ I), E0. now rewrite Hdf0.
    + destruct (Hin m) as (t & Ht & Hd); [lia|].
      exists t. split; [assumption|].
      assert (Hs := T_sum _ _ _ _ _ _ _ I m ltac:(lia)).
      congruence.
  - intros m Hm.
    destruct (Hin (m + 1)%Z) as (t & Ht & Hd); [lia|].
    exists t. split; [assumption|].
    assert (Hw := T_weighted _ _ _ _ _ _ _ I m ltac:(lia)).
    congruence.
Qed.

End BuildTree.

(** * The backward induction of [bondOption] *)

(** The children the specification names for the node of spatial index
    [k], as array offsets, in the order [vu], [vm], [vd] (top boundary
    [k, k-1, k-2]; bottom boundary [k+2, k+1, k]; interior
    [k+1, k, k-1]). *)
Definition spec_children (jmax k : Z) : Z * Z * Z :=
  let '(cu, cm, cd) := branch_targets jmax k in
  (cu + jmax, cm + jmax, cd + jmax)%Z.

(** The value the specification asks for at node [(m, k)]. *)
Definition spec_rollback (V : ndarray2) (m k jmax : Z) (pu pm pd df : R)
  : result R :=
  let '(cu, cm, cd) := spec_children jmax k in
  vu <- getitem2 V (m+1) cu ;;
  vm <- getitem2 V (m+1) cm ;;
  vd <- getitem2 V (m+1) cd ;;
  Ok ((pu*vu + pm*vm + pd*vd) * df).

(** At the bottom boundary the second test [k == jmax] of the source
    fails like the first, and the [else] branch runs. *)
Lemma rollback_bottom (V : ndarray2) (m jmax : Z) (pu pm pd df : R) :
  (1 <= jmax)%Z ->
  rollback V m (- jmax) (- jmax + jmax) jmax pu pm pd df =
  (vu <- getitem2 V (m+1) 1 ;;
   vm <- getitem2 V (m+1) 0 ;;
   vd <- getitem2 V (m+1) (-1) ;;
   Ok ((pu*vu + pm*vm + pd*vd) * df)).
Proof.
  intros H. unfold rollback.
  destruct (Z.eqb_spec (- jmax) jmax) as [E|E]; [lia|].
  replace (- jmax + jmax)%Z with 0%Z by lia. reflexivity.
Qed.

(** Top boundary and interior nodes are rolled back as specified. *)
Lemma rollback_not_bottom (V : ndarray2) (m k jmax : Z) (pu pm pd df : R) :
  k <> (- jmax)%Z ->
  rollback V m k (k + jmax) jmax pu pm pd df =
  spec_rollback V m k jmax pu pm pd df.
Proof.
  intros H. unfold rollback, spec_rollback, spec_children, branch_targets.
  destruct (Z.eqb_spec k jmax) as [E|E].
  - replace (k + jmax - 1)%Z with (k - 1 + jmax)%Z by lia.
    replace (k + jmax - 2)%Z with (k - 2 + jmax)%Z by lia. reflexivity.
  - destruct (Z.eqb_spec k (- jmax)) as [E'|E']; [contradiction|].
    replace (k + jmax + 1)%Z with (k + 1 + jmax)%Z by lia.
    replace (k + jmax - 1)%Z with (k - 1 + jmax)%Z by lia. reflexivity.
Qed.

(** C2, on the code.  With [jmax = 2], the bottom node [k = -2] of a step
    whose successor holds the values [1, 2, 3, 4, 5] is rolled back from
    the offsets [1], [0] and [-1] (the last column), not from [2], [1]
    and [0] as the branching of the construction has it: the code returns
    [(2 pu + pm + 5 pd) df] where the specified children give
    [(3 pu + 2 pm + pd) df]. *)
Theorem rollback_bottom_boundary_misrouted (pu pm pd df : R) :
  rollback [[0; 0; 0; 0; 0]; [1; 2; 3; 4; 5]] 0 (-2) 0 2 pu pm pd df
  = Ok ((pu * 2 + pm * 1 + pd * 5) * df) /\
  spec_rollback [[0; 0; 0; 0; 0]; [1; 2; 3; 4; 5]] 0 (-2) 2 pu pm pd df
  = Ok ((pu * 3 + pm * 2 + pd * 1) * df) /\
  spec_children 2 (-2) = (2, 1, 0)%Z.
Proof. repeat split. Qed.

(** The two values differ, for instance with equal probabilities. *)
Lemma rollback_bottom_boundary_differs :
  rollback [[0; 0; 0; 0; 0]; [1; 2; 3; 4; 5]] 0 (-2) 0 2 (1/3) (1/3) (1/3) 1
  <> spec_rollback [[0; 0; 0; 0; 0]; [1; 2; 3; 4; 5]] 0 (-2) 2
                   (1/3) (1/3) (1/3) 1.
Proof.
  destruct (rollback_bottom_boundary_misrouted (1/3) (1/3) (1/3) 1)
    as (-> & -> & _).
  intros [= H]. lra.
Qed.

(** The array offsets [rollback] reads at node [k], in the order [vu],
    [vm], [vd]: its three branches with the reads left out. *)
Definition rollback_offsets (k kN jmax : Z) : Z * Z * Z :=
  if (k =? jmax)%Z then (kN, kN - 1, kN - 2)%Z
  else if (k =? jmax)%Z then (kN + 2, kN + 1, kN)%Z
  else (kN + 1, kN, kN - 1)%Z.

Lemma rollback_reads (V : ndarray2) (m k kN jmax : Z) (pu pm pd df : R) :
  rollback V m k kN jmax pu pm pd df =
  (let '(ou, om, od) := rollback_offsets k kN jmax in
   vu <- getitem2 V (m+1) ou ;;
   vm <- getitem2 V (m+1) om ;;
   vd <- getitem2 V (m+1) od ;;
   Ok ((pu*vu + pm*vm + pd*vd) * df)).
Proof.
  unfold rollback, rollback_offsets.
  destruct (k =? jmax)%Z; reflexivity.
Qed.

(** C10, on the code.  At the bottom boundary [k = -jmax], array offset
    [0], the third value is read at offset [-1], below the range
    [0 .. 2 jmax]; numpy takes it from the last column, so that the node
    is rolled back from the value of the top node: here, with [jmax = 2],
    from the [7] stored at offset [4]. *)
Theorem rollback_bottom_reads_below_range :
  rollback_offsets (-2) 0 2 = (1, 0, -1)%Z /\
  rollback [[0; 0; 0; 0; 0]; [0; 0; 0; 0; 7]] 0 (-2) 0 2 0 0 1 1
  = Ok ((0 * 0 + 0 * 0 + 1 * 7) * 1).
Proof. split; reflexivity. Qed.

(** Every other occupied node reads within the range. *)
Lemma rollback_offsets_in_range (m k jmax : Z) :
  (1 <= jmax)%Z -> (- Z.min m jmax <= k <= Z.min m jmax)%Z ->
  k <> (- jmax)%Z ->
  let '(ou, om, od) := rollback_offsets k (k + jmax) jmax in
  (0 <= ou <= 2 * jmax)%Z /\ (0 <= om <= 2 * jmax)%Z /\
  (0 <= od <= 2 * jmax)%Z.
Proof.
  intros Hjmax Hk Hne. unfold rollback_offsets.
  destruct (Z.eqb_spec k jmax); lia.
Qed.

(** * The pricers *)

Lemma if_Rlt_true {A : Type} (a b : R) (x y : A) :
  a < b -> (if Rlt_dec a b then x else y) = x.
Proof. intros H. destruct (Rlt_dec a b); [reflexivity|contradiction]. Qed.

Lemma if_Rlt_false {A : Type} (a b : R) (x y : A) :
  ~ a < b -> (if Rlt_dec a b then x else y) = y.
Proof. intros H. destruct (Rlt_dec a b); [contradiction|reflexivity]. Qed.

Lemma if_Rle_true {A : Type} (a b : R) (x y : A) :
  a <= b -> (if Rle_dec a b then x else y) = x.
Proof. intros H. destruct (Rle_dec a b); [reflexivity|contradiction]. Qed.

Lemma if_Rle_false {A : Type} (a b : R) (x y : A) :
  ~ a <= b -> (if Rle_dec a b then x else y) = y.
Proof. intros H. destruct (Rle_dec a b); [contradiction|reflexivity]. Qed.

Lemma if_Req_false {A : Type} (a b : R) (x y : A) :
  a <> b -> (if Req_dec_T a b then x else y) = y.
Proof. intros H. destruct (Req_dec_T a b); [contradiction|reflexivity]. Qed.

Lemma check_expiry_Ok (texp tmat : R) :
  check_expiry texp tmat = Ok tt -> 0 <= texp <= tmat.
Proof.
  unfold check_expiry.
  destruct (Rlt_dec tmat texp); [discriminate|].
  destruct (Rlt_dec texp 0.0); [discriminate|]. lra.
Qed.

Lemma check_expiry_raises (texp tmat : R) :
  tmat < texp \/ texp < 0 ->
  exists msg, check_expiry texp tmat = Raise (FinError msg).
Proof.
  intros H. unfold check_expiry.
  destruct (Rlt_dec tmat texp); [eauto|].
  destruct (Rlt_dec texp 0.0); [eauto|]. lra.
Qed.

Section Pricers.

Variable FinDate : Type.
Variable date_sub : FinDate -> FinDate -> R.
Variable gDaysInYear : R.
Variable N : R -> R.
Variable uinterpolate : R -> ndarray -> ndarray -> Z -> R.
Variable FLAT_FORWARDS : Z.

(** C7.  Whenever the analytic pricer returns a call and a put price
    (its expiry time [texp] then lies between [0] and the maturity time
    [tmat]), they satisfy put-call parity:
    [call - put = face * df(tmat) - strike * df(texp)], for every
    function [N] with [N(x) + N(-x) = 1]. *)
Theorem put_call_parity
        (settlementDate expiryDate maturityDate : FinDate)
        (strikePrice face : R) (discountCurve : FinDiscountCurve)
        (self self' : FinHullWhiteRateModel) (call put : R) :
  (forall x, N x + N (- x) = 1) ->
  europeanOptionOnZeroCouponBond_Anal date_sub gDaysInYear N
    settlementDate expiryDate maturityDate strikePrice face
    discountCurve self = (Ok (call, put), self') ->
  exists texp tmat,
    year_frac date_sub gDaysInYear expiryDate settlementDate = Ok texp /\
    year_frac date_sub gDaysInYear maturityDate settlementDate = Ok tmat /\
    0 <= texp <= tmat /\
    call - put
    = face * df discountCurve tmat - strikePrice * df discountCurve texp.
Proof.
  intros HN H.
  unfold europeanOptionOnZeroCouponBond_Anal, reading in H.
  injection H as H _.
  unfold europeanOptionOnZeroCouponBond_Anal_body in H.
  bind_inv H as texp Htexp. bind_inv H as tmat Htmat.
  bind_inv H as u Hu. destruct u. apply check_expiry_Ok in Hu.
  bind_inv H as sa Hsa. bind_inv H as y Hy. bind_inv H as s Hs.
  bind_inv H as x Hx. bind_inv H as l Hl. bind_inv H as h0 Hh0.
  injection H as <- <-.
  exists texp, tmat. repeat (split; [assumption || lra|]).
  set (sigmap := sa * (1.0 - exp (- _a self * (tmat - texp))) * s).
  set (h := h0 + sigmap / 2.0).
  assert (E1 : N (- h) = 1 - N h) by (specialize (HN h); lra).
  assert (E2 : N (- h + sigmap) = 1 - N (h - sigmap)).
  { specialize (HN (h - sigmap)).
    replace (- h + sigmap) with (- (h - sigmap)) by ring. lra. }
  rewrite E1, E2. ring.
Qed.

(** C8.  Invalid inputs raise [FinError] and leave everything as it
    was: the constructor under a negative volatility or a negative mean
    reversion speed, so that no instance comes to exist; [bondOption]
    when the expiry time exceeds the maturity time or is negative, with
    the instance unchanged; and [df_Tree], on a built lattice, for a
    time that is further than [1e-6] steps from every multiple of
    [dt], again with the instance unchanged. *)
Theorem invalid_inputs_raise :
  (forall a sigma, sigma < 0 \/ a < 0 ->
     exists msg, init a sigma = Raise (FinError msg)) /\
  (forall settlementDate expiryDate strikePrice face
          (bond : FinBond FinDate) americanExercise self texp tmat,
     year_frac date_sub gDaysInYear expiryDate settlementDate = Ok texp ->
     year_frac date_sub gDaysInYear (_maturityDate bond) settlementDate
     = Ok tmat ->
     tmat < texp \/ texp < 0 ->
     exists msg,
       bondOption date_sub gDaysInYear uinterpolate FLAT_FORWARDS
                  settlementDate expiryDate strikePrice face bond
                  americanExercise self
       = (Raise (FinError msg), self)) /\
  (forall self Q dt tmat,
     _Q self = Some Q -> _dt self = Some dt -> dt <> 0 ->
     (forall k : Z, 1e-6 < Rabs (tmat / dt - IZR k)) ->
     df_Tree tmat self
     = (Raise (FinError "Time not on tree time grid"), self)).
Proof.
  split; [|split].
  - intros a sigma H. unfold init.
    destruct (Rlt_dec sigma 0.0); [eauto|].
    destruct (Rlt_dec a 0.0); [eauto|]. lra.
  - intros sd ed K face bond am self texp tmat Ht Hm H.
    destruct (check_expiry_raises texp tmat H) as [msg Hmsg].
    exists msg. unfold bondOption, bondOption_grids.
    rewrite Ht, Hm. simpl. rewrite Hmsg. reflexivity.
  - intros self Q dt tmat HQ Hdt Hdt0 H.
    unfold df_Tree, reading. f_equal. unfold df_Tree_body.
    assert (Ht : tmat <> 0.0).
    { intros ->. specialize (H 0%Z). unfold Rdiv in H.
      replace (0.0 * / dt - 0) with 0 in H by lra.
      rewrite Rabs_R0 in H. lra. }
    rewrite (if_Req_false _ _ _ _ Ht), HQ, Hdt. simpl.
    rewrite (div_nonzero _ _ Hdt0). simpl.
    now rewrite if_Rlt_true by apply H.
Qed.

(** C9.  No pricer touches the lattice: whatever it is called with, and
    whether it returns or raises, the fields [_Q], [_rt], [_pu], [_pm],
    [_pd], [_dt], [_treeTimes] and [_discountCurve] of the instance it
    leaves behind are those of the instance it was called on. *)
Theorem pricers_leave_lattice_unchanged
        (settlementDate expiryDate maturityDate : FinDate)
        (strikePrice face tmat : R) (bond : FinBond FinDate)
        (americanExercise : bool) (discountCurve : FinDiscountCurve)
        (self : FinHullWhiteRateModel) :
  lattice_fields
    (snd (europeanBondOption date_sub gDaysInYear settlementDate
            expiryDate strikePrice face bond self))
  = lattice_fields self /\
  lattice_fields
    (snd (europeanOptionOnZeroCouponBond_Tree date_sub gDaysInYear
            settlementDate expiryDate maturityDate strikePrice face self))
  = lattice_fields self /\
  lattice_fields
    (snd (bondOption date_sub gDaysInYear uinterpolate FLAT_FORWARDS
            settlementDate expiryDate strikePrice face bond
            americanExercise self))
  = lattice_fields self /\
  lattice_fields (snd (df_Tree tmat self)) = lattice_fields self /\
  lattice_fields
    (snd (europeanOptionOnZeroCouponBond_Anal date_sub gDaysInYear N
            settlementDate expiryDate maturityDate strikePrice face
            discountCurve self))
  = lattice_fields self.
Proof.
  repeat split.
  unfold bondOption.
  destruct (bondOption_grids _ _ _ _ _ _ _ _ _ _ _)
    as [[[ov bv] N0]|e]; reflexivity.
Qed.

End Pricers.

(** * Reading discount factors back *)

Lemma nth_error_range (lo hi : Z) (k : nat) :
  (Z.of_nat k < hi - lo)%Z ->
  nth_error (Py.range lo hi) k = Some (lo + Z.of_nat k)%Z.
Proof.
  intros H. unfold Py.range. rewrite nth_error_map.
  rewrite (nth_error_nth' _ O) by (rewrite length_seq; lia).
  rewrite seq_nth by lia. reflexivity.
Qed.

Lemma getitem_map_range {A : Type} (f : Z -> A) (hi i : Z) :
  (0 <= i < hi)%Z -> getitem (map f (Py.range 0 hi)) i = Ok (f i).
Proof.
  intros H. apply getitem_in; [lia|].
  rewrite nth_error_map, nth_error_range by lia.
  simpl. f_equal. f_equal. lia.
Qed.

Lemma getitem_map_range_last {A : Type} (f : Z -> A) (hi : Z) :
  (0 < hi)%Z -> getitem (map f (Py.range 0 hi)) (-1) = Ok (f (hi - 1)%Z).
Proof.
  intros H. unfold getitem.
  rewrite norm_index_neg
    by (rewrite length_map, range_length; lia).
  cbn [bind]. rewrite length_map, range_length.
  rewrite nth_error_map, nth_error_range by lia.
  cbn [option_map]. f_equal. f_equal. lia.
Qed.

Lemma sum_row_loop (Q : ndarray2) (ts : Z) (l : list Z) :
  forall acc,
    (0 <= ts < Z.of_nat (List.length Q))%Z ->
    (forall i, In i l -> (0 <= i < Z.of_nat (List.length (row Q ts)))%Z) ->
    Py.for_each l (fun i p => ad <- getitem2 Q ts i ;; Ok (p + ad)) acc
    = Ok (acc + Zsum l (cell Q ts)).
Proof.
  induction l as [|i l IH]; intros acc Hts Hl; simpl.
  - f_equal. lra.
  - rewrite getitem2_inrange; [ | assumption | apply Hl; now left ].
    simpl. rewrite IH; [ | assumption | intros j Hj; apply Hl; now right ].
    f_equal. lra.
Qed.

Lemma int_IZR (k : Z) : (0 <= k)%Z -> Py.int (IZR k) = k.
Proof.
  intros H. unfold Py.int.
  rewrite if_Rle_true by (apply IZR_le; assumption). apply ZfloorZ.
Qed.

Section ReadBack.

Variable FinDate : Type.
Variable date_sub : FinDate -> FinDate -> R.
Variable gDaysInYear : R.

(** The time grid of a built lattice. *)
Lemma buildTree_grid (startDate endDate : FinDate) (n : Z)
      (curve : FinDiscountCurve) (self self' : FinHullWhiteRateModel) :
  buildTree date_sub gDaysInYear startDate endDate n curve self
  = (Ok tt, self') ->
  exists Q pu pm pd rt dt treeTimes dfs,
    buildTree_inputs date_sub gDaysInYear startDate endDate n curve
    = Ok (treeTimes, dfs) /\
    buildTreeFast (_a self) (_sigma self) treeTimes n dfs
    = Ok (Q, pu, pm, pd, rt, dt) /\
    _Q self' = Some Q /\ _dt self' = Some dt /\
    _treeTimes self' = Some treeTimes /\
    (0 <= n + 1)%Z /\ dt <> 0 /\
    forall i, (0 <= i <= n + 1)%Z -> getitem treeTimes i = Ok (IZR i * dt).
Proof.
  intros H. unfold buildTree in H.
  destruct (buildTree_inputs date_sub gDaysInYear startDate endDate n curve)
    as [[treeTimes dfs]|e] eqn:Ein; [|discriminate].
  simpl in H.
  destruct (buildTreeFast (_a self) (_sigma self) treeTimes n dfs)
    as [[[[[[Q pu] pm] pd] rt] dt]|e] eqn:Etree; [|discriminate].
  simpl in H. injection H as <-.
  exists Q, pu, pm, pd, rt, dt, treeTimes, dfs. simpl.
  do 5 (split; [first [reflexivity | exact Ein | exact Etree]|]).
  pose proof Etree as HOk. apply buildTreeFast_Ok in HOk.
  destruct HOk as (tM & Q0 & alpha & HtM & Hn1 & Hdt & _ & Hadt & _ & Hn & _).
  unfold buildTree_inputs in Ein.
  bind_inv Ein as maturity Hmat. bind_inv Ein as treeMaturity HtM'.
  bind_inv Ein as tt0 Htt. bind_inv Ein as d0 Hd0.
  bind_inv Ein as d1 Hd1. bind_inv Ein as d2 Hd2.
  injection Ein as <- <-.
  unfold linspace in Htt. destruct (Z.ltb_spec (n + 2) 0); [discriminate|].
  injection Htt as <-.
  rewrite getitem_map_range_last in HtM by lia. injection HtM as <-.
  replace (n + 2 - 1)%Z with (n + 1)%Z in * by lia.
  assert (Hdt0 : dt <> 0).
  { intros E0. apply Hadt. rewrite E0. ring. }
  split; [assumption|]. split; [assumption|].
  intros i Hi. rewrite getitem_map_range by lia. f_equal.
  rewrite Hdt. replace 0.0 with 0 by lra. field. assumption.
Qed.

(** On a built lattice, [df_Tree] at the [k]-th grid time sums the row
    [k + 1] of [Q], and so returns the curve's discount factor one time
    step later. *)
Lemma df_Tree_next_step (startDate endDate : FinDate) (n k : Z)
      (curve : FinDiscountCurve) (self self' : FinHullWhiteRateModel)
      (dt : R) :
  0 < _a self ->
  buildTree date_sub gDaysInYear startDate endDate n curve self
  = (Ok tt, self') ->
  _dt self' = Some dt ->
  (1 <= k <= n)%Z ->
  0 < df curve (IZR k * dt + dt) ->
  df_Tree (IZR k * dt) self'
  = (Ok (DfPair (df curve (IZR k * dt + dt))
                (- ln (df curve (IZR k * dt + dt)) / (IZR k * dt))),
     self').
Proof.
  intros Ha H Hdt Hk Hpos.
  destruct (buildTree_grid _ _ _ _ _ _ H)
    as (Q & pu & pm & pd & rt & dt' & treeTimes & dfs & Ein & Etree
        & HQ & Hdt' & Htt & Hn & Hdt0 & Hgrid).
  assert (dt' = dt) by congruence. subst dt'.
  destruct (buildTreeFast_dt_pos _ _ _ _ _ _ _ _ _ _ _ Ha Etree)
    as [Hdtpos Hjmax].
  assert (I := buildTreeFast_calibrated _ _ _ _ _ _ _ _ _ _ _ Ha Etree).
  apply buildTree_inputs_spec in Ein. destruct Ein as [_ Hin].
  destruct (Hin (k + 1)%Z) as (t & Ht & Hd); [lia|].
  rewrite Hgrid in Ht by lia. injection Ht as <-.
  assert (Hs := T_sum _ _ _ _ _ _ _ I (k + 1)%Z ltac:(lia)).
  rewrite Hd in Hs. injection Hs as Hs.
  replace (IZR (k + 1) * dt) with (IZR k * dt + dt) in Hs
    by (rewrite plus_IZR; ring).
  unfold df_Tree, reading. f_equal. unfold df_Tree_body.
  assert (Hk0 : 0 < IZR k) by (apply IZR_lt; lia).
  assert (Ht0 : IZR k * dt <> 0.0).
  { replace 0.0 with 0 by lra. nra. }
  rewrite (if_Req_false _ _ _ _ Ht0), HQ, Hdt. simpl.
  rewrite (div_nonzero _ _ Hdt0). simpl.
  replace (IZR k * dt / dt) with (IZR k) by (field; assumption).
  rewrite int_IZR by lia.
  rewrite if_Rlt_false
    by (replace (IZR k - IZR k) with 0 by ring; rewrite Rabs_R0; lra).
  assert (Hhd : hd [] Q = row Q 0) by (unfold row; now destruct Q).
  rewrite Hhd, (T_width _ _ _ _ _ _ _ I) by lia.
  rewrite sum_row_loop.
  - rewrite <- (T_width _ _ _ _ _ _ _ I (k + 1)%Z) by lia.
    fold (item (row Q (k + 1))).
    replace (cell Q (k + 1)) with (item (row Q (k + 1))) by reflexivity.
    rewrite <- Rsum_Zsum, <- Hs. simpl.
    replace (0.0 + df curve (IZR k * dt + dt))
      with (df curve (IZR k * dt + dt)) by lra.
    rewrite (log_pos _ Hpos). simpl.
    rewrite div_nonzero by lra. reflexivity.
  - rewrite (T_rows _ _ _ _ _ _ _ I). lia.
  - intros i Hi. apply in_range in Hi.
    rewrite (T_width _ _ _ _ _ _ _ I) by lia. lia.
Qed.

End ReadBack.

(** * Running the model on given inputs *)

Lemma Rltb_true (a b : R) : a < b -> Rltb a b = true.
Proof. intros H. unfold Rltb. now rewrite if_Rlt_true. Qed.

Lemma Rltb_false (a b : R) : ~ a < b -> Rltb a b = false.
Proof. intros H. unfold Rltb. now rewrite if_Rlt_false. Qed.

Lemma exp_neg_lt_1 (x : R) : 0 < x -> 0 < exp (- x) < 1.
Proof.
  intros H. split; [apply exp_pos|].
  rewrite <- exp_0. apply exp_increasing. lra.
Qed.

(** The computation a chain of [bind]s starts with. *)
Ltac head c :=
  lazymatch c with
  | bind ?c' _ => head c'
  | _ => c
  end.

(** Fails on a term that holds a test or a rounding of real numbers,
    which evaluation cannot decide. *)
Ltac no_stuck c :=
  lazymatch c with
  | context [Py.ceil _] => fail "ceil"
  | context [Py.int _] => fail "int"
  | context [Py.round _] => fail "round"
  | context [Rlt_dec _ _] => fail "Rlt_dec"
  | context [Rle_dec _ _] => fail "Rle_dec"
  | context [Req_dec_T _ _] => fail "Req_dec_T"
  | context [Rltb _ _] => fail "Rltb"
  | context [Rleb _ _] => fail "Rleb"
  | context [Rmax _ _] => fail "Rmax"
  | _ => idtac
  end.

(** Evaluates the list and integer part of [c]. *)
Ltac pure_eval c :=
  no_stuck c;
  let v := eval cbv -[Rplus Rminus Rmult Rdiv Rinv Ropp IZR exp ln sqrt
                      R_sqrt.sqrt Rabs Rmax Rmin pow
                      Py.div Py.log Py.sqrt Py.ceil Py.int Py.round
                      Rlt_dec Rle_dec Req_dec_T Rltb Rleb
                      bind Py.for_each prob_body step_body sumQZ_body
                      rt_body propagate_body add_mass P
                      treeFlows_body accrued_body accrued_scan
                      expiry_flow_body expiry_bond_body expiry_option_body
                      rollback rollback_node_body rollback_step_body] in c in
  progress change c with v.

(** The function a computation applies. *)
Ltac app_head t :=
  lazymatch t with
  | ?f _ => app_head f
  | _ => t
  end.

(** The functions of the model a run opens on its way. *)
Ltac opens h :=
  lazymatch h with
  | prob_body => idtac
  | sumQZ_body => idtac
  | rt_body => idtac
  | propagate_body => idtac
  | add_mass => idtac
  | treeFlows_body => idtac
  | accrued_body => idtac
  | expiry_flow_body => idtac
  | expiry_bond_body => idtac
  | expiry_option_body => idtac
  | rollback => idtac
  | rollback_node_body => idtac
  | _ => fail "not opened"
  end.

(** Settles one maximum of [c] whose arguments [lra] can compare. *)
Ltac rmax_in c :=
  match c with
  | context [Rmax ?a ?b] =>
    first [ rewrite (Rmax_left a b) by lra
          | rewrite (Rmax_right a b) by lra ]
  end.

Ltac unfold_head :=
  lazymatch goal with
  | |- ?lhs = _ =>
    let c := head lhs in
    lazymatch c with
    | Ok _ => cbn [bind]
    | Py.div ?x ?y => rewrite (div_nonzero x y)
    | Py.log ?x => rewrite (log_pos x)
    | Py.sqrt ?x => rewrite (sqrt_nonneg x)
    | Py.for_each (_ :: _) _ _ => cbn [Py.for_each]
    | Py.for_each [] _ _ => cbn [Py.for_each]
    | accrued_scan _ _ _ _ _ (_ :: _) _ => cbn [accrued_scan]
    | accrued_scan _ _ _ _ _ [] _ => cbn [accrued_scan]
    | context [Rlt_dec ?a ?b] =>
      first [ rewrite (if_Rlt_true a b) by lra
            | rewrite (if_Rlt_false a b) by lra ]
    | context [Rle_dec ?a ?b] =>
      first [ rewrite (if_Rle_true a b) by lra
            | rewrite (if_Rle_false a b) by lra ]
    | context [Req_dec_T ?a ?b] => rewrite (if_Req_false a b) by lra
    | context [Rltb ?a ?b] =>
      first [ rewrite (Rltb_true a b) by lra
            | rewrite (Rltb_false a b) by lra ]
    | context [Rmax _ _] => rmax_in c
    | match ?x with _ => _ end => cbn beta iota
    | _ => let h := app_head c in opens h; unfold h at 1
    end
  end.

(** One step of the run: evaluate the head computation, or open it. *)
Ltac step :=
  lazymatch goal with
  | |- ?lhs = _ =>
    let c := head lhs in first [ pure_eval c | unfold_head ]
  end.

(** As many steps as go through with side conditions [lra] settles. *)
Ltac steps := repeat (step; [ | lra .. ]).

(** Equality of results, component by component. *)
Ltac req :=
  lazymatch goal with
  | |- Ok _ = Ok _ => apply f_equal; req
  | |- (_, _) = (_, _) => apply f_equal2; req
  | |- _ :: _ = _ :: _ => apply f_equal2; req
  | |- @eq R _ _ => try reflexivity; try lra
  | |- _ => try reflexivity
  end.

Lemma Rdiv_one (x : R) : x / 1 = x.
Proof. field. Qed.

Lemma exp_opp_ln (x : R) : 0 < x -> exp (- ln x) = / x.
Proof. intros H. rewrite exp_Ropp, exp_ln by assumption. reflexivity. Qed.

Ltac rsimp :=
  repeat first
    [ rewrite Rmult_0_l | rewrite Rmult_0_r | rewrite Rplus_0_l
    | rewrite Rplus_0_r | rewrite Rmult_1_l | rewrite Rmult_1_r
    | rewrite Ropp_0 | rewrite exp_0 | rewrite ln_1
    | rewrite Rdiv_one | rewrite Rminus_0_r ].

Ltac ceil_is n :=
  match goal with
  | |- context [Py.ceil ?x] =>
    replace (Py.ceil x) with n
      by (symmetry; unfold Py.ceil; apply Zceil_eq; simpl; lra)
  end.

(** ** A two-step lattice *)

(** Dates as day numbers. *)
Definition days (d1 d0 : Z) : R := IZR (d1 - d0).

Definition curve_ex : FinDiscountCurve :=
  {| _times := [0; 1; 2]; _values := [1; 1/2; 1/3];
     df := fun t => 1 / (1 + t) |}.

Definition model_ex : FinHullWhiteRateModel :=
  {| _a := 1; _sigma := 0;
     _Q := None; _r := None; _treeTimes := None;
     _pu := None; _pm := None; _pd := None;
     _discountCurve := None;
     _rt := None; _dt := None;
     _bondValues := None; _optionValues := None |}.

(** The lattice over one year in one time step: [dt = 1], [jmax = 1]. *)
Definition lattice_ex : FinHullWhiteRateModel :=
  snd (buildTree days 365 0%Z 365%Z 1 curve_ex model_ex).

Lemma init_ex : init 1 0 = Ok model_ex.
Proof.
  unfold init. rewrite !if_Rlt_false by lra. reflexivity.
Qed.

Lemma buildTree_inputs_ex :
  buildTree_inputs days 365 0%Z 365%Z 1 curve_ex
  = Ok ([0; 1; 2], [1; 1/2; 1/3]).
Proof.
  unfold buildTree_inputs, year_frac, days. steps. req; field.
Qed.

(** Runs as far as evaluation and [lra] get, clearing the real-number
    terms of zeros, ones and [exp (- ln _)] on the way. *)
Ltac run :=
  repeat (progress (steps; rsimp; try (rewrite !exp_opp_ln by lra))).

Lemma buildTreeFast_ex :
  buildTreeFast 1 0 [0; 1; 2] 1 [1; 1/2; 1/3]
  = Ok ([[0; 1; 0]; [1/12; 1/3; 1/12]; [1/18; 2/9; 1/18]],
        [1/6; 1/6; 1/6], [2/3; 2/3; 2/3], [1/6; 1/6; 1/6],
        [[0; ln 2; 0]; [ln (3/2); ln (3/2); ln (3/2)]; [0; 0; 0]],
        1).
Proof.
  unfold buildTreeFast. run.
  replace (2 / 2) with 1 by lra. run. ceil_is 1%Z. run.
  unfold step_body at 1. run. unfold step_body at 1. run.
  req; f_equal; lra.
Qed.

Lemma buildTree_ex :
  buildTree days 365 0%Z 365%Z 1 curve_ex model_ex = (Ok tt, lattice_ex).
Proof.
  assert (H : fst (buildTree days 365 0%Z 365%Z 1 curve_ex model_ex) = Ok tt).
  { unfold buildTree. rewrite buildTree_inputs_ex. cbn [bind].
    change (_a model_ex) with 1. change (_sigma model_ex) with 0.
    rewrite buildTreeFast_ex. reflexivity. }
  unfold lattice_ex.
  destruct (buildTree days 365 0%Z 365%Z 1 curve_ex model_ex) as [r s].
  simpl in *. now subst.
Qed.

Lemma lattice_ex_fields :
  _Q lattice_ex = Some [[0; 1; 0]; [1/12; 1/3; 1/12]; [1/18; 2/9; 1/18]] /\
  _dt lattice_ex = Some 1 /\ _a lattice_ex = 1.
Proof.
  unfold lattice_ex, buildTree. rewrite buildTree_inputs_ex. cbn [bind].
  change (_a model_ex) with 1. change (_sigma model_ex) with 0.
  rewrite buildTreeFast_ex. repeat split.
Qed.

Lemma arrow_debreu_sums_match_curve_witness :
  exists Q rt treeTimes dt,
    _Q lattice_ex = Some Q /\ _rt lattice_ex = Some rt /\
    _treeTimes lattice_ex = Some treeTimes /\ _dt lattice_ex = Some dt /\
    _discountCurve lattice_ex = Some curve_ex /\
    _a lattice_ex = _a model_ex /\
    let jmax := Py.ceil (0.1835 / (_a model_ex * dt)) in
    (forall m, (0 <= m <= 1 + 1)%Z ->
       exists t, getitem treeTimes m = Ok t /\
         Zsum (occupied m jmax) (fun j => cell Q m (j + jmax))
         = df curve_ex t) /\
    (forall m, (0 <= m <= 1)%Z ->
       exists t, getitem treeTimes (m + 1) = Ok t /\
         Zsum (occupied m jmax)
              (fun j => cell Q m (j + jmax)
                        * exp (- (cell rt m (j + jmax) * dt)))
         = df curve_ex t).
Proof.
  apply (arrow_debreu_sums_match_curve Z days 365 0%Z 365%Z 1 curve_ex
                                       model_ex lattice_ex).
  - simpl. lra.
  - simpl. lra.
  - exact buildTree_ex.
Defined.

Lemma probabilities_sum_to_one_witness :
  0 < 1 /\
  forall j : Z,
    (- Py.ceil (0.1835 / (1 * 1)) <= j <= Py.ceil (0.1835 / (1 * 1)))%Z ->
    exists u m d,
      getitem [1/6; 1/6; 1/6] (j + Py.ceil (0.1835 / (1 * 1))) = Ok u /\
      getitem [2/3; 2/3; 2/3] (j + Py.ceil (0.1835 / (1 * 1))) = Ok m /\
      getitem [1/6; 1/6; 1/6] (j + Py.ceil (0.1835 / (1 * 1))) = Ok d /\
      u + m + d = 1.
Proof.
  apply (probabilities_sum_to_one 1 0 [0; 1; 2] 1 [1; 1/2; 1/3]
           [[0; 1; 0]; [1/12; 1/3; 1/12]; [1/18; 2/9; 1/18]]
           [1/6; 1/6; 1/6] [2/3; 2/3; 2/3] [1/6; 1/6; 1/6]
           [[0; ln 2; 0]; [ln (3/2); ln (3/2); ln (3/2)]; [0; 0; 0]] 1).
  - lra.
  - exact buildTreeFast_ex.
Defined.

(** The lattice above has the nodes [-1], [0] and [1] at step [1]: the
    bottom node, an interior node and the top node. *)
Lemma propagation_branching_witness :
  0 < 1 /\
  let Q := [[0; 1; 0]; [1/12; 1/3; 1/12]; [1/18; 2/9; 1/18]] in
  let pu := [1/6; 1/6; 1/6] in
  let pm := [2/3; 2/3; 2/3] in
  let pd := [1/6; 1/6; 1/6] in
  let rt := [[0; ln 2; 0]; [ln (3/2); ln (3/2); ln (3/2)]; [0; 0; 0]] in
  let jmax := Py.ceil (0.1835 / (1 * 1)) in
  (forall k, (- jmax <= k <= jmax)%Z ->
     getitem2 Q 0 (k + jmax) = Ok (if (k =? 0)%Z then 1 else 0)) /\
  forall m, (0 <= m <= 1)%Z ->
    (forall j, In j (occupied m jmax) ->
       getitem2 Q m (j + jmax) = Ok (cell Q m (j + jmax)) /\
       getitem2 rt m (j + jmax) = Ok (cell rt m (j + jmax)) /\
       getitem pu (j + jmax) = Ok (item pu (j + jmax)) /\
       getitem pm (j + jmax) = Ok (item pm (j + jmax)) /\
       getitem pd (j + jmax) = Ok (item pd (j + jmax)) /\
       let '(tu, tm, td) := branch_targets jmax j in
       In tu (occupied (m + 1) jmax) /\ In tm (occupied (m + 1) jmax) /\
       In td (occupied (m + 1) jmax) /\ tu <> tm /\ tm <> td /\ tu <> td) /\
    (forall k, (- jmax <= k <= jmax)%Z ->
       getitem2 Q (m + 1) (k + jmax) =
       Ok (Zsum (occupied m jmax)
                (fun j => mass_sent pu pm pd rt Q 1 jmax m j k))).
Proof.
  split; [lra|].
  apply (propagation_branching 1 0 [0; 1; 2] 1 [1; 1/2; 1/3]
           [[0; 1; 0]; [1/12; 1/3; 1/12]; [1/18; 2/9; 1/18]]
           [1/6; 1/6; 1/6] [2/3; 2/3; 2/3] [1/6; 1/6; 1/6]
           [[0; ln 2; 0]; [ln (3/2); ln (3/2); ln (3/2)]; [0; 0; 0]] 1).
  - lra.
  - exact buildTreeFast_ex.
Defined.

(** C6, on the code.  On the lattice built above ([dt = 1], curve
    [df(t) = 1 / (1 + t)]), [df_Tree(1.0)] sums the row [2] of [Q], not
    the row [1] of the step that time [1] lies on: it returns the discount
    factor [1/3] of time [2] (with the zero rate [-ln(1/3) / 1]), where
    the curve and the Arrow-Debreu prices of step [1] give [1/2] for time
    [1].  [df_Tree(0.0)] returns the bare float [1.0]. *)
Theorem df_Tree_reads_next_row :
  df_Tree 1 lattice_ex = (Ok (DfPair (1/3) (- ln (1/3) / 1)), lattice_ex) /\
  df curve_ex 1 = 1/2 /\
  (exists Q, _Q lattice_ex = Some Q /\ Rsum (row Q 1) = 1/2 /\
             Rsum (row Q 2) = 1/3) /\
  df_Tree 0.0 lattice_ex = (Ok (DfOne 1.0), lattice_ex).
Proof.
  destruct lattice_ex_fields as (HQ & Hdt & Ha).
  split; [|split; [|split]].
  - assert (H := df_Tree_next_step Z days 365 0%Z 365%Z 1 1 curve_ex
                   model_ex lattice_ex 1).
    replace (IZR 1 * 1) with 1 in H by lra.
    replace (df curve_ex (1 + 1)) with (1/3) in H by (simpl; lra).
    apply H.
    + simpl. lra.
    + exact buildTree_ex.
    + exact Hdt.
    + lia.
    + lra.
  - simpl. lra.
  - eexists. split; [exact HQ|]. unfold row, Rsum. simpl. split; lra.
  - unfold df_Tree, reading, df_Tree_body.
    destruct (Req_dec_T 0.0 0.0) as [_|Hne]; [reflexivity|].
    now contradiction Hne.
Qed.

(** ** The analytic pricer on given inputs *)

Definition model_an : FinHullWhiteRateModel :=
  {| _a := 1; _sigma := 1;
     _Q := None; _r := None; _treeTimes := None;
     _pu := None; _pm := None; _pd := None;
     _discountCurve := None;
     _rt := None; _dt := None;
     _bondValues := None; _optionValues := None |}.

(** Expiry in one year, maturity in two, strike and face one. *)
Lemma anal_ex_runs :
  exists call put,
    europeanOptionOnZeroCouponBond_Anal days 365 (fun _ => 1/2)
      0%Z 365%Z 730%Z 1 1 curve_ex model_an = (Ok (call, put), model_an).
Proof.
  unfold europeanOptionOnZeroCouponBond_Anal, reading.
  unfold europeanOptionOnZeroCouponBond_Anal_body, year_frac, days.
  do 2 eexists. f_equal.
  run.
  replace (-20 * / 10 * (365 / 365)) with (- (2)) by lra.
  pose proof (exp_neg_lt_1 2 ltac:(lra)) as E2.
  run.
  change (_a model_an) with 1.
  replace (- (1) * (730 / 365 - 365 / 365)) with (- (1)) by lra.
  pose proof (exp_neg_lt_1 1 ltac:(lra)) as E1.
  assert (Hs : 0 < sqrt ((10 * / 10 - exp (- (2))) / (20 * / 10))).
  { apply sqrt_lt_R0. lra. }
  step.
  - reflexivity.
  - apply Rmult_integral_contrapositive_currified; lra.
Qed.

Lemma put_call_parity_witness :
  exists call put texp tmat,
    (forall x : R, 1/2 + 1/2 = 1) /\
    europeanOptionOnZeroCouponBond_Anal days 365 (fun _ => 1/2)
      0%Z 365%Z 730%Z 1 1 curve_ex model_an = (Ok (call, put), model_an) /\
    year_frac days 365 365%Z 0%Z = Ok texp /\
    year_frac days 365 730%Z 0%Z = Ok tmat /\
    0 <= texp <= tmat /\
    call - put = 1 * df curve_ex tmat - 1 * df curve_ex texp.
Proof.
  destruct anal_ex_runs as (call & put & H).
  assert (HN : forall x : R, 1/2 + 1/2 = 1) by (intros _; lra).
  destruct (put_call_parity Z days 365 (fun _ => 1/2) 0%Z 365%Z 730%Z 1 1
                            curve_ex model_an model_an call put HN H)
    as (texp & tmat & H1 & H2 & H3 & H4).
  exists call, put, texp, tmat. repeat split; try assumption; apply H3.
Defined.

(** ** Invalid inputs *)

Definition bond_ex : FinBond Z :=
  {| _maturityDate := 365%Z; _coupon := 0; _frequency := 1;
     calculateFlowDates := fun _ => [0%Z; 365%Z] |}.

Lemma half_off_grid (k : Z) : 1e-6 < Rabs (1/2 / 1 - IZR k).
Proof.
  destruct (Z_le_gt_dec k 0) as [Hk|Hk].
  - apply IZR_le in Hk. rewrite Rabs_right; lra.
  - assert (Hk' : (1 <= k)%Z) by lia. apply IZR_le in Hk'.
    rewrite Rabs_left; lra.
Qed.

Lemma invalid_inputs_raise_witness :
  (exists msg, init 1 (-1) = Raise (FinError msg)) /\
  (exists msg,
     bondOption days 365 (fun _ _ _ _ => 1) 0%Z 0%Z 730%Z 1 1 bond_ex true
                lattice_ex
     = (Raise (FinError msg), lattice_ex)) /\
  df_Tree (1/2) lattice_ex
  = (Raise (FinError "Time not on tree time grid"), lattice_ex).
Proof.
  destruct (invalid_inputs_raise Z days 365 (fun _ _ _ _ => 1) 0%Z)
    as (H1 & H2 & H3).
  destruct lattice_ex_fields as (HQ & Hdt & _).
  split; [|split].
  - apply H1. left. lra.
  - apply (H2 0%Z 730%Z 1 1 bond_ex true lattice_ex (IZR (730 - 0) / 365)
              (IZR (365 - 0) / 365)).
    + unfold year_frac, days. apply div_nonzero. lra.
    + unfold year_frac, days. apply div_nonzero. lra.
    + left. simpl. lra.
  - apply (H3 lattice_ex _ 1 (1/2) HQ Hdt).
    + lra.
    + exact half_off_grid.
Defined.

(** * American against European exercise *)

(** [follows R x y]: whenever the computation [y] returns, [x] returns
    too, and the two values are related by [R]. *)
Definition follows {A B : Type} (R : A -> B -> Prop)
           (x : result A) (y : result B) : Prop :=
  forall b, y = Ok b -> exists a, x = Ok a /\ R a b.

Lemma follows_bind {A B A' B' : Type} (R : A -> B -> Prop)
      (S : A' -> B' -> Prop) (x : result A) (y : result B)
      (f : A -> result A') (g : B -> result B') :
  follows R x y -> (forall a b, R a b -> follows S (f a) (g b)) ->
  follows S (bind x f) (bind y g).
Proof.
  intros Hxy Hfg b' H. destruct y as [b|e]; [|discriminate].
  destruct (Hxy b eq_refl) as (a & -> & Hab). simpl in *.
  exact (Hfg a b Hab b' H).
Qed.

Lemma follows_same {A A' B' : Type} (S : A' -> B' -> Prop) (c : result A)
      (f : A -> result A') (g : A -> result B') :
  (forall a, follows S (f a) (g a)) -> follows S (bind c f) (bind c g).
Proof.
  intros H b' Hb. destruct c as [a|e]; [|discriminate].
  exact (H a b' Hb).
Qed.

Lemma follows_Ok {A B : Type} (R : A -> B -> Prop) (a : A) (b : B) :
  R a b -> follows R (Ok a) (Ok b).
Proof. intros H b' [= <-]. eauto. Qed.

Lemma follows_for_each {J A B : Type} (R : A -> B -> Prop) (l : list J)
      (f : J -> A -> result A) (g : J -> B -> result B) :
  (forall j a b, R a b -> follows R (f j a) (g j b)) ->
  forall a b, R a b -> follows R (Py.for_each l f a) (Py.for_each l g b).
Proof.
  intros H. induction l as [|j l IH]; intros a b Hab; simpl.
  - now apply follows_Ok.
  - eapply follows_bind; [apply H, Hab|]. exact IH.
Qed.

(** Grids of the same shape, the first below the second cell by cell. *)
Definition grid_le (E A : ndarray2) : Prop := Forall2 (Forall2 Rle) E A.

Lemma Forall2_nth_error {A B : Type} (R : A -> B -> Prop) (v : list A)
      (w : list B) (k : nat) (b : B) :
  Forall2 R v w -> nth_error w k = Some b ->
  exists a, nth_error v k = Some a /\ R a b.
Proof.
  intros H. revert k. induction H as [|a0 b0 v w H0 H IH]; intros [|k] Hk;
    simpl in *; try discriminate.
  - injection Hk as <-. eauto.
  - auto.
Qed.

Lemma Forall2_update {A B : Type} (R : A -> B -> Prop) (v : list A)
      (w : list B) (k : nat) (a : A) (b : B) :
  Forall2 R v w -> R a b -> Forall2 R (update v k a) (update w k b).
Proof.
  intros H Hab. revert k. induction H as [|a0 b0 v w H0 H IH]; intros [|k];
    simpl; constructor; auto.
Qed.

Lemma Forall2_update_r {A : Type} (R : A -> A -> Prop) (v : list A)
      (k : nat) (h x : A) :
  (forall a, R a a) -> nth_error v k = Some h -> R h x ->
  Forall2 R v (update v k x).
Proof.
  intros Hrefl. revert k. induction v as [|y v IH]; intros [|k] Hk Hx;
    simpl in *; try discriminate.
  - injection Hk as ->. constructor; [assumption|].
    clear -Hrefl. induction v; constructor; auto.
  - constructor; auto.
Qed.

Lemma Forall2_le_refl (v : ndarray) : Forall2 Rle v v.
Proof. induction v; constructor; auto. apply Rle_refl. Qed.

Lemma Forall2_le_trans (u v w : ndarray) :
  Forall2 Rle u v -> Forall2 Rle v w -> Forall2 Rle u w.
Proof.
  intros H. revert w. induction H as [|a b u v Hab H IH]; intros w Hw;
    inversion Hw; subst; constructor; eauto using Rle_trans.
Qed.

Lemma grid_le_refl (M : ndarray2) : grid_le M M.
Proof.
  unfold grid_le. induction M; constructor; auto using Forall2_le_refl.
Qed.

Lemma grid_le_trans (E M A : ndarray2) :
  grid_le E M -> grid_le M A -> grid_le E A.
Proof.
  unfold grid_le. intros H. revert A.
  induction H as [|a b u v Hab H IH]; intros w Hw;
    inversion Hw; subst; constructor; eauto using Forall2_le_trans.
Qed.

Lemma getitem_follows {A B : Type} (R : A -> B -> Prop) (v : list A)
      (w : list B) (i : Z) :
  Forall2 R v w -> follows R (getitem v i) (getitem w i).
Proof.
  intros H b Hb. apply getitem_Ok in Hb. destruct Hb as (k & Hk & Hb).
  destruct (Forall2_nth_error R v w k b H Hb) as (a & Ha & Hab).
  exists a. split; [|assumption]. unfold getitem.
  rewrite (Forall2_length H), Hk. simpl. now rewrite Ha.
Qed.

Lemma setitem_follows {A B : Type} (R : A -> B -> Prop) (v : list A)
      (w : list B) (i : Z) (a : A) (b : B) :
  Forall2 R v w -> R a b ->
  follows (Forall2 R) (setitem v i a) (setitem w i b).
Proof.
  intros H Hab w' Hw. apply setitem_Ok in Hw. destruct Hw as (k & Hk & ->).
  exists (update v k a). split; [|now apply Forall2_update].
  unfold setitem. rewrite (Forall2_length H), Hk. reflexivity.
Qed.

Lemma getitem2_follows (E A : ndarray2) (i j : Z) :
  grid_le E A -> follows Rle (getitem2 E i j) (getitem2 A i j).
Proof.
  intros H. unfold getitem2.
  eapply follows_bind; [apply getitem_follows, H|].
  intros r r' Hr. now apply getitem_follows.
Qed.

Lemma setitem2_follows (E A : ndarray2) (i j : Z) (x y : R) :
  grid_le E A -> x <= y ->
  follows grid_le (setitem2 E i j x) (setitem2 A i j y).
Proof.
  intros H Hxy. unfold setitem2.
  eapply follows_bind; [apply getitem_follows, H|].
  intros r r' Hr.
  eapply follows_bind; [apply setitem_follows; eassumption|].
  intros s s' Hs. now apply setitem_follows.
Qed.

(** Raising one cell of a grid. *)
Lemma setitem2_raise (A A' : ndarray2) (i j : Z) (h x : R) :
  getitem2 A i j = Ok h -> h <= x -> setitem2 A i j x = Ok A' ->
  grid_le A A'.
Proof.
  unfold getitem2, setitem2. intros Hg Hx Hs.
  bind_inv Hg as r Hr. rewrite Hr in Hs. simpl in Hs.
  bind_inv Hs as r' Hr'.
  apply getitem_Ok in Hg. destruct Hg as (k & Hk & Hh).
  apply setitem_Ok in Hr'. destruct Hr' as (k' & Hk' & ->).
  assert (k' = k) by congruence. subst k'.
  apply getitem_Ok in Hr. destruct Hr as (n & Hn & Hrow).
  apply setitem_Ok in Hs. destruct Hs as (n' & Hn' & ->).
  assert (n' = n) by congruence. subst n'.
  apply (Forall2_update_r (Forall2 Rle) A n r);
    [apply Forall2_le_refl | assumption |].
  apply (Forall2_update_r Rle r k h); [apply Rle_refl | assumption..].
Qed.

Lemma getitem_Forall {A : Type} (P : A -> Prop) (v : list A) (i : Z) (x : A) :
  Forall P v -> getitem v i = Ok x -> P x.
Proof.
  intros H Hx. apply getitem_Ok in Hx. destruct Hx as (k & _ & Hx).
  apply nth_error_In in Hx. rewrite Forall_forall in H. auto.
Qed.

(** With weights that are not negative, the rolled-back value is monotone
    in the grid it is read off, whichever children the dispatch picks. *)
Lemma rollback_follows (E A : ndarray2) (m k kN jmax : Z) (pu pm pd df : R) :
  grid_le E A -> 0 <= pu -> 0 <= pm -> 0 <= pd -> 0 <= df ->
  follows Rle (rollback E m k kN jmax pu pm pd df)
              (rollback A m k kN jmax pu pm pd df).
Proof.
  intros H Hu Hm Hd Hdf. unfold rollback.
  destruct (k =? jmax)%Z;
    (eapply follows_bind; [apply getitem2_follows, H|]; intros vu vu' Hvu;
     eapply follows_bind; [apply getitem2_follows, H|]; intros vm vm' Hvm;
     eapply follows_bind; [apply getitem2_follows, H|]; intros vd vd' Hvd;
     apply follows_Ok;
     apply Rmult_le_compat_r; [assumption|];
     repeat apply Rplus_le_compat;
     apply Rmult_le_compat_l; assumption).
Qed.

(** Every stored transition probability is at least zero. *)
Definition nonneg_probabilities (self : FinHullWhiteRateModel) : Prop :=
  forall p, _pu self = Some p \/ _pm self = Some p \/ _pd self = Some p ->
            Forall (Rle 0) p.

(** What the two runs share after each step: the bond values, and option
    values of which the European ones are the lower. *)
Definition grids_le (E A : ndarray2 * ndarray2) : Prop :=
  fst E = fst A /\ grid_le (snd E) (snd A).

Lemma attr_Some {A : Type} (o : option A) (a : A) : attr o = Ok a -> o = Some a.
Proof. destruct o; simpl; congruence. Qed.

Lemma rollback_node_follows (self : FinHullWhiteRateModel) (accrued : ndarray)
      (m jmax N : Z) (dt flow strikePrice : R) (k : Z)
      (E A : ndarray2 * ndarray2) :
  nonneg_probabilities self -> grids_le E A ->
  follows grids_le
    (rollback_node_body self accrued m jmax N dt flow strikePrice false k E)
    (rollback_node_body self accrued m jmax N dt flow strikePrice true k A).
Proof.
  intros Hp [Hbv Hov]. destruct E as [bv ovE], A as [bv' ovA].
  simpl in Hbv, Hov. subst bv'. unfold rollback_node_body.
  destruct (attr (_rt self)) as [rtA|] eqn:ErtA; [|discriminate]. cbn [bind].
  apply follows_same. intros rt.
  destruct (attr (_pu self)) as [puA|] eqn:EpuA; [|discriminate]. cbn [bind].
  destruct (getitem puA _) as [pu|] eqn:Epu; [|discriminate]. cbn [bind].
  destruct (attr (_pm self)) as [pmA|] eqn:EpmA; [|discriminate]. cbn [bind].
  destruct (getitem pmA _) as [pm|] eqn:Epm; [|discriminate]. cbn [bind].
  destruct (attr (_pd self)) as [pdA|] eqn:EpdA; [|discriminate]. cbn [bind].
  destruct (getitem pdA _) as [pd|] eqn:Epd; [|discriminate]. cbn [bind].
  apply attr_Some in EpuA, EpmA, EpdA.
  assert (Hu : 0 <= pu)
    by (eapply (getitem_Forall (Rle 0)); [apply (Hp puA); auto | exact Epu]).
  assert (Hm : 0 <= pm)
    by (eapply (getitem_Forall (Rle 0)); [apply (Hp pmA); auto | exact Epm]).
  assert (Hd : 0 <= pd)
    by (eapply (getitem_Forall (Rle 0)); [apply (Hp pdA); auto | exact Epd]).
  assert (Hdf : 0 <= exp (- rt * dt)) by (left; apply exp_pos).
  apply follows_same. intros v.
  apply follows_same. intros bv1.
  apply follows_same. intros bv2.
  eapply follows_bind; [now apply rollback_follows|]. intros hE hA Hh.
  eapply follows_bind; [now apply setitem2_follows|]. intros ovE1 ovA1 H1.
  intros [bv3 ovA2] H.
  bind_inv H as b Hb. bind_inv H as ac Hac. bind_inv H as hold Hhold.
  bind_inv H as ovA3 Hset. injection H as <- <-.
  exists (bv2, ovE1). split; [reflexivity|]. split; [reflexivity|]. simpl.
  apply (grid_le_trans _ ovA1); [assumption|].
  eapply setitem2_raise; [exact Hhold | apply Rmax_r | exact Hset].
Qed.

Lemma rollback_step_follows (self : FinHullWhiteRateModel)
      (treeFlows accrued : ndarray) (jmax N : Z) (dt face strikePrice : R)
      (m : Z) (E A : ndarray2 * ndarray2) :
  nonneg_probabilities self -> grids_le E A ->
  follows grids_le
    (rollback_step_body self treeFlows accrued jmax N dt face strikePrice
                        false m E)
    (rollback_step_body self treeFlows accrued jmax N dt face strikePrice
                        true m A).
Proof.
  intros Hp H. unfold rollback_step_body.
  apply follows_same. intros tf.
  apply follows_for_each; [|assumption].
  intros j a b Hab. now apply rollback_node_follows.
Qed.

Section Exercise.

Variable FinDate : Type.
Variable date_sub : FinDate -> FinDate -> R.
Variable gDaysInYear : R.
Variable uinterpolate : R -> ndarray -> ndarray -> Z -> R.
Variable FLAT_FORWARDS : Z.

(** Steps over what the two runs have in common. *)
Ltac shared :=
  repeat first
    [ apply follows_same; intros ?
    | lazymatch goal with
      | |- follows _ (if ?b then _ else _) _ =>
        destruct b; [intros ? ?; discriminate|]
      end
    | lazymatch goal with
      | |- follows _ (match ?p with _ => _ end) _ => destruct p
      end ].

(** What [bondOption] computes under the two exercise styles: the same
    bond values and offset, and European option values that are the
    lower ones. *)
Definition results_le (E A : ndarray2 * ndarray2 * Z) : Prop :=
  let '(ovE, bvE, NE) := E in
  let '(ovA, bvA, NA) := A in
  grid_le ovE ovA /\ bvE = bvA /\ NE = NA.

Lemma bondOption_grids_follows (self : FinHullWhiteRateModel)
      (settlementDate expiryDate : FinDate) (strikePrice face : R)
      (bond : FinBond FinDate) :
  nonneg_probabilities self ->
  follows results_le
    (bondOption_grids date_sub gDaysInYear uinterpolate FLAT_FORWARDS self
       settlementDate expiryDate strikePrice face bond false)
    (bondOption_grids date_sub gDaysInYear uinterpolate FLAT_FORWARDS self
       settlementDate expiryDate strikePrice face bond true).
Proof.
  intros Hp. unfold bondOption_grids. shared.
  eapply follows_bind.
  - apply (follows_for_each grids_le).
    + intros m E A H. now apply rollback_step_follows.
    + split; [reflexivity | apply grid_le_refl].
  - intros [bE oE] [bA oA] [H1 H2]. apply follows_Ok.
    split; [exact H2 | split; [exact H1 | reflexivity]].
Qed.

(** C5, amended.  On a lattice none of whose transition probabilities is
    negative, whenever [bondOption] returns under American exercise it
    returns under European exercise too, on the same inputs, with the
    same bond value and an option value that is not higher. *)
Theorem american_at_least_european (self sA : FinHullWhiteRateModel)
        (settlementDate expiryDate : FinDate) (strikePrice face : R)
        (bond : FinBond FinDate) (american bondValue : R) :
  nonneg_probabilities self ->
  bondOption date_sub gDaysInYear uinterpolate FLAT_FORWARDS
    settlementDate expiryDate strikePrice face bond true self
  = (Ok (american, bondValue), sA) ->
  exists european sE,
    bondOption date_sub gDaysInYear uinterpolate FLAT_FORWARDS
      settlementDate expiryDate strikePrice face bond false self
    = (Ok (european, bondValue), sE) /\
    european <= american.
Proof.
  intros Hp H. unfold bondOption in *.
  destruct (bondOption_grids _ _ _ _ _ _ _ _ _ _ true)
    as [[[ovA bvA] NA]|e] eqn:EA; [|discriminate].
  destruct (bondOption_grids_follows self settlementDate expiryDate
              strikePrice face bond Hp _ EA)
    as ([[ovE bvE] NE] & -> & Hle & -> & ->).
  injection H as H _.
  bind_inv H as ov Hov. bind_inv H as bv Hbv. injection H as <- <-.
  destruct (getitem2_follows ovE ovA 0 NA Hle _ Hov) as (eu & -> & Hle').
  cbn [bind]. rewrite Hbv. cbn [bind]. eauto.
Qed.

End Exercise.

(** ** Exercise styles on given inputs *)

(** One step ahead on a curve that is positive, [P] is the discount
    factor of the node's own short rate. *)
Lemma P_next (self : FinHullWhiteRateModel) (t T Rt delta pt ptd pT : R) :
  0 < _a self -> 0 < delta -> T - t = delta -> pT = ptd ->
  0 < pt -> 0 < ptd ->
  P self t T Rt delta pt ptd pT = Ok (exp (- (delta * Rt))).
Proof.
  intros Ha Hd E -> Hpt Hptd. unfold P. rewrite E.
  replace (- _a self * delta) with (- (_a self * delta)) by ring.
  assert (He := exp_neg_lt_1 (_a self * delta) ltac:(nra)).
  set (e := exp (- (_a self * delta))) in *.
  assert (HB : (1.0 - e) / _a self <> 0).
  { apply Rmult_integral_contrapositive_currified; [lra|].
    apply Rinv_neq_0_compat. lra. }
  assert (Hq : 0 < ptd / pt) by (apply Rdiv_lt_0_compat; assumption).
  repeat (first [ rewrite div_nonzero by (assumption || lra)
                | rewrite log_pos by assumption ]; cbn [bind]).
  f_equal. f_equal. field. split; lra.
Qed.

Lemma exp_m1_ln (u : R) : 0 < u -> exp (- (-1 * ln u)) = u.
Proof.
  intros H. replace (- (-1 * ln u)) with (ln u) by ring. now apply exp_ln.
Qed.

Lemma exp_node_dn (s u : R) :
  0 < s -> 0 < u -> exp (- (ln s + -1 * ln u)) = u / s.
Proof.
  intros Hs Hu. replace (- (ln s + -1 * ln u)) with (ln u + - ln s) by ring.
  rewrite exp_plus, exp_ln, exp_opp_ln by assumption. reflexivity.
Qed.

Lemma exp_node_up (s u : R) :
  0 < s -> 0 < u -> exp (- (ln s + ln u)) = / (s * u).
Proof.
  intros Hs Hu. replace (- (ln s + ln u)) with (- ln s + - ln u) by ring.
  rewrite exp_plus, !exp_opp_ln by assumption. field. split; lra.
Qed.

(** Discount factors of nodes whose rate is a sum of logarithms. *)
Ltac xsimp :=
  repeat first
    [ rewrite exp_m1_ln by lra
    | rewrite exp_node_dn by lra
    | rewrite exp_node_up by lra
    | rewrite exp_opp_ln by lra ].

Ltac runx :=
  repeat (progress (steps; rsimp; xsimp;
                    try (rewrite !P_next by (cbn; lra)))).

(** Equality of real numbers up to [lra] under [ln]. *)
Ltac rln :=
  first [ reflexivity | lra
        | rewrite <- ln_1; apply f_equal; lra
        | apply f_equal; rln
        | apply f_equal2; rln ].

Ltac leq :=
  lazymatch goal with
  | |- Ok _ = Ok _ => apply f_equal; leq
  | |- (_, _) = (_, _) => apply f_equal2; leq
  | |- _ :: _ = _ :: _ => apply f_equal2; leq
  | |- @eq R _ _ => rln
  | |- _ => reflexivity
  end.

(** Puts the state the head computation starts from in the form [st']. *)
Ltac canon st' :=
  lazymatch goal with
  | |- ?lhs = _ =>
    let c := head lhs in
    lazymatch c with
    | ?f ?st => replace st with st' by leq
    end
  end.

Ltac shape_eval :=
  unfold shape; cbn [List.length hd Z.of_nat Pos.of_succ_nat Pos.succ];
  cbn beta iota.

Ltac int_is n :=
  match goal with
  | |- context [Py.int ?x] =>
    replace (Py.int x) with n
      by (symmetry; unfold Py.int; rewrite if_Rle_true by lra;
          apply Zfloor_eq; simpl; lra)
  end.

Ltac round_is n :=
  match goal with
  | |- context [Py.round ?x] =>
    replace (Py.round x) with n
      by (symmetry; unfold Py.round;
          replace (Zfloor x) with n by (symmetry; apply Zfloor_eq; simpl; lra);
          rewrite if_Rlt_true by (simpl; lra); reflexivity)
  end.

(** From the checks on the coupon times to the first step of the
    backward induction, for a bond whose only flow up to expiry is the
    one at time zero. *)
Ltac to_rollback :=
  cbn [existsb]; rewrite !Rltb_false by lra; cbn [orb];
  runx; round_is 0%Z; runx.

(** *** Probabilities that are not negative *)

(** Interpolation that agrees with [curve_ex]. *)
Definition interp_ex (t : R) (times values : ndarray) (method : Z) : R :=
  1 / (1 + t).

(** A zero-coupon bond that matures after two years. *)
Definition bond_2y : FinBond Z :=
  {| _maturityDate := 730%Z; _coupon := 0; _frequency := 1;
     calculateFlowDates := fun _ => [0%Z; 730%Z] |}.

Definition grid_ex : FinHullWhiteRateModel :=
  {| _a := 1; _sigma := 0;
     _Q := Some [[0; 1; 0]; [1/12; 1/3; 1/12]; [1/18; 2/9; 1/18]];
     _r := None;
     _treeTimes := Some [0; 1; 2];
     _pu := Some [1/6; 1/6; 1/6];
     _pm := Some [2/3; 2/3; 2/3];
     _pd := Some [1/6; 1/6; 1/6];
     _discountCurve := Some curve_ex;
     _rt := Some [[0; ln 2; 0]; [ln (3/2); ln (3/2); ln (3/2)]; [0; 0; 0]];
     _dt := Some 1;
     _bondValues := None; _optionValues := None |}.

Lemma lattice_ex_grid : lattice_ex = grid_ex.
Proof.
  unfold lattice_ex, buildTree. rewrite buildTree_inputs_ex. cbn [bind].
  change (_a model_ex) with 1. change (_sigma model_ex) with 0.
  rewrite buildTreeFast_ex. reflexivity.
Qed.

Lemma nonneg_probabilities_ex : nonneg_probabilities lattice_ex.
Proof.
  rewrite lattice_ex_grid. intros p [H|[H|H]]; injection H as <-;
    repeat constructor; lra.
Qed.

(** Expiry after one year, strike 50 on a face value of 100. *)
Lemma bondOption_grids_ex :
  bondOption_grids days 365 interp_ex 1 grid_ex 0%Z 365%Z 50 100 bond_2y true
  = Ok ([[0; 25/3; 0]; [50/3; 50/3; 50/3]; [0; 0; 0]],
        [[0; 100/3; 0]; [200/3; 200/3; 200/3]; [0; 0; 0]],
        1%Z).
Proof.
  unfold bondOption_grids, year_frac, days, interp_ex. runx.
  replace (365 / 365) with 1 by lra. replace (730 / 365) with 2 by lra.
  shape_eval. runx. ceil_is 1%Z. int_is 1%Z.
  unfold coupon_schedule, year_frac. runx.
  replace (730 / 365) with 2 by lra.
  to_rollback.
  unfold rollback_step_body at 1. runx.
  leq.
Qed.

Lemma bondOption_ex_american :
  exists sA,
    bondOption days 365 interp_ex 1 0%Z 365%Z 50 100 bond_2y true lattice_ex
    = (Ok (25/3, 100/3), sA).
Proof.
  rewrite lattice_ex_grid. unfold bondOption.
  rewrite bondOption_grids_ex. eexists. reflexivity.
Qed.

Lemma american_at_least_european_witness :
  nonneg_probabilities lattice_ex /\
  exists european sE,
    bondOption days 365 interp_ex 1 0%Z 365%Z 50 100 bond_2y false lattice_ex
    = (Ok (european, 100/3), sE) /\
    european <= 25/3.
Proof.
  split; [exact nonneg_probabilities_ex|].
  destruct bondOption_ex_american as [sA HA].
  exact (american_at_least_european Z days 365 interp_ex 1 lattice_ex sA
           0%Z 365%Z 50 100 bond_2y (25/3) (100/3)
           nonneg_probabilities_ex HA).
Defined.

(** *** A lattice with negative probabilities

    With [a * dt = 2] the middle probability of both boundary nodes is
    [-1/3].  The volatility is chosen for the rate spacing [dR] to be
    [ln 16], and the curve is flat at [1]. *)

Lemma dR_cx : ln 16 / sqrt 3 * sqrt 3 = ln 16.
Proof. field. intros H. apply sqrt_eq_0 in H; lra. Qed.

Lemma step_cx_0 :
  step_body [7 / 6; 1 / 6; 1 / 6] [-1 / 3; 2 / 3; -1 / 3] [1 / 6; 1 / 6; 7 / 6]
            [1; 1; 1; 1; 1] (ln 16) 1 1 (-1) 1 0
  ([[0; 1; 0];
    [0; 0; 0];
    [0; 0; 0];
    [0; 0; 0];
    [0; 0; 0]],
   [0; 0; 0; 0],
   [[0; 0; 0];
    [0; 0; 0];
    [0; 0; 0];
    [0; 0; 0];
    [0; 0; 0]])
  = Ok
  ([[0; 1; 0];
    [1 / 6; 2 / 3; 1 / 6];
    [0; 0; 0];
    [0; 0; 0];
    [0; 0; 0]],
   [0; 0; 0; 0],
   [[0; 0; 0];
    [0; 0; 0];
    [0; 0; 0];
    [0; 0; 0];
    [0; 0; 0]]).
Proof. unfold step_body. runx. leq. Qed.

Lemma step_cx_1 :
  step_body [7 / 6; 1 / 6; 1 / 6] [-1 / 3; 2 / 3; -1 / 3] [1 / 6; 1 / 6; 7 / 6]
            [1; 1; 1; 1; 1] (ln 16) 1 1 (-1) 1 1
  ([[0; 1; 0];
    [1 / 6; 2 / 3; 1 / 6];
    [0; 0; 0];
    [0; 0; 0];
    [0; 0; 0]],
   [0; 0; 0; 0],
   [[0; 0; 0];
    [0; 0; 0];
    [0; 0; 0];
    [0; 0; 0];
    [0; 0; 0]])
  = Ok
  ([[0; 1; 0];
    [1 / 6; 2 / 3; 1 / 6];
    [109 / 642; -43 / 321; 619 / 642];
    [0; 0; 0];
    [0; 0; 0]],
   [0; ln (107 / 32); 0; 0],
   [[0; 0; 0];
    [ln (107 / 32) + -1 * ln 16; ln (107 / 32); ln (107 / 32) + ln 16];
    [0; 0; 0];
    [0; 0; 0];
    [0; 0; 0]]).
Proof. unfold step_body. runx. leq. Qed.

Lemma step_cx_2 :
  step_body [7 / 6; 1 / 6; 1 / 6] [-1 / 3; 2 / 3; -1 / 3] [1 / 6; 1 / 6; 7 / 6]
            [1; 1; 1; 1; 1] (ln 16) 1 1 (-1) 1 2
  ([[0; 1; 0];
    [1 / 6; 2 / 3; 1 / 6];
    [109 / 642; -43 / 321; 619 / 642];
    [0; 0; 0];
    [0; 0; 0]],
   [0; ln (107 / 32); 0; 0],
   [[0; 0; 0];
    [ln (107 / 32) + -1 * ln 16; ln (107 / 32); ln (107 / 32) + ln 16];
    [0; 0; 0];
    [0; 0; 0];
    [0; 0; 0]])
  = Ok
  ([[0; 1; 0];
    [1 / 6; 2 / 3; 1 / 6];
    [109 / 642; -43 / 321; 619 / 642];
    [3429 / 18098; -3475 / 9049; 21619 / 18098];
    [0; 0; 0]],
   [0; ln (107 / 32); ln (9049 / 3424); 0],
   [[0; 0; 0];
    [ln (107 / 32) + -1 * ln 16; ln (107 / 32); ln (107 / 32) + ln 16];
    [ln (9049 / 3424) + -1 * ln 16; ln (9049 / 3424); ln (9049 / 3424) + ln 16];
    [0; 0; 0];
    [0; 0; 0]]).
Proof. unfold step_body. runx. leq. Qed.

Lemma step_cx_3 :
  step_body [7 / 6; 1 / 6; 1 / 6] [-1 / 3; 2 / 3; -1 / 3] [1 / 6; 1 / 6; 7 / 6]
            [1; 1; 1; 1; 1] (ln 16) 1 1 (-1) 1 3
  ([[0; 1; 0];
    [1 / 6; 2 / 3; 1 / 6];
    [109 / 642; -43 / 321; 619 / 642];
    [3429 / 18098; -3475 / 9049; 21619 / 18098];
    [0; 0; 0]],
   [0; ln (107 / 32); ln (9049 / 3424); 0],
   [[0; 0; 0];
    [ln (107 / 32) + -1 * ln 16; ln (107 / 32); ln (107 / 32) + ln 16];
    [ln (9049 / 3424) + -1 * ln 16; ln (9049 / 3424); ln (9049 / 3424) + ln 16];
    [0; 0; 0];
    [0; 0; 0]])
  = Ok
  ([[0; 1; 0];
    [1 / 6; 2 / 3; 1 / 6];
    [109 / 642; -43 / 321; 619 / 642];
    [3429 / 18098; -3475 / 9049; 21619 / 18098];
    [917957 / 4729458; -1121843 / 2364729; 6055187 / 4729458]],
   [0; ln (107 / 32); ln (9049 / 3424); ln (788243 / 289568)],
   [[0; 0; 0];
    [ln (107 / 32) + -1 * ln 16; ln (107 / 32); ln (107 / 32) + ln 16];
    [ln (9049 / 3424) + -1 * ln 16; ln (9049 / 3424); ln (9049 / 3424) + ln 16];
    [ln (788243 / 289568) + -1 * ln 16; ln (788243 / 289568); ln (788243 / 289568) + ln 16];
    [0; 0; 0]]).
Proof. unfold step_body. runx. leq. Qed.

Lemma buildTreeFast_cx :
  buildTreeFast 2 (ln 16 / sqrt 3) [0; 1; 2; 3; 4] 3 [1; 1; 1; 1; 1]
  = Ok ([[0; 1; 0];
         [1 / 6; 2 / 3; 1 / 6];
         [109 / 642; -43 / 321; 619 / 642];
         [3429 / 18098; -3475 / 9049; 21619 / 18098];
         [917957 / 4729458; -1121843 / 2364729; 6055187 / 4729458]],
        [7 / 6; 1 / 6; 1 / 6], [-1 / 3; 2 / 3; -1 / 3], [1 / 6; 1 / 6; 7 / 6],
        [[0; 0; 0];
         [ln (107 / 32) + -1 * ln 16; ln (107 / 32); ln (107 / 32) + ln 16];
         [ln (9049 / 3424) + -1 * ln 16; ln (9049 / 3424); ln (9049 / 3424) + ln 16];
         [ln (788243 / 289568) + -1 * ln 16; ln (788243 / 289568); ln (788243 / 289568) + ln 16];
         [0; 0; 0]],
        1).
Proof.
  unfold buildTreeFast. runx.
  replace (4 / 4) with 1 by lra. rsimp.
  replace (30 * / 10) with 3 by lra.
  runx. rewrite dR_cx. runx. ceil_is 1%Z. runx.
  canon
  ([[0; 1; 0];
    [0; 0; 0];
    [0; 0; 0];
    [0; 0; 0];
    [0; 0; 0]],
   [0; 0; 0; 0],
   [[0; 0; 0];
    [0; 0; 0];
    [0; 0; 0];
    [0; 0; 0];
    [0; 0; 0]]).
  lazymatch goal with
  | |- context [step_body ?pu ?pm ?pd _ _ _ _ _ _ 0 _] =>
    replace pu with [7 / 6; 1 / 6; 1 / 6] by leq;
    replace pm with [-1 / 3; 2 / 3; -1 / 3] by leq;
    replace pd with [1 / 6; 1 / 6; 7 / 6] by leq
  end.
  rewrite step_cx_0. cbn [bind]. rewrite step_cx_1. cbn [bind].
  rewrite step_cx_2. cbn [bind]. rewrite step_cx_3. cbn [bind].
  reflexivity.
Qed.

Definition curve_cx : FinDiscountCurve :=
  {| _times := [0; 4]; _values := [1; 1]; df := fun _ => 1 |}.

(** Interpolation on [curve_cx]. *)
Definition interp_flat (t : R) (times values : ndarray) (method : Z) : R :=
  1.

Definition model_cx : FinHullWhiteRateModel :=
  {| _a := 2; _sigma := ln 16 / sqrt 3;
     _Q := None; _r := None; _treeTimes := None;
     _pu := None; _pm := None; _pd := None;
     _discountCurve := None;
     _rt := None; _dt := None;
     _bondValues := None; _optionValues := None |}.

(** The lattice over three years in three time steps: [dt = 1],
    [jmax = 1]. *)
Definition lattice_cx : FinHullWhiteRateModel :=
  {| _a := 2; _sigma := ln 16 / sqrt 3;
     _Q := Some [[0; 1; 0];
                 [1 / 6; 2 / 3; 1 / 6];
                 [109 / 642; -43 / 321; 619 / 642];
                 [3429 / 18098; -3475 / 9049; 21619 / 18098];
                 [917957 / 4729458; -1121843 / 2364729; 6055187 / 4729458]];
     _r := None;
     _treeTimes := Some [0; 1; 2; 3; 4];
     _pu := Some [7 / 6; 1 / 6; 1 / 6];
     _pm := Some [-1 / 3; 2 / 3; -1 / 3];
     _pd := Some [1 / 6; 1 / 6; 7 / 6];
     _discountCurve := Some curve_cx;
     _rt := Some [[0; 0; 0];
                  [ln (107 / 32) + -1 * ln 16; ln (107 / 32); ln (107 / 32) + ln 16];
                  [ln (9049 / 3424) + -1 * ln 16; ln (9049 / 3424); ln (9049 / 3424) + ln 16];
                  [ln (788243 / 289568) + -1 * ln 16; ln (788243 / 289568); ln (788243 / 289568) + ln 16];
                  [0; 0; 0]];
     _dt := Some 1;
     _bondValues := None; _optionValues := None |}.

(** A zero-coupon bond that matures after four years. *)
Definition bond_cx : FinBond Z :=
  {| _maturityDate := 1460%Z; _coupon := 0; _frequency := 1;
     calculateFlowDates := fun _ => [0%Z; 1460%Z] |}.

Lemma init_cx : init 2 (ln 16 / sqrt 3) = Ok model_cx.
Proof.
  assert (H3 : 0 < sqrt 3) by (apply sqrt_lt_R0; lra).
  assert (Hl : 0 < ln 16) by (rewrite <- ln_1; apply ln_increasing; lra).
  assert (Hs : 0 < ln 16 / sqrt 3) by (apply Rdiv_lt_0_compat; assumption).
  unfold init. rewrite !if_Rlt_false by lra. reflexivity.
Qed.

Lemma buildTree_inputs_cx :
  buildTree_inputs days 365 0%Z 1095%Z 3 curve_cx
  = Ok ([0; 1; 2; 3; 4], [1; 1; 1; 1; 1]).
Proof.
  unfold buildTree_inputs, year_frac, days. steps. req; field.
Qed.

Lemma buildTree_cx :
  buildTree days 365 0%Z 1095%Z 3 curve_cx model_cx = (Ok tt, lattice_cx).
Proof.
  unfold buildTree. rewrite buildTree_inputs_cx. cbn [bind].
  change (_a model_cx) with 2.
  change (_sigma model_cx) with (ln 16 / sqrt 3).
  rewrite buildTreeFast_cx. reflexivity.
Qed.

(** The backward induction from expiry, after three years, of an option
    struck at 40 on a face value of 100: one lemma for each time step,
    under either exercise style. *)
Lemma rollback_cx_american_2 :
  rollback_step_body lattice_cx [0; 0; 0; 0; 0] [0; 0; 0; 0; 0] 1 1 1 100 40
                     true 2
  ([[0; 0; 0];
    [0; 0; 0];
    [0; 0; 0];
    [463308800 / 788243; 28956800 / 788243; 1809800 / 788243];
    [0; 0; 0]],
   [[0; 0; 0];
    [0; 0; 0];
    [0; 0; 0];
    [431779080 / 788243; 0; 0];
    [0; 0; 0]])
  = Ok
  ([[0; 0; 0];
    [0; 0; 0];
    [-728627200 / 788243; 36636800 / 788243; 12561800 / 788243];
    [463308800 / 788243; 28956800 / 788243; 1809800 / 788243];
    [0; 0; 0]],
   [[0; 0; 0];
    [0; 0; 0];
    [0; 246401928320 / 7132810907; 107800843640 / 7132810907];
    [431779080 / 788243; 0; 0];
    [0; 0; 0]]).
Proof. unfold rollback_step_body. runx. leq. Qed.

Lemma rollback_cx_american_1 :
  rollback_step_body lattice_cx [0; 0; 0; 0; 0] [0; 0; 0; 0; 0] 1 1 1 100 40
                     true 1
  ([[0; 0; 0];
    [0; 0; 0];
    [-728627200 / 788243; 36636800 / 788243; 12561800 / 788243];
    [463308800 / 788243; 28956800 / 788243; 1809800 / 788243];
    [0; 0; 0]],
   [[0; 0; 0];
    [0; 0; 0];
    [0; 246401928320 / 7132810907; 107800843640 / 7132810907];
    [431779080 / 788243; 0; 0];
    [0; 0; 0]])
  = Ok
  ([[0; 0; 0];
    [1376716800 / 788243; -28387200 / 788243; -16078200 / 788243];
    [-728627200 / 788243; 36636800 / 788243; 12561800 / 788243];
    [463308800 / 788243; 28956800 / 788243; 1809800 / 788243];
    [0; 0; 0]],
   [[0; 0; 0];
    [1345187080 / 788243; 163500344960 / 21398432721; 0];
    [0; 246401928320 / 7132810907; 107800843640 / 7132810907];
    [431779080 / 788243; 0; 0];
    [0; 0; 0]]).
Proof. unfold rollback_step_body. runx. leq. Qed.

Lemma rollback_cx_american_0 :
  rollback_step_body lattice_cx [0; 0; 0; 0; 0] [0; 0; 0; 0; 0] 1 1 1 100 40
                     true 0
  ([[0; 0; 0];
    [1376716800 / 788243; -28387200 / 788243; -16078200 / 788243];
    [-728627200 / 788243; 36636800 / 788243; 12561800 / 788243];
    [463308800 / 788243; 28956800 / 788243; 1809800 / 788243];
    [0; 0; 0]],
   [[0; 0; 0];
    [1345187080 / 788243; 163500344960 / 21398432721; 0];
    [0; 246401928320 / 7132810907; 107800843640 / 7132810907];
    [431779080 / 788243; 0; 0];
    [0; 0; 0]])
  = Ok
  ([[0; 207848300 / 788243; 0];
    [1376716800 / 788243; -28387200 / 788243; -16078200 / 788243];
    [-728627200 / 788243; 36636800 / 788243; 12561800 / 788243];
    [463308800 / 788243; 28956800 / 788243; 1809800 / 788243];
    [0; 0; 0]],
   [[0; 18585897520300 / 64195298163; 0];
    [1345187080 / 788243; 163500344960 / 21398432721; 0];
    [0; 246401928320 / 7132810907; 107800843640 / 7132810907];
    [431779080 / 788243; 0; 0];
    [0; 0; 0]]).
Proof. unfold rollback_step_body. runx. leq. Qed.

Lemma rollback_cx_european_2 :
  rollback_step_body lattice_cx [0; 0; 0; 0; 0] [0; 0; 0; 0; 0] 1 1 1 100 40
                     false 2
  ([[0; 0; 0];
    [0; 0; 0];
    [0; 0; 0];
    [463308800 / 788243; 28956800 / 788243; 1809800 / 788243];
    [0; 0; 0]],
   [[0; 0; 0];
    [0; 0; 0];
    [0; 0; 0];
    [431779080 / 788243; 0; 0];
    [0; 0; 0]])
  = Ok
  ([[0; 0; 0];
    [0; 0; 0];
    [-728627200 / 788243; 36636800 / 788243; 12561800 / 788243];
    [463308800 / 788243; 28956800 / 788243; 1809800 / 788243];
    [0; 0; 0]],
   [[0; 0; 0];
    [0; 0; 0];
    [-7884861706240 / 7132810907; 246401928320 / 7132810907; 107800843640 / 7132810907];
    [431779080 / 788243; 0; 0];
    [0; 0; 0]]).
Proof. unfold rollback_step_body. runx. leq. Qed.

Lemma rollback_cx_european_1 :
  rollback_step_body lattice_cx [0; 0; 0; 0; 0] [0; 0; 0; 0; 0] 1 1 1 100 40
                     false 1
  ([[0; 0; 0];
    [0; 0; 0];
    [-728627200 / 788243; 36636800 / 788243; 12561800 / 788243];
    [463308800 / 788243; 28956800 / 788243; 1809800 / 788243];
    [0; 0; 0]],
   [[0; 0; 0];
    [0; 0; 0];
    [-7884861706240 / 7132810907; 246401928320 / 7132810907; 107800843640 / 7132810907];
    [431779080 / 788243; 0; 0];
    [0; 0; 0]])
  = Ok
  ([[0; 0; 0];
    [1376716800 / 788243; -28387200 / 788243; -16078200 / 788243];
    [-728627200 / 788243; 36636800 / 788243; 12561800 / 788243];
    [463308800 / 788243; 28956800 / 788243; 1809800 / 788243];
    [0; 0; 0]],
   [[0; 0; 0];
    [14038001448960 / 7132810907; -338514798720 / 7132810907; -173143411080 / 7132810907];
    [-7884861706240 / 7132810907; 246401928320 / 7132810907; 107800843640 / 7132810907];
    [431779080 / 788243; 0; 0];
    [0; 0; 0]]).
Proof. unfold rollback_step_body. runx. leq. Qed.

Lemma rollback_cx_european_0 :
  rollback_step_body lattice_cx [0; 0; 0; 0; 0] [0; 0; 0; 0; 0] 1 1 1 100 40
                     false 0
  ([[0; 0; 0];
    [1376716800 / 788243; -28387200 / 788243; -16078200 / 788243];
    [-728627200 / 788243; 36636800 / 788243; 12561800 / 788243];
    [463308800 / 788243; 28956800 / 788243; 1809800 / 788243];
    [0; 0; 0]],
   [[0; 0; 0];
    [14038001448960 / 7132810907; -338514798720 / 7132810907; -173143411080 / 7132810907];
    [-7884861706240 / 7132810907; 246401928320 / 7132810907; 107800843640 / 7132810907];
    [431779080 / 788243; 0; 0];
    [0; 0; 0]])
  = Ok
  ([[0; 207848300 / 788243; 0];
    [1376716800 / 788243; -28387200 / 788243; -16078200 / 788243];
    [-728627200 / 788243; 36636800 / 788243; 12561800 / 788243];
    [463308800 / 788243; 28956800 / 788243; 1809800 / 788243];
    [0; 0; 0]],
   [[0; 2085133140500 / 7132810907; 0];
    [14038001448960 / 7132810907; -338514798720 / 7132810907; -173143411080 / 7132810907];
    [-7884861706240 / 7132810907; 246401928320 / 7132810907; 107800843640 / 7132810907];
    [431779080 / 788243; 0; 0];
    [0; 0; 0]]).
Proof. unfold rollback_step_body. runx. leq. Qed.

Lemma bondOption_grids_cx_american :
  bondOption_grids days 365 interp_flat 1 lattice_cx 0%Z 1095%Z 40 100
                   bond_cx true
  = Ok ([[0; 18585897520300 / 64195298163; 0];
         [1345187080 / 788243; 163500344960 / 21398432721; 0];
         [0; 246401928320 / 7132810907; 107800843640 / 7132810907];
         [431779080 / 788243; 0; 0];
         [0; 0; 0]],
        [[0; 207848300 / 788243; 0];
         [1376716800 / 788243; -28387200 / 788243; -16078200 / 788243];
         [-728627200 / 788243; 36636800 / 788243; 12561800 / 788243];
         [463308800 / 788243; 28956800 / 788243; 1809800 / 788243];
         [0; 0; 0]],
        1%Z).
Proof.
  unfold bondOption_grids, year_frac, days. runx.
  replace (1095 / 365) with 3 by lra. replace (1460 / 365) with 4 by lra.
  shape_eval. runx. ceil_is 1%Z. int_is 3%Z.
  unfold coupon_schedule, year_frac. runx.
  replace (1460 / 365) with 4 by lra.
  to_rollback.
  lazymatch goal with
  | |- context [rollback_step_body ?s ?tf ?ac _ _ _ _ _ _ 2 ?st] =>
    replace ac with [0; 0; 0; 0; 0] by leq;
    replace st with
  ([[0; 0; 0];
    [0; 0; 0];
    [0; 0; 0];
    [463308800 / 788243; 28956800 / 788243; 1809800 / 788243];
    [0; 0; 0]],
   [[0; 0; 0];
    [0; 0; 0];
    [0; 0; 0];
    [431779080 / 788243; 0; 0];
    [0; 0; 0]])
      by leq;
    change s with lattice_cx
  end.
  rewrite rollback_cx_american_2. cbn [bind].
  rewrite rollback_cx_american_1. cbn [bind].
  rewrite rollback_cx_american_0. cbn [bind].
  reflexivity.
Qed.

Lemma bondOption_grids_cx_european :
  bondOption_grids days 365 interp_flat 1 lattice_cx 0%Z 1095%Z 40 100
                   bond_cx false
  = Ok ([[0; 2085133140500 / 7132810907; 0];
         [14038001448960 / 7132810907; -338514798720 / 7132810907; -173143411080 / 7132810907];
         [-7884861706240 / 7132810907; 246401928320 / 7132810907; 107800843640 / 7132810907];
         [431779080 / 788243; 0; 0];
         [0; 0; 0]],
        [[0; 207848300 / 788243; 0];
         [1376716800 / 788243; -28387200 / 788243; -16078200 / 788243];
         [-728627200 / 788243; 36636800 / 788243; 12561800 / 788243];
         [463308800 / 788243; 28956800 / 788243; 1809800 / 788243];
         [0; 0; 0]],
        1%Z).
Proof.
  unfold bondOption_grids, year_frac, days. runx.
  replace (1095 / 365) with 3 by lra. replace (1460 / 365) with 4 by lra.
  shape_eval. runx. ceil_is 1%Z. int_is 3%Z.
  unfold coupon_schedule, year_frac. runx.
  replace (1460 / 365) with 4 by lra.
  to_rollback.
  lazymatch goal with
  | |- context [rollback_step_body ?s ?tf ?ac _ _ _ _ _ _ 2 ?st] =>
    replace ac with [0; 0; 0; 0; 0] by leq;
    replace st with
  ([[0; 0; 0];
    [0; 0; 0];
    [0; 0; 0];
    [463308800 / 788243; 28956800 / 788243; 1809800 / 788243];
    [0; 0; 0]],
   [[0; 0; 0];
    [0; 0; 0];
    [0; 0; 0];
    [431779080 / 788243; 0; 0];
    [0; 0; 0]])
      by leq;
    change s with lattice_cx
  end.
  rewrite rollback_cx_european_2. cbn [bind].
  rewrite rollback_cx_european_1. cbn [bind].
  rewrite rollback_cx_european_0. cbn [bind].
  reflexivity.
Qed.

(** C5.  On the lattice [buildTree] returns for [a = 2] and [dt = 1],
    [bondOption] prices the American option on the four-year zero-coupon
    bond, struck at 40 and expiring after three years, below the European
    one: about 289.52 against 292.33. *)
Lemma american_below_european :
  buildTree days 365 0%Z 1095%Z 3 curve_cx model_cx = (Ok tt, lattice_cx) /\
  fst (bondOption days 365 interp_flat 1 0%Z 1095%Z 40 100 bond_cx true
                  lattice_cx)
  = Ok (18585897520300 / 64195298163, 207848300 / 788243) /\
  fst (bondOption days 365 interp_flat 1 0%Z 1095%Z 40 100 bond_cx false
                  lattice_cx)
  = Ok (2085133140500 / 7132810907, 207848300 / 788243) /\
  18585897520300 / 64195298163 < 2085133140500 / 7132810907.
Proof.
  split; [exact buildTree_cx|].
  unfold bondOption.
  rewrite bondOption_grids_cx_american, bondOption_grids_cx_european.
  split; [reflexivity | split; [reflexivity | lra]].
Qed.

(** * Further properties of the code *)

(** * Further properties of the code *)

(** ** Loops that run to their end *)

(** A loop whose body returns at every element, under an invariant the
    body keeps, returns. *)
Lemma for_each_total {A S : Type} (body : A -> S -> result S)
      (Inv : list A -> S -> Prop) (l : list A) (s : S) :
  Inv [] s ->
  (forall d j rest s0, l = d ++ j :: rest -> Inv d s0 ->
     exists s1, body j s0 = Ok s1 /\ Inv (d ++ [j]) s1) ->
  exists s', Py.for_each l body s = Ok s' /\ Inv l s'.
Proof.
  intros H0 Hstep.
  enough (G : forall l2 l1 s0, l = l1 ++ l2 -> Inv l1 s0 ->
                exists s', Py.for_each l2 body s0 = Ok s' /\ Inv l s').
  { exact (G l [] s eq_refl H0). }
  induction l2 as [|j l2 IH]; intros l1 s0 E HI.
  - rewrite app_nil_r in E. subst l1. exists s0. split; [reflexivity|assumption].
  - destruct (Hstep l1 j l2 s0 E HI) as (s1 & Hb & HI1).
    simpl. rewrite Hb. cbn [bind].
    apply (IH (l1 ++ [j])); [|assumption].
    rewrite <- app_assoc. exact E.
Qed.

(** ** Before [buildTree] *)

Section BeforeBuildTree.

Variable FinDate : Type.
Variable date_sub : FinDate -> FinDate -> R.
Variable gDaysInYear : R.
Variable uinterpolate : R -> ndarray -> ndarray -> Z -> R.
Variable FLAT_FORWARDS : Z.


End BeforeBuildTree.


(** ** The forward discount factor [P] *)

Lemma one_minus_exp_pos (x : R) : 0 < x -> 0 < 1.0 - exp (- x).
Proof. intros H. destruct (exp_neg_lt_1 x H). lra. Qed.



(** ** When the analytic pricer returns *)

Section Analytic.

Variable FinDate : Type.
Variable date_sub : FinDate -> FinDate -> R.
Variable gDaysInYear : R.
Variable N : R -> R.


End Analytic.


(** ** The transition probabilities in closed form *)

(** The three probabilities of spatial index [j], as source lines 38 to
    49 compute them. *)
Definition prob_up (a dt : R) (jmax j : Z) : R :=
  let ajdt := a * IZR j * dt in
  if (j =? jmax)%Z then 7.0/6.0 + 0.50*(ajdt*ajdt - 3.0*ajdt)
  else if (j =? - jmax)%Z then 1.0/6.0 + 0.50*(ajdt*ajdt + ajdt)
  else 1.0/6.0 + 0.50*(ajdt*ajdt - ajdt).

Definition prob_mid (a dt : R) (jmax j : Z) : R :=
  let ajdt := a * IZR j * dt in
  if (j =? jmax)%Z then -1.0/3.0 - ajdt*ajdt + 2.0*ajdt
  else if (j =? - jmax)%Z then -1.0/3.0 - ajdt*ajdt - 2.0*ajdt
  else 2.0/3.0 - ajdt*ajdt.

Definition prob_down (a dt : R) (jmax j : Z) : R :=
  let ajdt := a * IZR j * dt in
  if (j =? jmax)%Z then 1.0/6.0 + 0.50*(ajdt*ajdt - ajdt)
  else if (j =? - jmax)%Z then 7.0/6.0 + 0.50*(ajdt*ajdt + 3.0*ajdt)
  else 1.0/6.0 + 0.50*(ajdt*ajdt + ajdt).

(** The three arrays hold the probabilities of the spatial indices in
    [d], at the offsets [j + jmax]. *)
Definition probs_filled (a dt : R) (jmax : Z) (d : list Z)
           (st : ndarray * ndarray * ndarray) : Prop :=
  let '(pu, pm, pd) := st in
  Z.of_nat (List.length pu) = (2 * jmax + 1)%Z /\
  Z.of_nat (List.length pm) = (2 * jmax + 1)%Z /\
  Z.of_nat (List.length pd) = (2 * jmax + 1)%Z /\
  forall j, In j d ->
    getitem pu (j + jmax) = Ok (prob_up a dt jmax j) /\
    getitem pm (j + jmax) = Ok (prob_mid a dt jmax j) /\
    getitem pd (j + jmax) = Ok (prob_down a dt jmax j).

Lemma prob_body_total (a dt : R) (jmax j : Z) (pu pm pd : ndarray) :
  (0 <= j + jmax < Z.of_nat (List.length pu))%Z ->
  (0 <= j + jmax < Z.of_nat (List.length pm))%Z ->
  (0 <= j + jmax < Z.of_nat (List.length pd))%Z ->
  prob_body a dt jmax jmax j (pu, pm, pd)
  = Ok (update pu (Z.to_nat (j + jmax)) (prob_up a dt jmax j),
        update pm (Z.to_nat (j + jmax)) (prob_mid a dt jmax j),
        update pd (Z.to_nat (j + jmax)) (prob_down a dt jmax j)).
Proof.
  intros Hu Hm Hd. unfold prob_body, prob_up, prob_mid, prob_down.
  destruct (j =? jmax)%Z; [|destruct (j =? - jmax)%Z];
    rewrite !setitem_in by assumption; reflexivity.
Qed.

Lemma getitem_update {A : Type} (v : list A) (i i' : Z) (x : A) :
  (0 <= i < Z.of_nat (List.length v))%Z -> (0 <= i')%Z ->
  getitem (update v (Z.to_nat i) x) i'
  = if (i' =? i)%Z then Ok x else getitem v i'.
Proof.
  intros Hi Hi'.
  apply (getitem_setitem v _ i i' x); [lia | assumption |].
  now apply setitem_in.
Qed.

Lemma prob_loop_total (a dt : R) (jmax : Z) :
  (0 <= jmax)%Z ->
  exists pu pm pd,
    Py.for_each (Py.range (- jmax) (jmax + 1)) (prob_body a dt jmax jmax)
      (repeat 0 (Z.to_nat (2 * jmax + 1)),
       repeat 0 (Z.to_nat (2 * jmax + 1)),
       repeat 0 (Z.to_nat (2 * jmax + 1))) = Ok (pu, pm, pd) /\
    probs_filled a dt jmax (Py.range (- jmax) (jmax + 1)) (pu, pm, pd).
Proof.
  intros Hjmax.
  destruct (for_each_total (prob_body a dt jmax jmax)
              (probs_filled a dt jmax)
              (Py.range (- jmax) (jmax + 1))
              (repeat 0 (Z.to_nat (2 * jmax + 1)),
               repeat 0 (Z.to_nat (2 * jmax + 1)),
               repeat 0 (Z.to_nat (2 * jmax + 1))))
    as ([[pu pm] pd] & H & HI).
  - unfold probs_filled. rewrite repeat_length. do 3 (split; [lia|]). intros j [].
  - intros d j rest [[u m] w] E (Lu & Lm & Lw & HI).
    assert (Hj : (- jmax <= j < jmax + 1)%Z).
    { apply in_range. rewrite E. apply in_or_app. right. now left. }
    eexists. split; [apply prob_body_total; lia|].
    simpl. rewrite !length_update. repeat (split; [assumption|]).
    intros i Hi. apply in_app_or in Hi.
    assert (Hi0 : forall k, In k d -> (- jmax <= k)%Z).
    { intros k Hk.
      assert (Hk' : In k (Py.range (- jmax) (jmax + 1)))
        by (rewrite E; apply in_or_app; now left).
      apply in_range in Hk'. lia. }
    assert (Hib : (- jmax <= i)%Z)
      by (destruct Hi as [Hi|[<-|[]]]; [apply Hi0, Hi | lia]).
    rewrite !getitem_update by lia.
    destruct (Z.eqb_spec (i + jmax) (j + jmax)) as [Eij|Nij].
    + replace i with j by lia. auto.
    + destruct Hi as [Hi|[<-|[]]]; [now apply HI | lia].
  - eauto.
Qed.

(** The probabilities a built lattice stores. *)
Lemma buildTreeFast_probs (a sigma : R) (treeTimes : ndarray) (n : Z)
      (dfs : ndarray) Q pu pm pd rt dt :
  0 < a ->
  buildTreeFast a sigma treeTimes n dfs = Ok (Q, pu, pm, pd, rt, dt) ->
  let jmax := Py.ceil (0.1835 / (a * dt)) in
  0 < dt /\ (1 <= jmax)%Z /\
  probs_filled a dt jmax (Py.range (- jmax) (jmax + 1)) (pu, pm, pd).
Proof.
  intros Ha H.
  destruct (buildTreeFast_dt_pos _ _ _ _ _ _ _ _ _ _ _ Ha H) as [Hdt Hjmax].
  apply buildTreeFast_Ok in H.
  destruct H as (tM & Q0 & alpha & _ & _ & _ & _ & _ & _ & _ & _ & Hp & _).
  cbv zeta. split; [assumption|]. split; [assumption|].
  destruct (prob_loop_total a dt (Py.ceil (0.1835 / (a * dt))) ltac:(lia))
    as (pu' & pm' & pd' & H' & HI).
  rewrite H' in Hp. injection Hp as <- <- <-. exact HI.
Qed.


Lemma Forall_of_getitem {A : Type} (P : A -> Prop) (v : list A) (n : Z) :
  Z.of_nat (List.length v) = n ->
  (forall i, (0 <= i < n)%Z -> exists x, getitem v i = Ok x /\ P x) ->
  Forall P v.
Proof.
  intros Hn H. apply Forall_forall. intros x Hx.
  apply In_nth_error in Hx. destruct Hx as [k Hk].
  assert (Hlt : (k < List.length v)%nat) by (apply nth_error_Some; congruence).
  destruct (H (Z.of_nat k)) as (x' & Hx' & HP); [lia|].
  apply getitem_nonneg in Hx'; [|lia]. destruct Hx' as [Hx' _].
  rewrite Nat2Z.id in Hx'. congruence.
Qed.

(** Below the top node, [a * j * dt] stays under [0.1835]. *)
Lemma interior_drift_small (a dt : R) (j : Z) :
  0 < a * dt ->
  (- Py.ceil (0.1835 / (a * dt)) < j < Py.ceil (0.1835 / (a * dt)))%Z ->
  - 0.1835 < a * IZR j * dt < 0.1835.
Proof.
  intros Hadt Hj. unfold Py.ceil in Hj.
  replace (a * IZR j * dt) with (IZR j * (a * dt)) by ring.
  set (c := a * dt) in *. set (x := 0.1835 / c) in *.
  destruct (Zceil_bound x) as [Hlb _].
  assert (Hx : x * c = 0.1835).
  { unfold x, Rdiv. rewrite Rmult_assoc, Rinv_l; lra. }
  assert (H1 : IZR j <= IZR (Zceil x) - 1).
  { rewrite <- minus_IZR. apply IZR_le. lia. }
  assert (H2 : - (IZR (Zceil x) - 1) <= IZR j).
  { rewrite <- minus_IZR, <- opp_IZR. apply IZR_le. lia. }
  split; nra.
Qed.

(** The quadratics of the up and down probabilities have no real root. *)
Lemma up_down_quadratics (t : R) :
  0 < 7.0/6.0 + 0.50*(t*t - 3.0*t) /\ 0 < 1.0/6.0 + 0.50*(t*t + t) /\
  0 < 1.0/6.0 + 0.50*(t*t - t) /\ 0 < 7.0/6.0 + 0.50*(t*t + 3.0*t).
Proof.
  pose proof (pow2_ge_0 (t - 3/2)). pose proof (pow2_ge_0 (t + 1/2)).
  pose proof (pow2_ge_0 (t - 1/2)). pose proof (pow2_ge_0 (t + 3/2)).
  repeat split; nra.
Qed.

(** What the closed forms give, for [jmax = ceil (0.1835 / (a * dt))]. *)
Lemma probs_filled_signs (a dt : R) (pu pm pd : ndarray) :
  0 < a * dt ->
  let jmax := Py.ceil (0.1835 / (a * dt)) in
  let y := a * IZR jmax * dt in
  probs_filled a dt jmax (Py.range (- jmax) (jmax + 1)) (pu, pm, pd) ->
  Forall (Rlt 0) pu /\ Forall (Rlt 0) pd /\
  (forall j, (- jmax < j < jmax)%Z ->
     exists m, getitem pm (j + jmax) = Ok m /\ 0 < m) /\
  getitem pm (2 * jmax) = Ok (-1/3 - y*y + 2*y) /\
  getitem pm 0 = Ok (-1/3 - y*y + 2*y) /\
  (Forall (Rle 0) pm <-> 1/3 + y*y <= 2*y).
Proof.
  intros Hadt jmax y (Lu & Lm & Ld & HI).
  assert (Hjmax : (1 <= jmax)%Z) by now apply jmax_pos.
  assert (Hin : forall j, (- jmax < j < jmax)%Z ->
                  - 0.1835 < a * IZR j * dt < 0.1835)
    by (intros j Hj; now apply interior_drift_small).
  assert (Hmid : forall j, (- jmax < j < jmax)%Z -> 0 < prob_mid a dt jmax j).
  { intros j Hj. specialize (Hin j Hj). unfold prob_mid.
    destruct (Z.eqb_spec j jmax); [lia|].
    destruct (Z.eqb_spec j (- jmax)); [lia|].
    set (t := a * IZR j * dt) in *. nra. }
  assert (Htop : prob_mid a dt jmax jmax = -1/3 - y*y + 2*y).
  { unfold prob_mid. rewrite Z.eqb_refl. fold y. lra. }
  assert (Hbot : prob_mid a dt jmax (- jmax) = -1/3 - y*y + 2*y).
  { unfold prob_mid. destruct (Z.eqb_spec (- jmax) jmax); [lia|].
    rewrite Z.eqb_refl, opp_IZR.
    replace (a * - IZR jmax * dt) with (- y) by (unfold y; ring). lra. }
  assert (Gtop : getitem pm (2 * jmax) = Ok (-1/3 - y*y + 2*y)).
  { destruct (HI jmax) as (_ & Hm & _); [apply in_range; lia|].
    replace (2 * jmax)%Z with (jmax + jmax)%Z by lia. now rewrite Hm, Htop. }
  assert (Gbot : getitem pm 0 = Ok (-1/3 - y*y + 2*y)).
  { destruct (HI (- jmax)%Z) as (_ & Hm & _); [apply in_range; lia|].
    replace 0%Z with (- jmax + jmax)%Z by lia. now rewrite Hm, Hbot. }
  split; [|split; [|split; [|split; [|split]]]].
  - apply (Forall_of_getitem _ _ _ Lu). intros i Hi.
    destruct (HI (i - jmax)%Z) as (Hu & _ & _); [apply in_range; lia|].
    replace (i - jmax + jmax)%Z with i in Hu by lia.
    eexists. split; [exact Hu|]. unfold prob_up.
    destruct (up_down_quadratics (a * IZR (i - jmax) * dt))
      as (Q1 & Q2 & Q3 & Q4).
    destruct (i - jmax =? jmax)%Z; [|destruct (i - jmax =? - jmax)%Z];
      assumption.
  - apply (Forall_of_getitem _ _ _ Ld). intros i Hi.
    destruct (HI (i - jmax)%Z) as (_ & _ & Hd); [apply in_range; lia|].
    replace (i - jmax + jmax)%Z with i in Hd by lia.
    eexists. split; [exact Hd|]. unfold prob_down.
    destruct (up_down_quadratics (a * IZR (i - jmax) * dt))
      as (Q1 & Q2 & Q3 & Q4).
    destruct (i - jmax =? jmax)%Z; [|destruct (i - jmax =? - jmax)%Z];
      assumption.
  - intros j Hj. destruct (HI j) as (_ & Hm & _); [apply in_range; lia|].
    eexists. split; [exact Hm|]. now apply Hmid.
  - exact Gtop.
  - exact Gbot.
  - split.
    + intros HF. apply (getitem_Forall _ _ _ _ HF) in Gtop. lra.
    + intros Hy. apply (Forall_of_getitem _ _ _ Lm). intros i Hi.
      destruct (HI (i - jmax)%Z) as (_ & Hm & _); [apply in_range; lia|].
      replace (i - jmax + jmax)%Z with i in Hm by lia.
      eexists. split; [exact Hm|].
      destruct (Z.eq_dec (i - jmax) jmax) as [E|E]; [rewrite E, Htop; lra|].
      destruct (Z.eq_dec (i - jmax) (- jmax)) as [E'|E'];
        [rewrite E', Hbot; lra|].
      left. apply Hmid. lia.
Qed.


(** ** The grid of short rates *)

(** What holds of [rt] when the big loop is about to run step [m]. *)
Record rates_inv (dR : R) (jmax n m : Z) (rt : ndarray2) : Prop := {
  RI_rows : List.length rt = Z.to_nat (n + 2);
  RI_width : forall i, (0 <= i < n + 2)%Z ->
      List.length (row rt i) = Z.to_nat (2 * jmax + 1);
  RI_cells : forall i j, (0 <= i < m)%Z -> In j (occupied i jmax) ->
      cell rt i (j + jmax) = cell rt i jmax + IZR j * dR;
  RI_zero : forall i, (m <= i < n + 2)%Z ->
      row rt i = repeat 0 (Z.to_nat (2 * jmax + 1))
}.

Lemma step_body_rates (pu pm pd dfs : ndarray) (dR dt : R) (jmax n m : Z)
      (Q alpha rt Q' alpha' rt' : _) :
  (0 <= m <= n)%Z -> (1 <= jmax)%Z ->
  rates_inv dR jmax n m rt ->
  step_body pu pm pd dfs dR dt jmax (- jmax) jmax m (Q, alpha, rt)
  = Ok (Q', alpha', rt') ->
  rates_inv dR jmax n (m + 1) rt'.
Proof.
  intros Hm Hjmax [I1 I2 I3 I4] H. unfold step_body in H.
  assert (Hocc : forall j, In j (occupied m jmax) -> (0 <= j + jmax)%Z).
  { intros j Hj. apply in_range in Hj. lia. }
  fold (occupied m jmax) in H.
  bind_inv H as s Hs. bind_inv H as dfm Hdfm. bind_inv H as ratio Hratio.
  bind_inv H as lr Hlr. bind_inv H as al Hal. bind_inv H as alpha1 Halpha.
  assert (Hget : getitem alpha1 m = Ok al).
  { rewrite (getitem_setitem _ _ _ _ _ (proj1 Hm) (proj1 Hm) Halpha).
    now rewrite Z.eqb_refl. }
  bind_inv H as rt1 Hrt. bind_inv H as Q1 HQ. injection H as <- <- <-.
  pose proof (rt_loop_dims _ _ _ _ _ _ _ (proj1 Hm) Hocc Hrt) as [D1 D2].
  apply (rt_loop _ _ _ _ _ _ _ _ (proj1 Hm) Hocc Hget) in Hrt.
  destruct Hrt as [Hc Hr].
  assert (H0 : In 0%Z (occupied m jmax)) by (apply in_range; lia).
  constructor.
  - congruence.
  - intros i Hi. rewrite D2 by lia. now apply I2.
  - intros i j Hi Hj. destruct (Z.eq_dec i m) as [->|Hne].
    + assert (H00 := Hc 0%Z H0).
      replace (0 + jmax)%Z with jmax in H00 by lia.
      rewrite (Hc j Hj), H00. lra.
    + unfold cell. rewrite Hr by lia. apply I3; [lia | assumption].
  - intros i Hi. rewrite Hr by lia. apply I4. lia.
Qed.

Lemma rates_loop (pu pm pd dfs : ndarray) (dR dt : R) (jmax n : Z)
      (Q0 alpha0 rt0 Q alpha rt : _) :
  (0 <= n + 1)%Z -> (1 <= jmax)%Z ->
  rates_inv dR jmax n 0 rt0 ->
  Py.for_each (Py.range 0 (n + 1))
              (step_body pu pm pd dfs dR dt jmax (- jmax) jmax)
              (Q0, alpha0, rt0) = Ok (Q, alpha, rt) ->
  rates_inv dR jmax n (n + 1) rt.
Proof.
  intros Hn Hjmax H0 H.
  pose (Inv := fun (d : list Z) (st : ndarray2 * ndarray * ndarray2) =>
                 let '(_, _, rc) := st in
                 rates_inv dR jmax n (Z.of_nat (List.length d)) rc).
  assert (HI : Inv ([] ++ Py.range 0 (n + 1)) (Q, alpha, rt)).
  { apply for_each_inv
      with (body := step_body pu pm pd dfs dR dt jmax (- jmax) jmax)
           (s := (Q0, alpha0, rt0)); [ exact H0 | | exact H ].
    intros d j rest [[Qa ala] rta] [[Qb alb] rtb] E HInv Hb.
    simpl in E. simpl in HInv.
    assert (Ej := range_nth_prefix _ _ _ _ _ E).
    assert (Hj : (0 <= j < n + 1)%Z).
    { apply in_range. rewrite E. apply in_or_app. right. now left. }
    simpl. rewrite length_app. simpl.
    replace (Z.of_nat (List.length d + 1)) with (j + 1)%Z by lia.
    apply (step_body_rates pu pm pd dfs dR dt jmax n j Qa ala rta Qb alb rtb);
      try assumption; [lia|].
    replace j with (Z.of_nat (List.length d)) by lia. exact HInv. }
  simpl in HI. rewrite range_length in HI.
  replace (Z.of_nat (Z.to_nat (n + 1 - 0))) with (n + 1)%Z in HI by lia.
  exact HI.
Qed.

Lemma buildTreeFast_rates (a sigma : R) (treeTimes : ndarray) (n : Z)
      (dfs : ndarray) Q pu pm pd rt dt :
  0 < a ->
  buildTreeFast a sigma treeTimes n dfs = Ok (Q, pu, pm, pd, rt, dt) ->
  rates_inv (sigma * sqrt (3.0 * dt)) (Py.ceil (0.1835 / (a * dt))) n
            (n + 1) rt.
Proof.
  intros Ha H.
  destruct (buildTreeFast_dt_pos _ _ _ _ _ _ _ _ _ _ _ Ha H) as [Hdt Hjmax].
  apply buildTreeFast_Ok in H.
  destruct H as (tM & Q0 & alpha & _ & _ & _ & _ & _ & Hn2 & Hn1 & _
                 & Hp & HQ0 & Hloop).
  eapply rates_loop; [ exact Hn1 | exact Hjmax | | exact Hloop ].
  constructor.
  - apply repeat_length.
  - intros i Hi. rewrite row_zeros by lia. apply repeat_length.
  - intros i j Hi. lia.
  - intros i Hi. apply row_zeros. lia.
Qed.


(** ** The arrays of a built lattice *)

Section Built.

Variable FinDate : Type.
Variable date_sub : FinDate -> FinDate -> R.
Variable gDaysInYear : R.

(** What a successful [buildTree] went through, and what it stored. *)
Lemma buildTree_Ok (startDate endDate : FinDate) (n : Z)
      (curve : FinDiscountCurve) (self self' : FinHullWhiteRateModel) :
  buildTree date_sub gDaysInYear startDate endDate n curve self
  = (Ok tt, self') ->
  exists treeTimes dfs Q pu pm pd rt dt,
    buildTree_inputs date_sub gDaysInYear startDate endDate n curve
    = Ok (treeTimes, dfs) /\
    buildTreeFast (_a self) (_sigma self) treeTimes n dfs
    = Ok (Q, pu, pm, pd, rt, dt) /\
    self' = {| _a := _a self; _sigma := _sigma self;
               _Q := Some Q; _r := _r self;
               _treeTimes := Some treeTimes;
               _pu := Some pu; _pm := Some pm; _pd := Some pd;
               _discountCurve := Some curve;
               _rt := Some rt; _dt := Some dt;
               _bondValues := _bondValues self;
               _optionValues := _optionValues self |}.
Proof.
  intros H. unfold buildTree in H.
  destruct (buildTree_inputs date_sub gDaysInYear startDate endDate n curve)
    as [[treeTimes dfs]|e] eqn:Ein; [|discriminate].
  simpl in H.
  destruct (buildTreeFast (_a self) (_sigma self) treeTimes n dfs)
    as [[[[[[Q pu] pm] pd] rt] dt]|e] eqn:Etree; [|discriminate].
  simpl in H. injection H as <-.
  exists treeTimes, dfs, Q, pu, pm, pd, rt, dt. auto.
Qed.

(** The time grid [buildTree] hands to [buildTreeFast], and the time step
    that comes back. *)
Lemma buildTree_time_grid (startDate endDate : FinDate) (n : Z)
      (curve : FinDiscountCurve) (a sigma : R) (treeTimes dfs : ndarray)
      Q pu pm pd rt dt :
  buildTree_inputs date_sub gDaysInYear startDate endDate n curve
  = Ok (treeTimes, dfs) ->
  buildTreeFast a sigma treeTimes n dfs = Ok (Q, pu, pm, pd, rt, dt) ->
  exists maturity,
    year_frac date_sub gDaysInYear endDate startDate = Ok maturity /\
    (1 <= n)%Z /\ dt = maturity / IZR n /\
    Z.of_nat (List.length treeTimes) = (n + 2)%Z /\
    forall i, (0 <= i <= n + 1)%Z -> getitem treeTimes i = Ok (IZR i * dt).
Proof.
  intros Ein Etree.
  apply buildTreeFast_Ok in Etree.
  destruct Etree as (tM & Q0 & alpha & HtM & Hn1 & Hdt & _ & Hadt & _ & Hn & _).
  unfold buildTree_inputs in Ein.
  bind_inv Ein as maturity Hmat. bind_inv Ein as treeMaturity HtM'.
  apply div_Ok in HtM'. destruct HtM' as [Hn0 ->].
  bind_inv Ein as tt0 Htt. bind_inv Ein as d0 Hd0.
  bind_inv Ein as d1 Hd1. bind_inv Ein as d2 Hd2.
  injection Ein as <- <-.
  unfold linspace in Htt. destruct (Z.ltb_spec (n + 2) 0); [discriminate|].
  injection Htt as <-.
  rewrite getitem_map_range_last in HtM by lia. injection HtM as <-.
  replace (n + 2 - 1)%Z with (n + 1)%Z in * by lia.
  assert (Hn' : (1 <= n)%Z).
  { assert (n <> 0)%Z by (intros ->; now apply Hn0).
    assert (n + 1 <> 0)%Z by (intros E; rewrite E in Hn1; now apply Hn1).
    lia. }
  assert (Edt : dt = maturity / IZR n).
  { rewrite Hdt. replace 0.0 with 0 by lra. field. split; assumption. }
  exists maturity. split; [assumption|]. split; [assumption|].
  split; [assumption|]. split.
  - rewrite length_map, range_length. lia.
  - intros i Hi. rewrite getitem_map_range by lia. f_equal.
    rewrite Hdt. replace 0.0 with 0 by lra. field. split; assumption.
Qed.

(** The time grid and the arrays a successful [buildTree] stores. *)
Lemma buildTree_dimensions
        (startDate endDate : FinDate) (n : Z) (curve : FinDiscountCurve)
        (self self' : FinHullWhiteRateModel) :
  0 < _a self ->
  buildTree date_sub gDaysInYear startDate endDate n curve self
  = (Ok tt, self') ->
  exists maturity dt treeTimes Q rt pu pm pd,
    year_frac date_sub gDaysInYear endDate startDate = Ok maturity /\
    (1 <= n)%Z /\ 0 < maturity /\ dt = maturity / IZR n /\
    _dt self' = Some dt /\ _treeTimes self' = Some treeTimes /\
    _Q self' = Some Q /\ _rt self' = Some rt /\
    _pu self' = Some pu /\ _pm self' = Some pm /\ _pd self' = Some pd /\
    Z.of_nat (List.length treeTimes) = (n + 2)%Z /\
    (forall i, (0 <= i <= n + 1)%Z -> getitem treeTimes i = Ok (IZR i * dt)) /\
    let jmax := Py.ceil (0.1835 / (_a self * dt)) in
    (1 <= jmax)%Z /\
    shape Q = ((n + 2)%Z, (2 * jmax + 1)%Z) /\
    shape rt = ((n + 2)%Z, (2 * jmax + 1)%Z) /\
    (forall i, (0 <= i < n + 2)%Z ->
       exists q r, getitem Q i = Ok q /\ getitem rt i = Ok r /\
         Z.of_nat (List.length q) = (2 * jmax + 1)%Z /\
         Z.of_nat (List.length r) = (2 * jmax + 1)%Z) /\
    Z.of_nat (List.length pu) = (2 * jmax + 1)%Z /\
    Z.of_nat (List.length pm) = (2 * jmax + 1)%Z /\
    Z.of_nat (List.length pd) = (2 * jmax + 1)%Z.
Proof.
  intros Ha H.
  destruct (buildTree_Ok _ _ _ _ _ _ H)
    as (treeTimes & dfs & Q & pu & pm & pd & rt & dt & Ein & Etree & ->).
  destruct (buildTree_time_grid _ _ _ _ _ _ _ _ _ _ _ _ _ _ Ein Etree)
    as (maturity & Hmat & Hn & Edt & Hlen & Hgrid).
  destruct (buildTreeFast_probs _ _ _ _ _ _ _ _ _ _ _ Ha Etree)
    as (Hdt & Hjmax & Lu & Lm & Ld & _).
  pose proof (buildTreeFast_calibrated _ _ _ _ _ _ _ _ _ _ _ Ha Etree) as I.
  pose proof (buildTreeFast_rates _ _ _ _ _ _ _ _ _ _ _ Ha Etree) as J.
  set (jmax := Py.ceil (0.1835 / (_a self * dt))) in *.
  assert (HQ0 : hd [] Q = row Q 0) by (unfold row; now destruct Q).
  assert (Hr0 : hd [] rt = row rt 0) by (unfold row; now destruct rt).
  assert (Hn0 : 0 < IZR n) by (apply IZR_lt; lia).
  exists maturity, dt, treeTimes, Q, rt, pu, pm, pd.
  cbn [_dt _treeTimes _Q _rt _pu _pm _pd _a]. cbv zeta. fold jmax.
  split; [assumption|]. split; [assumption|]. split.
  { rewrite Edt in Hdt.
    replace maturity with (maturity / IZR n * IZR n) by (field; lra).
    now apply Rmult_lt_0_compat. }
  split; [assumption|]. do 7 (split; [reflexivity|]).
  split; [assumption|]. split; [assumption|]. split; [assumption|].
  split; [|split; [|split]].
  - unfold shape. rewrite HQ0, (T_rows _ _ _ _ _ _ _ I),
      (T_width _ _ _ _ _ _ _ I) by lia. f_equal; lia.
  - unfold shape. rewrite Hr0, (RI_rows _ _ _ _ _ J),
      (RI_width _ _ _ _ _ J) by lia. f_equal; lia.
  - intros i Hi. exists (row Q i), (row rt i).
    rewrite !(getitem_inrange _ _ [])
      by (rewrite ?(T_rows _ _ _ _ _ _ _ I), ?(RI_rows _ _ _ _ _ J); lia).
    fold (row Q i). fold (row rt i).
    rewrite (T_width _ _ _ _ _ _ _ I), (RI_width _ _ _ _ _ J) by lia.
    repeat split; lia.
  - auto.
Qed.


End Built.


(** ** [df_Tree] at the end of the tree, and what it returns *)

Section DfTree.

Variable FinDate : Type.
Variable date_sub : FinDate -> FinDate -> R.
Variable gDaysInYear : R.


End DfTree.


(** ** What a computation ensures when it returns *)

(** [ensures P c]: whatever [c] returns satisfies [P]. *)
Definition ensures {A : Type} (P : A -> Prop) (c : result A) : Prop :=
  forall a, c = Ok a -> P a.

Lemma ensures_bind {A B : Type} (P : A -> Prop) (Q : B -> Prop)
      (c : result A) (k : A -> result B) :
  ensures P c -> (forall a, P a -> ensures Q (k a)) -> ensures Q (bind c k).
Proof.
  intros Hc Hk b H. apply bind_Ok in H. destruct H as (a & Ha & Hb).
  exact (Hk a (Hc a Ha) b Hb).
Qed.

Lemma ensures_skip {A B : Type} (Q : B -> Prop)
      (c : result A) (k : A -> result B) :
  (forall a, c = Ok a -> ensures Q (k a)) -> ensures Q (bind c k).
Proof.
  intros Hk b H. apply bind_Ok in H. destruct H as (a & Ha & Hb).
  exact (Hk a Ha b Hb).
Qed.

Lemma ensures_Ok {A : Type} (P : A -> Prop) (a : A) : P a -> ensures P (Ok a).
Proof. intros H b [= <-]. exact H. Qed.

Lemma ensures_Raise {A : Type} (P : A -> Prop) (e : exn) :
  ensures P (Raise e).
Proof. intros b H. discriminate. Qed.

Lemma ensures_for_each {J S : Type} (P : S -> Prop) (l : list J)
      (body : J -> S -> result S) :
  (forall j s, In j l -> P s -> ensures P (body j s)) ->
  forall s, P s -> ensures P (Py.for_each l body s).
Proof.
  induction l as [|j l IH]; intros Hb s Hs; simpl.
  - now apply ensures_Ok.
  - apply (ensures_bind P); [apply Hb; [now left | assumption]|].
    intros s1 Hs1. apply IH; [|assumption].
    intros j' s' Hj'. apply Hb. now right.
Qed.

(** Steps over the part of a run that the property at hand does not
    depend on, up to the next array that is allocated. *)
Ltac skip_one :=
  lazymatch goal with
  | |- ensures _ (bind (zeros2 _ _) _) => fail
  | |- ensures _ (bind _ _) => apply ensures_skip; intros ? ?
  | |- ensures _ (if ?b then _ else _) =>
    destruct b eqn:?; [apply ensures_Raise|]
  | |- ensures _ (match ?p with _ => _ end) => destruct p eqn:?
  end.

Ltac skip := repeat skip_one.

(** ** Arrays with entries that are not negative *)

Lemma update_update {A : Type} (v : list A) (k : nat) (x y : A) :
  update (update v k x) k y = update v k y.
Proof.
  revert k. induction v as [|z v IH]; intros [|k]; simpl; auto.
  now rewrite IH.
Qed.

Lemma update_Forall {A : Type} (P : A -> Prop) (v : list A) (k : nat) (x : A) :
  Forall P v -> P x -> Forall P (update v k x).
Proof.
  intros H Hx. revert k. induction H as [|z v Hz H IH]; intros [|k]; simpl;
    constructor; auto.
Qed.

Lemma setitem2_Ok (M M' : ndarray2) (i j : Z) (x : R) :
  setitem2 M i j x = Ok M' ->
  exists k k' r,
    norm_index (List.length M) i = Ok k /\ nth_error M k = Some r /\
    norm_index (List.length r) j = Ok k' /\
    M' = update M k (update r k' x).
Proof.
  unfold setitem2. intros H. bind_inv H as r Hr. bind_inv H as r' Hr'.
  apply getitem_Ok in Hr. destruct Hr as (k & Hk & Hr).
  apply setitem_Ok in Hr'. destruct Hr' as (k' & Hk' & ->).
  apply setitem_Ok in H. destruct H as (k2 & Hk2 & ->).
  assert (k2 = k) by congruence. subst k2.
  exists k, k', r. auto.
Qed.

Lemma setitem2_Forall (P : R -> Prop) (M M' : ndarray2) (i j : Z) (x : R) :
  setitem2 M i j x = Ok M' -> Forall (Forall P) M -> P x ->
  Forall (Forall P) M'.
Proof.
  intros H HM Hx. apply setitem2_Ok in H.
  destruct H as (k & k' & r & Hk & Hr & Hk' & ->).
  apply update_Forall; [assumption|]. apply update_Forall; [|assumption].
  apply nth_error_In in Hr. rewrite Forall_forall in HM. auto.
Qed.

(** Writing a cell twice leaves what the second write alone leaves. *)
Lemma setitem2_twice (M M1 M2 : ndarray2) (i j : Z) (x y : R) :
  setitem2 M i j x = Ok M1 -> setitem2 M1 i j y = Ok M2 ->
  setitem2 M i j y = Ok M2.
Proof.
  intros H1 H2. apply setitem2_Ok in H1.
  destruct H1 as (k & k' & r & Hk & Hr & Hk' & ->).
  apply setitem2_Ok in H2.
  destruct H2 as (k2 & k2' & r2 & Hk2 & Hr2 & Hk2' & ->).
  rewrite length_update in Hk2. assert (k2 = k) by congruence. subst k2.
  assert (Hlt : (k < List.length M)%nat) by (apply nth_error_Some; congruence).
  rewrite nth_error_update_eq in Hr2 by assumption. injection Hr2 as <-.
  rewrite length_update in Hk2'. assert (k2' = k') by congruence. subst k2'.
  rewrite !update_update.
  unfold setitem2, getitem, setitem. rewrite Hk. cbn [bind]. rewrite Hr.
  cbn [bind]. rewrite Hk'. cbn [bind]. reflexivity.
Qed.

Lemma getitem2_Forall (P : R -> Prop) (M : ndarray2) (i j : Z) (x : R) :
  getitem2 M i j = Ok x -> Forall (Forall P) M -> P x.
Proof.
  unfold getitem2. intros H HM. bind_inv H as r Hr.
  apply (getitem_Forall P r j x); [|assumption].
  exact (getitem_Forall (Forall P) M i r HM Hr).
Qed.

Lemma zeros2_Forall (P : R -> Prop) (r c : Z) (M : ndarray2) :
  P 0 -> zeros2 r c = Ok M -> Forall (Forall P) M.
Proof.
  intros H0 H. apply zeros2_Ok in H. destruct H as (_ & _ & ->).
  apply Forall_forall. intros v Hv. apply repeat_spec in Hv. subst v.
  apply Forall_forall. intros x Hx. apply repeat_spec in Hx. now subst x.
Qed.

(** ** The option price is not negative *)

Definition nonneg2 (M : ndarray2) : Prop := Forall (Forall (Rle 0)) M.

Lemma rollback_nonneg (V : ndarray2) (m k kN jmax : Z) (pu pm pd df : R) :
  nonneg2 V -> 0 <= pu -> 0 <= pm -> 0 <= pd -> 0 <= df ->
  ensures (Rle 0) (rollback V m k kN jmax pu pm pd df).
Proof.
  intros HV Hu Hm Hd Hdf. unfold rollback.
  destruct (k =? jmax)%Z;
    (apply ensures_skip; intros vu Hvu;
     apply ensures_skip; intros vm Hvm;
     apply ensures_skip; intros vd Hvd;
     apply ensures_Ok;
     apply (getitem2_Forall (Rle 0)) in Hvu, Hvm, Hvd; try assumption;
     apply Rmult_le_pos; [|assumption];
     repeat apply Rplus_le_le_0_compat; apply Rmult_le_pos; assumption).
Qed.

Lemma rollback_node_nonneg (self : FinHullWhiteRateModel) (accrued : ndarray)
      (m jmax N : Z) (dt flow strikePrice : R) (americanExercise : bool)
      (k : Z) (bv ov : ndarray2) :
  americanExercise = true \/ nonneg_probabilities self ->
  nonneg2 ov ->
  ensures (fun st => nonneg2 (snd st))
    (rollback_node_body self accrued m jmax N dt flow strikePrice
                        americanExercise k (bv, ov)).
Proof.
  intros Hcase Hov st H. unfold rollback_node_body in H.
  bind_inv H as rtA HrtA. bind_inv H as rt Hrt.
  bind_inv H as puA HpuA. bind_inv H as pu Hpu.
  bind_inv H as pmA HpmA. bind_inv H as pm Hpm.
  bind_inv H as pdA HpdA. bind_inv H as pd Hpd.
  bind_inv H as v Hv. bind_inv H as bv1 Hbv1. bind_inv H as bv2 Hbv2.
  bind_inv H as w Hw. bind_inv H as ov1 Hov1.
  destruct americanExercise.
  - bind_inv H as b Hb. bind_inv H as ac Hac. bind_inv H as hold Hhold.
    bind_inv H as ov2 Hov2. injection H as <-. simpl.
    pose proof (setitem2_twice _ _ _ _ _ _ _ Hov1 Hov2) as Hset.
    apply (setitem2_Forall (Rle 0) _ _ _ _ _ Hset Hov).
    eapply Rle_trans; [|apply Rmax_l]. apply Rmax_r.
  - injection H as <-. simpl.
    destruct Hcase as [Hc|Hp]; [discriminate|].
    apply attr_Some in HpuA, HpmA, HpdA.
    assert (Hu : 0 <= pu)
      by (eapply (getitem_Forall (Rle 0)); [apply (Hp puA); auto | exact Hpu]).
    assert (Hm : 0 <= pm)
      by (eapply (getitem_Forall (Rle 0)); [apply (Hp pmA); auto | exact Hpm]).
    assert (Hd : 0 <= pd)
      by (eapply (getitem_Forall (Rle 0)); [apply (Hp pdA); auto | exact Hpd]).
    assert (Hdf : 0 <= exp (- rt * dt)) by (left; apply exp_pos).
    apply (setitem2_Forall (Rle 0) _ _ _ _ _ Hov1 Hov).
    exact (rollback_nonneg ov m k (k + N) jmax pu pm pd _ Hov Hu Hm Hd Hdf
                           w Hw).
Qed.

Section OptionPrice.

Variable FinDate : Type.
Variable date_sub : FinDate -> FinDate -> R.
Variable gDaysInYear : R.
Variable uinterpolate : R -> ndarray -> ndarray -> Z -> R.
Variable FLAT_FORWARDS : Z.

Lemma bondOption_grids_nonneg (self : FinHullWhiteRateModel)
      (settlementDate expiryDate : FinDate) (strikePrice face : R)
      (bond : FinBond FinDate) (americanExercise : bool) :
  americanExercise = true \/ nonneg_probabilities self ->
  ensures (fun r => nonneg2 (fst (fst r)))
    (bondOption_grids date_sub gDaysInYear uinterpolate FLAT_FORWARDS self
       settlementDate expiryDate strikePrice face bond americanExercise).
Proof.
  intros Hcase. unfold bondOption_grids. skip.
  apply (ensures_bind nonneg2).
  { intros M HM. apply (zeros2_Forall (Rle 0)) in HM; [assumption|lra]. }
  intros ov Hov.
  apply ensures_skip; intros bv0 _.
  apply ensures_skip; intros tf _.
  apply ensures_skip; intros [bv1 zcb] _.
  apply (ensures_bind nonneg2).
  { apply ensures_for_each; [|assumption].
    intros k s _ Hs s' Hrun. unfold expiry_option_body in Hrun.
    bind_inv Hrun as b Hb. bind_inv Hrun as ac Hac.
    apply (setitem2_Forall (Rle 0) _ _ _ _ _ Hrun Hs).
    eapply Rle_trans; [|apply Rmax_r]. lra. }
  intros ov1 Hov1.
  apply (ensures_bind (fun st => nonneg2 (snd st))).
  { apply (ensures_for_each (fun st => nonneg2 (snd st)));
      [|assumption].
    intros m [bv ov2] _ Hs. simpl in Hs. unfold rollback_step_body.
    apply ensures_skip. intros tf1 _.
    apply (ensures_for_each (fun st => nonneg2 (snd st))); [|assumption].
    intros k [bv' ov'] _ Hs'. now apply rollback_node_nonneg. }
  intros [bv ov2] Hs. now apply ensures_Ok.
Qed.


End OptionPrice.


(** ** Put-call parity on the tree *)

(** What a computation returns, for stating facts about runs that
    return. *)
Definition value (c : result R) : R :=
  match c with
  | Ok x => x
  | Raise _ => 0
  end.

(** The difference of the two payoffs of a node is linear in the price of
    the bond. *)
Lemma payoff_difference (x k : R) : Rmax (x - k) 0.0 - Rmax (k - x) 0.0 = x - k.
Proof.
  replace 0.0 with 0 by lra.
  unfold Rmax. destruct (Rle_dec (x - k) 0), (Rle_dec (k - x) 0); lra.
Qed.

(** The short rate the tree pricers read at node [k] of step [m]. *)
Definition node_rate (self : FinHullWhiteRateModel) (m k : Z) : R :=
  value (rtA <- attr (_rt self) ;; getitem2 rtA m k).

Lemma zcb_loop_parity (self : FinHullWhiteRateModel) (Q : ndarray2)
      (expiryStep : Z)
      (texp tmat dt ptexp ptdelta ptmat strikePrice face : R) (l : list Z) :
  _Q self = Some Q ->
  forall call0 put0 call put,
    Py.for_each l
      (zcb_node_body self expiryStep texp tmat dt ptexp ptdelta ptmat
                     strikePrice face)
      (call0, put0) = Ok (call, put) ->
    call - put =
    call0 - put0 +
    Zsum l (fun k =>
      value (getitem2 Q expiryStep k) *
      (value (P self texp tmat (node_rate self expiryStep k) dt
                ptexp ptdelta ptmat) * face - strikePrice)) /\
    forall k, In k l -> exists q, getitem2 Q expiryStep k = Ok q.
Proof.
  intros HQ. induction l as [|k l IH]; intros call0 put0 call put H.
  - simpl in H. injection H as <- <-. simpl. split; [lra | intros k []].
  - simpl in H. bind_inv H as st Hst. destruct st as [c1 p1].
    unfold zcb_node_body in Hst. rewrite HQ in Hst. cbn [attr bind] in Hst.
    bind_inv Hst as q Hq. bind_inv Hst as rtA HrtA. bind_inv Hst as r Hr.
    bind_inv Hst as z Hz. injection Hst as <- <-.
    apply IH in H. destruct H as [H Hall]. split.
    + rewrite H. simpl. unfold node_rate.
      rewrite Hq, HrtA. cbn [bind]. rewrite Hr. cbn [value]. rewrite Hz.
      cbn [value].
      pose proof (payoff_difference (z * face) strikePrice). nra.
    + intros k' [<-|Hk']; [eauto | now apply Hall].
Qed.

Lemma Zsum_minus (l : list Z) (f g : Z -> R) :
  Zsum l (fun k => f k - g k) = Zsum l f - Zsum l g.
Proof.
  induction l as [|j l IH]; simpl; [lra|]. rewrite IH. lra.
Qed.

Lemma int_nonneg (x : R) : 0 <= x -> (0 <= Py.int x)%Z.
Proof.
  intros H. unfold Py.int. rewrite if_Rle_true by assumption.
  apply le_IZR. destruct (Zfloor_bound x) as [H1 H2].
  assert (Hlt : -1 < IZR (Zfloor x)) by lra.
  apply lt_IZR in Hlt. apply IZR_le. lia.
Qed.

Section TreeParity.

Variable FinDate : Type.
Variable date_sub : FinDate -> FinDate -> R.
Variable gDaysInYear : R.

(** What a successful run of the tree pricer went through. *)
Lemma tree_pricer_Ok
      (settlementDate expiryDate maturityDate : FinDate)
      (strikePrice face : R) (self : FinHullWhiteRateModel)
      (call put : R) :
  europeanOptionOnZeroCouponBond_Tree_body date_sub gDaysInYear self
    settlementDate expiryDate maturityDate strikePrice face
  = Ok (call, put) ->
  exists texp tmat treeTimes tlast dt curve Q,
    year_frac date_sub gDaysInYear expiryDate settlementDate = Ok texp /\
    year_frac date_sub gDaysInYear maturityDate settlementDate = Ok tmat /\
    _treeTimes self = Some treeTimes /\ getitem treeTimes (-1) = Ok tlast /\
    0 <= texp <= tmat /\ texp <= tlast /\
    _dt self = Some dt /\ dt <> 0 /\ _discountCurve self = Some curve /\
    _Q self = Some Q /\
    Py.for_each (Py.range 0 (snd (shape Q)))
      (zcb_node_body self (Py.int (texp / dt + 0.50)) texp tmat dt
         (df curve texp) (df curve (texp + dt)) (df curve tmat)
         strikePrice face)
      (0.0, 0.0) = Ok (call, put).
Proof.
  intros H. unfold europeanOptionOnZeroCouponBond_Tree_body in H.
  bind_inv H as texp Htexp. bind_inv H as tmat Htmat.
  bind_inv H as u Hu. destruct u. apply check_expiry_Ok in Hu.
  bind_inv H as tt0 Htt. unfold check_tree in Htt.
  destruct (_treeTimes self) as [treeTimes|] eqn:Etimes; [|discriminate].
  bind_inv Htt as tlast Hlast.
  destruct (Rlt_dec tlast texp) as [|Hle]; [discriminate|]. clear Htt.
  bind_inv H as dt Hdt. apply attr_Some in Hdt.
  bind_inv H as curve Hcurve. apply attr_Some in Hcurve.
  bind_inv H as Q HQ. apply attr_Some in HQ.
  destruct (shape Q) as [rows numNodes] eqn:Eshape.
  bind_inv H as x Hx. apply div_Ok in Hx. destruct Hx as [Hdt0 ->].
  exists texp, tmat, treeTimes, tlast, dt, curve, Q.
  rewrite Eshape. cbn [snd].
  repeat (split; [first [assumption | reflexivity | lra]|]). exact H.
Qed.


End TreeParity.

(** ** The properties above on the two-step lattice *)







Lemma df_Tree_ex :
  df_Tree 1 lattice_ex = (Ok (DfPair (1/3) (- ln (1/3) / 1)), lattice_ex).
Proof.
  destruct lattice_ex_fields as (HQ & Hdt & Ha).
  assert (H := df_Tree_next_step Z days 365 0%Z 365%Z 1 1 curve_ex
                 model_ex lattice_ex 1).
  replace (IZR 1 * 1) with 1 in H by lra.
  replace (df curve_ex (1 + 1)) with (1/3) in H by (simpl; lra).
  apply H.
  - simpl. lra.
  - exact buildTree_ex.
  - exact Hdt.
  - lia.
  - lra.
Qed.


(** An option on the zero-coupon bond of two years, expiring after one
    year, with strike 1/2 on a face value of 1. *)
Lemma tree_pricer_ex :
  europeanOptionOnZeroCouponBond_Tree days 365 0%Z 365%Z 730%Z (1/2) 1
    lattice_ex
  = (Ok (1/12, 0), lattice_ex).
Proof.
  rewrite lattice_ex_grid.
  unfold europeanOptionOnZeroCouponBond_Tree, reading. f_equal.
  unfold europeanOptionOnZeroCouponBond_Tree_body, year_frac, days. runx.
  replace (365 / 365) with 1 by lra. replace (730 / 365) with 2 by lra.
  shape_eval. runx. int_is 1%Z. cbn [df].
  replace (1 / (1 + (1 + 1))) with (1 / (1 + 2)) by lra.
  runx.
  replace (/ (3 / 2)) with (2 / 3) by field.
  rewrite Rmax_left by lra. rewrite Rmax_right by lra. leq.
Qed.

